(** * SloppyVM: codec, reference machine, expression compiler, enumeration
      and differential oracle, embedded from the Python sources.

    Python integers are modelled by [Z], [bytes] objects by [list byte],
    Python lists by [list] with the top of the machine stack at the END of
    the list (the code pushes with [append] and pops with [pop()]).
    Raised exceptions are values of [exn]; a function that may raise
    returns [result]. *)

From Stdlib Require Import String ZArith List Lia Bool Arith.
From Stdlib Require Import Strings.Byte Ascii DecimalString.
From Equations Require Import Equations.
Import ListNotations.

Local Open Scope Z_scope.

(* ===================================================================== *)
(** * Exceptions and the error monad                                      *)
(* ===================================================================== *)

(** The text of an [InvalidInstruction] message, kept as data: the
    f-strings of the source interpolate exactly these fields. *)
Inductive invalid_reason :=
| EmptyOrTruncated (offset len : nat)
| TruncatedPUSH4 (offset have : nat)
| UnknownOpcode (opcode : byte) (offset : nat)
| UnknownInstructionType.

Inductive exn :=
| ValueError_PUSH4 (value : Z)
| ValueError_Stack (i : nat) (val : Z)
| ValueError_Const (value : Z)
| OverflowError
| IndexError
| InvalidInstruction (why : invalid_reason)
| StackUnderflow (msg : string).

Inductive result (A : Type) :=
| Ok (a : A)
| Err (e : exn).
Arguments Ok {A} a.
Arguments Err {A} e.

Definition bind {A B} (m : result A) (k : A -> result B) : result B :=
  match m with
  | Ok a => k a
  | Err e => Err e
  end.

Declare Scope result_scope.
Delimit Scope result_scope with result.
Notation "x <- m ;; k" := (bind m (fun x => k))
  (at level 61, m at next level, right associativity) : result_scope.
Notation "' pat <- m ;; k" := (bind m (fun x => match x with pat => k end))
  (at level 61, pat pattern, m at next level, right associativity) : result_scope.
Local Open Scope result_scope.

(* ===================================================================== *)
(** * Python built-ins used by the sources                                *)
(* ===================================================================== *)

Definition bytes := list byte.

Definition Z_of_byte (b : byte) : Z := Z.of_N (Byte.to_N b).

Definition byte_of_Z (z : Z) : byte :=
  match Byte.of_N (Z.to_N (z mod 256)) with
  | Some b => b
  | None => x00
  end.

(** The [n] low-order base-256 digits of [v], least significant first. *)
Fixpoint le_digits (n : nat) (v : Z) : bytes :=
  match n with
  | O => []
  | S k => byte_of_Z (v mod 256) :: le_digits k (v / 256)
  end.

(** [v.to_bytes(length, 'big')]: raises OverflowError for a negative [v]
    and for a [v] that does not fit. *)
Definition to_bytes_big (v : Z) (length : nat) : result bytes :=
  if v <? 0 then Err OverflowError
  else if 256 ^ Z.of_nat length <=? v then Err OverflowError
  else Ok (rev (le_digits length v)).

(** [int.from_bytes(bs, 'big')]. *)
Definition from_bytes_big (bs : bytes) : Z :=
  fold_left (fun acc b => acc * 256 + Z_of_byte b) bs 0.

(** [data[lo:hi]] for non-negative bounds. *)
Definition slice {A} (l : list A) (lo hi : nat) : list A :=
  firstn (hi - lo) (skipn lo l).

(** [l[i]] for a Python int [i]: a negative index counts from the end. *)
Definition getitem {A} (l : list A) (i : Z) : result A :=
  let j := if i <? 0 then i + Z.of_nat (length l) else i in
  if j <? 0 then Err IndexError
  else match nth_error l (Z.to_nat j) with
       | Some a => Ok a
       | None => Err IndexError
       end.

(** [l.pop()]: removes and returns the LAST element. *)
Fixpoint pop {A} (l : list A) : result (A * list A) :=
  match l with
  | [] => Err IndexError
  | x :: l' =>
      match l' with
      | [] => Ok (x, [])
      | _ :: _ => '(v, r) <- pop l' ;; Ok (v, x :: r)
      end
  end.

(* ===================================================================== *)
(** * sloppyvm/spec.py                                                    *)
(* ===================================================================== *)

Definition UINT64_MAX : Z := Z.shiftl 1 64 - 1.

Definition OP_PUSH4 : byte := x01.
Definition OP_ADD : byte := x02.
Definition OP_MUL : byte := x03.
Definition OP_BYTE : byte := x04.

Inductive Instruction :=
| PUSH4 (value : Z)
| ADD
| MUL
| BYTE.

(** [PUSH4(value)] as the code calls it: the dataclass constructor followed
    by [__post_init__]. *)
Definition new_PUSH4 (value : Z) : result Instruction :=
  if (0 <=? value) && (value <=? 0xFFFFFFFF) then Ok (PUSH4 value)
  else Err (ValueError_PUSH4 value).

Definition serialize_instruction (instr : Instruction) : result bytes :=
  match instr with
  | PUSH4 val => operand <- to_bytes_big val 4 ;; Ok ([OP_PUSH4] ++ operand)
  | ADD => Ok [OP_ADD]
  | MUL => Ok [OP_MUL]
  | BYTE => Ok [OP_BYTE]
  end.

(** [b''.join(serialize_instruction(instr) for instr in instructions)]. *)
Fixpoint serialize_program (instructions : list Instruction) : result bytes :=
  match instructions with
  | [] => Ok []
  | instr :: rest =>
      chunk <- serialize_instruction instr ;;
      tail <- serialize_program rest ;;
      Ok (chunk ++ tail)
  end.

(** Offsets are the non-negative integers [deserialize_program] passes. *)
Definition deserialize_instruction (data : bytes) (offset : nat)
  : result (Instruction * nat) :=
  if (length data <=? offset)%nat then
    Err (InvalidInstruction (EmptyOrTruncated offset (length data)))
  else
    opcode <- getitem data (Z.of_nat offset) ;;
    if Byte.eqb opcode OP_PUSH4 then
      if (length data <? offset + 5)%nat then
        Err (InvalidInstruction (TruncatedPUSH4 offset (length data - offset)))
      else
        let value := from_bytes_big (slice data (offset + 1) (offset + 5)) in
        instr <- new_PUSH4 value ;; Ok (instr, (offset + 5)%nat)
    else if Byte.eqb opcode OP_ADD then Ok (ADD, (offset + 1)%nat)
    else if Byte.eqb opcode OP_MUL then Ok (MUL, (offset + 1)%nat)
    else if Byte.eqb opcode OP_BYTE then Ok (BYTE, (offset + 1)%nat)
    else Err (InvalidInstruction (UnknownOpcode opcode offset)).

(** Case analysis that remembers the equation, for the termination proof. *)
Definition inspect {A} (a : A) : {b : A | a = b} := exist _ a eq_refl.

(** The [while offset < len(data)] loop of [deserialize_program]; it
    terminates because every successful decode moves the offset forward. *)
Equations? deserialize_loop (data : bytes) (offset : nat)
  (instructions : list Instruction) : result (list Instruction)
  by wf (length data - offset)%nat lt :=
deserialize_loop data offset instructions
  with inspect (offset <? length data)%nat := {
  | exist _ false _ => Ok instructions
  | exist _ true Hlt with inspect (deserialize_instruction data offset) := {
    | exist _ (Err e) _ => Err e
    | exist _ (Ok (instr, offset')) Hdec =>
        deserialize_loop data offset' (instructions ++ [instr]) } }.
Proof.
  apply Nat.ltb_lt in Hlt.
  unfold deserialize_instruction in Hdec.
  destruct (length data <=? offset)%nat; [discriminate|].
  destruct (getitem data (Z.of_nat offset)) as [opcode|]; [|discriminate].
  cbn [bind] in Hdec.
  destruct (Byte.eqb opcode OP_PUSH4).
  - destruct (length data <? offset + 5)%nat; [discriminate|].
    destruct (new_PUSH4 _); [|discriminate].
    cbn [bind] in Hdec. injection Hdec as _ <-. lia.
  - destruct (Byte.eqb opcode OP_ADD); [injection Hdec as _ <-; lia|].
    destruct (Byte.eqb opcode OP_MUL); [injection Hdec as _ <-; lia|].
    destruct (Byte.eqb opcode OP_BYTE); [injection Hdec as _ <-; lia|].
    discriminate.
Defined.

Definition deserialize_program (data : bytes) : result (list Instruction) :=
  deserialize_loop data 0 [].

Record VMState := mkVMState { stack : list Z }.

(** [__post_init__] of [VMState]: the first out-of-range element raises. *)
Fixpoint check_stack (i : nat) (s : list Z) : result unit :=
  match s with
  | [] => Ok tt
  | val :: s' =>
      if (0 <=? val) && (val <=? UINT64_MAX) then check_stack (S i) s'
      else Err (ValueError_Stack i val)
  end.

(** [VMState(stack=...)]: the dataclass constructor and its validation. *)
Definition new_VMState (s : list Z) : result VMState :=
  _ <- check_stack 0 s ;; Ok (mkVMState s).

(** [self.stack.copy()] is a fresh list with the same elements. *)
Definition copy (self : VMState) : result VMState :=
  new_VMState (stack self).

Definition execute (state : VMState) (instruction : Instruction)
  : result VMState :=
  new_state <- copy state ;;
  let stack0 := stack new_state in
  match instruction with
  | PUSH4 val => Ok (mkVMState (stack0 ++ [val]))
  | ADD =>
      if (length stack0 <? 2)%nat then
        Err (StackUnderflow "ADD requires 2 stack elements")
      else
        '(a, stack1) <- pop stack0 ;;
        '(b, stack2) <- pop stack1 ;;
        Ok (mkVMState (stack2 ++ [Z.land (a + b) UINT64_MAX]))
  | MUL =>
      if (length stack0 <? 2)%nat then
        Err (StackUnderflow "MUL requires 2 stack elements")
      else
        '(a, stack1) <- pop stack0 ;;
        '(b, stack2) <- pop stack1 ;;
        Ok (mkVMState (stack2 ++ [Z.land (a * b) UINT64_MAX]))
  | BYTE =>
      if (length stack0 <? 2)%nat then
        Err (StackUnderflow "BYTE requires 2 stack elements")
      else
        '(i, stack1) <- pop stack0 ;;
        '(x, stack2) <- pop stack1 ;;
        if 8 <=? i then Ok (mkVMState (stack2 ++ [0]))
        else
          x_bytes <- to_bytes_big x 8 ;;
          b <- getitem x_bytes i ;;
          Ok (mkVMState (stack2 ++ [Z_of_byte b]))
  end.

(** The [for instr in instructions] loop of [execute_program]. *)
Fixpoint execute_from (state : VMState) (instructions : list Instruction)
  : result VMState :=
  match instructions with
  | [] => Ok state
  | instr :: rest => state' <- execute state instr ;; execute_from state' rest
  end.

(** [initial_stack or []]: [None] and the empty list both give []. *)
Definition execute_program (instructions : list Instruction)
  (initial_stack : option (list Z)) : result VMState :=
  state <- new_VMState (match initial_stack with
                        | Some s => s
                        | None => []
                        end) ;;
  execute_from state instructions.

Definition execute_bytecode (bytecode : bytes)
  (initial_stack : option (list Z)) : result VMState :=
  instructions <- deserialize_program bytecode ;;
  execute_program instructions initial_stack.

(* ===================================================================== *)
(** * expression.py                                                       *)
(* ===================================================================== *)

Definition UINT32_MAX : Z := 0xFFFFFFFF.

Inductive Expr :=
| Const (value : Z)
| Add (left right : Expr)
| Mul (left right : Expr)
| Byte (value index : Expr).

(** [Const(value)] as the code calls it, with [__post_init__]. *)
Definition new_Const (value : Z) : result Expr :=
  if (value <? 0) || (UINT32_MAX <? value) then Err (ValueError_Const value)
  else Ok (Const value).

Fixpoint compile_expr_to_instructions (expr : Expr)
  : result (list Instruction) :=
  match expr with
  | Const val => instr <- new_PUSH4 val ;; Ok [instr]
  | Add lhs rhs =>
      l <- compile_expr_to_instructions lhs ;;
      r <- compile_expr_to_instructions rhs ;;
      Ok ((l ++ r) ++ [ADD])
  | Mul lhs rhs =>
      l <- compile_expr_to_instructions lhs ;;
      r <- compile_expr_to_instructions rhs ;;
      Ok ((l ++ r) ++ [MUL])
  | Byte value index =>
      l <- compile_expr_to_instructions value ;;
      r <- compile_expr_to_instructions index ;;
      Ok ((l ++ r) ++ [BYTE])
  end.

Definition compile_expr (expr : Expr) : result bytes :=
  instructions <- compile_expr_to_instructions expr ;;
  serialize_program instructions.

(* ===================================================================== *)
(** * sloppyvm/fuzzing/enumeration.py                                     *)
(* ===================================================================== *)

(** A Python generator run to its end: the values it yielded, in order,
    and the exception that ended it, if one did. *)
Definition Generator (A : Type) : Type := (list A * option exn)%type.

(** The generator returns. *)
Definition gen_done {A} : Generator A := ([], None).

(** [yield m], then [k]; evaluating the yielded expression may raise. *)
Definition gen_yield {A} (m : result A) (k : Generator A) : Generator A :=
  match m with
  | Ok a => (a :: fst k, snd k)
  | Err e => ([], Some e)
  end.

(** [for x in l: body], then [k]. *)
Fixpoint gen_for {A B} (l : list A)
  (body : A -> Generator B -> Generator B) (k : Generator B) : Generator B :=
  match l with
  | [] => k
  | x :: xs => body x (gen_for xs body k)
  end.

(** [list(g)]: collects the yielded values, or re-raises. *)
Definition list_of {A} (g : Generator A) : result (list A) :=
  match snd g with
  | None => Ok (fst g)
  | Some e => Err e
  end.

Definition MINIMAL_CONSTANTS : list Z := [0; 1; 7; 8].

(** Depths are the non-negative integers [range(max_depth + 1)] gives. *)
Fixpoint enumerate_expressions (depth : nat) (constants : list Z)
  : Generator Expr :=
  match depth with
  | O => gen_for constants (fun c k => gen_yield (new_Const c) k) gen_done
  | S depth' =>
      match list_of (enumerate_expressions depth' constants) with
      | Err e => ([], Some e)
      | Ok sub_exprs =>
          gen_for sub_exprs (fun lhs k =>
            gen_for sub_exprs (fun rhs k' =>
              gen_yield (Ok (Add lhs rhs))
                (gen_yield (Ok (Mul lhs rhs))
                   (gen_yield (Ok (Byte lhs rhs)) k'))) k)
            (gen_for constants (fun c k => gen_yield (new_Const c) k)
               gen_done)
      end
  end.

Definition enumerate_stack_underflow_tests : Generator bytes :=
  gen_yield (serialize_program [ADD])
    (gen_yield (serialize_program [MUL])
       (gen_yield (serialize_program [BYTE])
          (gen_for MINIMAL_CONSTANTS (fun value k =>
             gen_yield (i <- new_PUSH4 value ;; serialize_program [i; ADD])
               (gen_yield (i <- new_PUSH4 value ;; serialize_program [i; MUL])
                  (gen_yield
                     (i <- new_PUSH4 value ;; serialize_program [i; BYTE])
                     k)))
             gen_done))).

(* ===================================================================== *)
(** * The differential oracle: fuzzer.py and sloppyvm/fuzzing/fuzzer.py   *)
(* ===================================================================== *)

Inductive ExecutionResult :=
| ExceptionThrown (reason : string)
| Crash (reason : string)
| Success (stack : list Z).

(** [==] on two lists of ints. *)
Fixpoint list_eq (l1 l2 : list Z) : bool :=
  match l1, l2 with
  | [], [] => true
  | x :: l1', y :: l2' => (x =? y) && list_eq l1' l2'
  | _, _ => false
  end.

(** The [__eq__] the dataclass decorator generates: same class, then the
    tuples of fields compared. *)
Definition ExecutionResult_eq (a b : ExecutionResult) : bool :=
  match a, b with
  | ExceptionThrown r1, ExceptionThrown r2 => String.eqb r1 r2
  | Crash r1, Crash r2 => String.eqb r1 r2
  | Success s1, Success s2 => list_eq s1 s2
  | _, _ => false
  end.

Inductive result_class := cls_ExceptionThrown | cls_Crash | cls_Success.

(** [type(r)]. *)
Definition type_of (r : ExecutionResult) : result_class :=
  match r with
  | ExceptionThrown _ => cls_ExceptionThrown
  | Crash _ => cls_Crash
  | Success _ => cls_Success
  end.

Definition class_eq (c1 c2 : result_class) : bool :=
  match c1, c2 with
  | cls_ExceptionThrown, cls_ExceptionThrown => true
  | cls_Crash, cls_Crash => true
  | cls_Success, cls_Success => true
  | _, _ => false
  end.

Definition isinstance (r : ExecutionResult) (c : result_class) : bool :=
  class_eq (type_of r) c.

(** sloppyvm/fuzzing/fuzzer.py *)
Module Fuzzing.
Definition compare_results (expected actual : ExecutionResult) : bool :=
  class_eq (type_of expected) (type_of actual)
  && (negb (isinstance expected cls_Success)
      || ExecutionResult_eq expected actual).
End Fuzzing.

(** fuzzer.py *)
Module Fuzzer.
Definition compare_results (expected actual : ExecutionResult) : bool :=
  match expected with
  | Crash _ => isinstance actual cls_Crash
  | ExceptionThrown _ => isinstance actual cls_ExceptionThrown
  | Success _ => ExecutionResult_eq expected actual
  end.
End Fuzzer.

(* ===================================================================== *)
(** * Notions used to state the properties                                *)
(* ===================================================================== *)

(** The invariant of [VMState]: every element is an unsigned 64-bit value. *)
Definition valid_stack (s : list Z) : Prop :=
  Forall (fun v => 0 <= v <= UINT64_MAX) s.

(** The byte at position [i] of the 8-byte big-endian representation of
    [x]: position 0 is the most significant byte, position 7 the least. *)
Definition big_endian_byte (x i : Z) : Z := (x / 256 ^ (7 - i)) mod 256.

(** The invariant of [PUSH4]: its operand is an unsigned 32-bit value. *)
Definition valid_instruction (instr : Instruction) : Prop :=
  match instr with
  | PUSH4 value => 0 <= value <= 0xFFFFFFFF
  | _ => True
  end.

(** What the decoding loop may report for the buffer [data]: either the
    program whose encoding is exactly [data], or an [InvalidInstruction]
    raised at an instruction boundary [off] inside the buffer, for an
    unknown opcode or for a PUSH4 whose operand is cut short. *)
Definition decode_outcome (data : bytes) (r : result (list Instruction))
  : Prop :=
  (exists P, r = Ok P /\ serialize_program P = Ok data)
  \/ (exists off P0,
        (off < length data)%nat /\
        serialize_program P0 = Ok (firstn off data) /\
        ((exists op,
             nth_error data off = Some op /\
             op <> OP_PUSH4 /\ op <> OP_ADD /\ op <> OP_MUL /\ op <> OP_BYTE /\
             r = Err (InvalidInstruction (UnknownOpcode op off)))
         \/ (nth_error data off = Some OP_PUSH4 /\
             (length data - off < 5)%nat /\
             r = Err (InvalidInstruction
                        (TruncatedPUSH4 off (length data - off)))))).

(** Two outcomes match: same kind, and equal stacks when both succeeded. *)
Definition outcomes_match (expected actual : ExecutionResult) : Prop :=
  match expected, actual with
  | Success s1, Success s2 => s1 = s2
  | ExceptionThrown _, ExceptionThrown _ => True
  | Crash _, Crash _ => True
  | _, _ => False
  end.

(** The invariant of [Const], at every leaf of an expression tree. *)
Fixpoint valid_expr (e : Expr) : Prop :=
  match e with
  | Const value => 0 <= value <= UINT32_MAX
  | Add l r | Mul l r | Byte l r => valid_expr l /\ valid_expr r
  end.

(** The value an expression denotes on the reference machine. *)
Fixpoint eval (e : Expr) : Z :=
  match e with
  | Const value => value
  | Add l r => (eval l + eval r) mod 2 ^ 64
  | Mul l r => (eval l * eval r) mod 2 ^ 64
  | Byte v i => if 8 <=? eval i then 0 else big_endian_byte (eval v) (eval i)
  end.

(** The values [Const] accepts. *)
Definition in_uint32 (c : Z) : Prop := 0 <= c <= UINT32_MAX.

(** The three operator nodes over one ordered pair of sub-expressions. *)
Definition operations_on (p : Expr * Expr) : list Expr :=
  [Add (fst p) (snd p); Mul (fst p) (snd p); Byte (fst p) (snd p)].

(** Does this buffer decode, and does the reference machine then answer
    StackUnderflow on the decoded program? *)
Definition underflows (code : bytes) : bool :=
  match deserialize_program code with
  | Ok P =>
      match execute_program P None with
      | Err (StackUnderflow _) => true
      | _ => false
      end
  | Err _ => false
  end.

(** The number of bytes one instruction takes on the wire. *)
Definition encoded_size (instr : Instruction) : nat :=
  match instr with
  | PUSH4 _ => 5%nat
  | _ => 1%nat
  end.

(** The stack depth a program reaches from a stack of [depth] elements,
    computed from the shape of the program alone; [None] when an operator
    would find fewer than two elements. *)
Fixpoint stack_depth_after (depth : nat) (P : list Instruction) : option nat :=
  match P with
  | [] => Some depth
  | PUSH4 _ :: rest => stack_depth_after (S depth) rest
  | _ :: rest =>
      if (depth <? 2)%nat then None else stack_depth_after (depth - 1) rest
  end.

(** The number of operator nodes of an expression tree. *)
Fixpoint operators (e : Expr) : nat :=
  match e with
  | Const _ => 0%nat
  | Add l r | Mul l r | Byte l r => S (operators l + operators r)
  end.

(** The text of the StackUnderflow an operator raises. *)
Definition underflow_message (op : Instruction) : string :=
  match op with
  | ADD => "ADD requires 2 stack elements"
  | MUL => "MUL requires 2 stack elements"
  | _ => "BYTE requires 2 stack elements"
  end.

(** The height of an expression tree: 0 for a leaf. *)
Fixpoint height (e : Expr) : nat :=
  match e with
  | Const _ => 0%nat
  | Add l r | Mul l r | Byte l r => S (Nat.max (height l) (height r))
  end.

(** Every leaf of the tree is one of the given constants. *)
Fixpoint leaves_in (constants : list Z) (e : Expr) : Prop :=
  match e with
  | Const value => In value constants
  | Add l r | Mul l r | Byte l r =>
      leaves_in constants l /\ leaves_in constants r
  end.


(* ===================================================================== *)
(** * sloppyvm/fuzzing/enumeration.py, the suites                         *)
(* ===================================================================== *)

Definition BOUNDARY_CONSTANTS : list Z :=
  [0; 1; 2; 7; 8; 0xFF; 0xFFFF; 0xFFFFFFFF].

(** [for x in g: body], then [k], for a generator [g]: the values [g]
    yields are consumed one by one, and an exception ending [g] ends the
    consumer after them. *)
Definition gen_iter {A B} (g : Generator A)
  (body : A -> Generator B -> Generator B) (k : Generator B) : Generator B :=
  gen_for (fst g) body
    (match snd g with
     | None => k
     | Some e => ([], Some e)
     end).

(** [range(max_depth + 1)] for a non-negative [max_depth]. *)
Definition enumerate_expression_programs (max_depth : nat)
  (constants : list Z) : Generator bytes :=
  gen_for (seq 0 (max_depth + 1)) (fun depth k =>
    gen_iter (enumerate_expressions depth constants) (fun expr k' =>
      gen_yield (compile_expr expr) k') k)
    gen_done.

Definition enumerate_byte_boundary_tests : Generator bytes :=
  let test_values := [0; 1; 0xFF; 0xFFFF; 0xFFFFFFFF; 0x123456789ABCDEF] in
  let test_indices := map Z.of_nat (seq 0 10) in
  gen_for test_values (fun value k =>
    gen_for test_indices (fun index k' =>
      gen_yield (a <- new_PUSH4 (Z.land value 0xFFFFFFFF) ;;
                 b <- new_PUSH4 index ;;
                 serialize_program [a; b; BYTE]) k') k)
    gen_done.

Definition enumerate_arithmetic_overflow_tests : Generator bytes :=
  let large_values := [0xFFFFFFFF; 0x80000000; 0x7FFFFFFF] in
  gen_for large_values (fun v1 k =>
    gen_for large_values (fun v2 k' =>
      gen_yield (a <- new_PUSH4 v1 ;; b <- new_PUSH4 v2 ;;
                 serialize_program [a; b; ADD]) k') k)
    (gen_for large_values (fun v1 k =>
       gen_for large_values (fun v2 k' =>
         gen_yield (a <- new_PUSH4 v1 ;; b <- new_PUSH4 v2 ;;
                    serialize_program [a; b; MUL]) k') k)
       gen_done).

(* ===================================================================== *)
(** * The candidate implementations: sloppy_vm_impl_v1/v3/v4.py           *)
(* ===================================================================== *)

(** The exceptions a candidate raises, with the text of their message. *)
Inductive py_exn :=
| Py_InvalidInstruction (msg : string)
| Py_StackUnderflow (msg : string)
| Py_RuntimeError (msg : string)
| Py_IndexError (msg : string)
| Py_ValueError (msg : string).

(** A call of a candidate: it returns or it raises. *)
Inductive outcome (A : Type) :=
| Returns (a : A)
| Raises (e : py_exn).
Arguments Returns {A} a.
Arguments Raises {A} e.

Definition obind {A B} (m : outcome A) (k : A -> outcome B) : outcome B :=
  match m with
  | Returns a => k a
  | Raises e => Raises e
  end.

Notation "x <~ m ;; k" := (obind m (fun x => k))
  (at level 61, m at next level, right associativity) : result_scope.
Notation "' pat <~ m ;; k" := (obind m (fun x => match x with pat => k end))
  (at level 61, pat pattern, m at next level, right associativity) : result_scope.

(** [f"{n}"] for a non-negative int. *)
Definition format_int (n : nat) : string :=
  NilZero.string_of_uint (Nat.to_uint n).

Definition hex_digit_upper (n : N) : ascii :=
  nth (N.to_nat n)
    ["0"; "1"; "2"; "3"; "4"; "5"; "6"; "7";
     "8"; "9"; "A"; "B"; "C"; "D"; "E"; "F"]%char "0"%char.

(** [f"{opcode:02X}"] for a byte. *)
Definition format_02X (b : byte) : string :=
  String (hex_digit_upper (Byte.to_N b / 16))
    (String (hex_digit_upper (Byte.to_N b mod 16)) EmptyString).

(** [bytecode[offset]] and [stack.pop()] inside a candidate. *)
Definition py_getitem (l : bytes) (offset : nat) : outcome byte :=
  match getitem l (Z.of_nat offset) with
  | Ok b => Returns b
  | Err _ => Raises (Py_IndexError "index out of range")
  end.

Definition py_pop (l : list Z) : outcome (Z * list Z) :=
  match pop l with
  | Ok p => Returns p
  | Err _ => Raises (Py_IndexError "pop from empty list")
  end.

(** [x >> n]: a negative shift count is a ValueError. *)
Definition py_rshift (x n : Z) : outcome Z :=
  if n <? 0 then Raises (Py_ValueError "negative shift count")
  else Returns (Z.shiftr x n).

(** [int.from_bytes(bs, 'little')]. *)
Definition from_bytes_little (bs : bytes) : Z :=
  fold_right (fun b acc => acc * 256 + Z_of_byte b) 0 bs.

Definition truncated_message (bytecode : bytes) (offset : nat) : string :=
  ("Truncated PUSH4 at offset " ++ format_int offset
   ++ ": need 5 bytes, have " ++ format_int (length bytecode - offset))%string.

Definition unknown_message (opcode : byte) (offset : nat) : string :=
  ("Unknown opcode: 0x" ++ format_02X opcode
   ++ " at offset " ++ format_int offset)%string.

Module v1.

(** The body of the [while] loop: the new stack and the new offset. *)
Definition step (bytecode : bytes) (offset : nat) (stack0 : list Z)
  : outcome (list Z * nat) :=
  opcode <~ py_getitem bytecode offset ;;
  if Byte.eqb opcode OP_PUSH4 then
    let value :=
      from_bytes_little (slice bytecode (offset + 1) (offset + 5)) in
    Returns (stack0 ++ [value], (offset + 5)%nat)
  else if Byte.eqb opcode OP_ADD then
    '(a, stack1) <~ py_pop stack0 ;;
    '(b, stack2) <~ py_pop stack1 ;;
    Returns (stack2 ++ [a + b], (offset + 1)%nat)
  else if Byte.eqb opcode OP_MUL then
    '(a, stack1) <~ py_pop stack0 ;;
    '(b, stack2) <~ py_pop stack1 ;;
    Returns (stack2 ++ [a * b], (offset + 1)%nat)
  else if Byte.eqb opcode OP_BYTE then
    '(x, stack1) <~ py_pop stack0 ;;
    '(i, stack2) <~ py_pop stack1 ;;
    if 8 <=? i then Returns (stack2 ++ [0], (offset + 1)%nat)
    else
      let shift := i * 8 in
      shifted <~ py_rshift x shift ;;
      let result := Z.land shifted 0xFF in
      Returns (stack2 ++ [result], (offset + 1)%nat)
  else
    Raises (Py_RuntimeError ("Unknown opcode: 0x" ++ format_02X opcode)%string).

Equations? loop (bytecode : bytes) (offset : nat) (stack0 : list Z)
  : outcome (list Z) by wf (length bytecode - offset)%nat lt :=
loop bytecode offset stack0
  with inspect (offset <? length bytecode)%nat := {
  | exist _ false _ => Returns stack0
  | exist _ true Hlt with inspect (step bytecode offset stack0) := {
    | exist _ (Raises e) _ => Raises e
    | exist _ (Returns (stack', offset')) Hstep =>
        loop bytecode offset' stack' } }.
Proof.
  apply Nat.ltb_lt in Hlt. revert Hstep. unfold step.
  destruct (py_getitem bytecode offset) as [opcode|];
    cbn [obind]; [|discriminate].
  repeat match goal with
         | |- context [if ?c then _ else _] => destruct c
         | |- context [py_pop ?l] =>
             destruct (py_pop l) as [[? ?]|]; cbn [obind]
         | |- context [py_rshift ?x ?n] =>
             destruct (py_rshift x n); cbn [obind]
         end;
    try discriminate; intros H; injection H as _ <-; lia.
Defined.

Definition execute (bytecode : bytes) : outcome (list Z) :=
  loop bytecode 0 [].

End v1.

Module v3.

(** The body of the [while] loop: the new stack and the new offset. *)
Definition step (bytecode : bytes) (offset : nat) (stack0 : list Z)
  : outcome (list Z * nat) :=
  opcode <~ py_getitem bytecode offset ;;
  if Byte.eqb opcode OP_PUSH4 then
    if (length bytecode <? offset + 5)%nat then
      Raises (Py_InvalidInstruction (truncated_message bytecode offset))
    else
      let value := from_bytes_big (slice bytecode (offset + 1) (offset + 5)) in
      Returns (stack0 ++ [value], (offset + 5)%nat)
  else if Byte.eqb opcode OP_ADD then
    if (length stack0 <? 2)%nat then
      Raises (Py_StackUnderflow "ADD requires 2 stack elements")
    else
      '(b, stack1) <~ py_pop stack0 ;;
      '(a, stack2) <~ py_pop stack1 ;;
      Returns (stack2 ++ [Z.land (a + b) UINT64_MAX], (offset + 1)%nat)
  else if Byte.eqb opcode OP_MUL then
    if (length stack0 <? 2)%nat then
      Raises (Py_StackUnderflow "MUL requires 2 stack elements")
    else
      '(b, stack1) <~ py_pop stack0 ;;
      '(a, stack2) <~ py_pop stack1 ;;
      Returns (stack2 ++ [Z.land (a * b) UINT64_MAX], (offset + 1)%nat)
  else if Byte.eqb opcode OP_BYTE then
    if (length stack0 <? 2)%nat then
      Raises (Py_StackUnderflow "BYTE requires 2 stack elements")
    else
      '(i, stack1) <~ py_pop stack0 ;;
      '(x, stack2) <~ py_pop stack1 ;;
      if 7 <=? i then Returns (stack2 ++ [0], (offset + 1)%nat)
      else
        let shift := (7 - i) * 8 in
        shifted <~ py_rshift x shift ;;
        let result := Z.land shifted 0xFF in
        Returns (stack2 ++ [result], (offset + 1)%nat)
  else Raises (Py_InvalidInstruction (unknown_message opcode offset)).

Equations? loop (bytecode : bytes) (offset : nat) (stack0 : list Z)
  : outcome (list Z) by wf (length bytecode - offset)%nat lt :=
loop bytecode offset stack0
  with inspect (offset <? length bytecode)%nat := {
  | exist _ false _ => Returns stack0
  | exist _ true Hlt with inspect (step bytecode offset stack0) := {
    | exist _ (Raises e) _ => Raises e
    | exist _ (Returns (stack', offset')) Hstep =>
        loop bytecode offset' stack' } }.
Proof.
  apply Nat.ltb_lt in Hlt. revert Hstep. unfold step.
  destruct (py_getitem bytecode offset) as [opcode|];
    cbn [obind]; [|discriminate].
  repeat match goal with
         | |- context [if ?c then _ else _] => destruct c
         | |- context [py_pop ?l] =>
             destruct (py_pop l) as [[? ?]|]; cbn [obind]
         | |- context [py_rshift ?x ?n] =>
             destruct (py_rshift x n); cbn [obind]
         end;
    try discriminate; intros H; injection H as _ <-; lia.
Defined.

Definition execute (bytecode : bytes) : outcome (list Z) :=
  loop bytecode 0 [].

End v3.

Module v4.

(** The body of the [while] loop: the new stack and the new offset. *)
Definition step (bytecode : bytes) (offset : nat) (stack0 : list Z)
  : outcome (list Z * nat) :=
  opcode <~ py_getitem bytecode offset ;;
  if Byte.eqb opcode OP_PUSH4 then
    if (length bytecode <? offset + 5)%nat then
      Raises (Py_InvalidInstruction (truncated_message bytecode offset))
    else
      let value := from_bytes_big (slice bytecode (offset + 1) (offset + 5)) in
      Returns (stack0 ++ [value], (offset + 5)%nat)
  else if Byte.eqb opcode OP_ADD then
    if (length stack0 <? 2)%nat then
      Raises (Py_StackUnderflow "ADD requires 2 stack elements")
    else
      '(a, stack1) <~ py_pop stack0 ;;
      '(b, stack2) <~ py_pop stack1 ;;
      Returns (stack2 ++ [Z.land (a + b) UINT64_MAX], (offset + 1)%nat)
  else if Byte.eqb opcode OP_MUL then
    if (length stack0 <? 2)%nat then
      Raises (Py_StackUnderflow "MUL requires 2 stack elements")
    else
      '(a, stack1) <~ py_pop stack0 ;;
      '(b, stack2) <~ py_pop stack1 ;;
      Returns (stack2 ++ [Z.land (a * b) UINT64_MAX], (offset + 1)%nat)
  else if Byte.eqb opcode OP_BYTE then
    if (length stack0 <? 2)%nat then
      Raises (Py_StackUnderflow "BYTE requires 2 stack elements")
    else
      '(i, stack1) <~ py_pop stack0 ;;
      '(x, stack2) <~ py_pop stack1 ;;
      if 8 <=? i then Returns (stack2 ++ [0], (offset + 1)%nat)
      else
        let shift := (7 - i) * 8 in
        shifted <~ py_rshift x shift ;;
        let result := Z.land shifted 0xFF in
        Returns (stack2 ++ [result], (offset + 1)%nat)
  else Raises (Py_InvalidInstruction (unknown_message opcode offset)).

Equations? loop (bytecode : bytes) (offset : nat) (stack0 : list Z)
  : outcome (list Z) by wf (length bytecode - offset)%nat lt :=
loop bytecode offset stack0
  with inspect (offset <? length bytecode)%nat := {
  | exist _ false _ => Returns stack0
  | exist _ true Hlt with inspect (step bytecode offset stack0) := {
    | exist _ (Raises e) _ => Raises e
    | exist _ (Returns (stack', offset')) Hstep =>
        loop bytecode offset' stack' } }.
Proof.
  apply Nat.ltb_lt in Hlt. revert Hstep. unfold step.
  destruct (py_getitem bytecode offset) as [opcode|];
    cbn [obind]; [|discriminate].
  repeat match goal with
         | |- context [if ?c then _ else _] => destruct c
         | |- context [py_pop ?l] =>
             destruct (py_pop l) as [[? ?]|]; cbn [obind]
         | |- context [py_rshift ?x ?n] =>
             destruct (py_rshift x n); cbn [obind]
         end;
    try discriminate; intros H; injection H as _ <-; lia.
Defined.

Definition execute (bytecode : bytes) : outcome (list Z) :=
  loop bytecode 0 [].

End v4.

(* ===================================================================== *)
(** * The oracle: running the reference and a candidate                   *)
(* ===================================================================== *)

(** The candidates import InvalidInstruction and StackUnderflow from the
    reference module: these two are the SloppyVMException a harness
    recognizes. *)
Definition is_SloppyVMException (e : py_exn) : bool :=
  match e with
  | Py_InvalidInstruction _ | Py_StackUnderflow _ => true
  | _ => false
  end.

(** [repr(e)] of an exception built from one message string. *)
Definition repr (e : py_exn) : string :=
  match e with
  | Py_InvalidInstruction msg => "InvalidInstruction('" ++ msg ++ "')"
  | Py_StackUnderflow msg => "StackUnderflow('" ++ msg ++ "')"
  | Py_RuntimeError msg => "RuntimeError('" ++ msg ++ "')"
  | Py_IndexError msg => "IndexError('" ++ msg ++ "')"
  | Py_ValueError msg => "ValueError('" ++ msg ++ "')"
  end%string.

(** Only the two SloppyVM exceptions of the reference are caught; any
    other exception leaves [execute_with_spec]. *)
Definition execute_with_spec (bytecode : bytes) : result ExecutionResult :=
  match (instructions <- deserialize_program bytecode ;;
         result0 <- execute_program instructions None ;;
         Ok (Success (stack result0))) with
  | Ok r => Ok r
  | Err (InvalidInstruction _) => Ok (ExceptionThrown "invalid bytecode")
  | Err (StackUnderflow msg) =>
      Ok (ExceptionThrown ("StackUnderflow('" ++ msg ++ "')")%string)
  | Err e => Err e
  end.

Definition execute_with_implementation (bytecode : bytes)
  (impl_func : bytes -> outcome (list Z)) : ExecutionResult :=
  match impl_func bytecode with
  | Returns result0 => Success result0
  | Raises e =>
      if is_SloppyVMException e then ExceptionThrown (repr e)
      else Crash ("implementation raised exception: " ++ repr e)%string
  end.

(** sloppyvm/fuzzing/fuzzer.py: statistics and the test loop. *)
Record FuzzingStatistics := mkFuzzingStatistics {
  total_tests : Z;
  bugs_found : Z;
  crashes : Z;
  invalid_bytecodes : Z
}.


Definition correct_tests (self : FuzzingStatistics) : Z :=
  total_tests self - bugs_found self.

Definition record_test (self : FuzzingStatistics)
  (spec_result impl_result : ExecutionResult) (results_match : bool)
  : FuzzingStatistics :=
  let total := total_tests self + 1 in
  let invalid :=
    match spec_result with
    | ExceptionThrown reason =>
        if String.eqb reason "invalid bytecode"
        then invalid_bytecodes self + 1 else invalid_bytecodes self
    | _ => invalid_bytecodes self
    end in
  let crashed :=
    if isinstance impl_result cls_Crash then crashes self + 1
    else crashes self in
  let bugs :=
    if negb results_match then bugs_found self + 1 else bugs_found self in
  mkFuzzingStatistics total bugs crashed invalid.

Definition run_single_test (bytecode : bytes)
  (spec_func : bytes -> result ExecutionResult)
  (impl_func : bytes -> outcome (list Z))
  : result (ExecutionResult * ExecutionResult * bool) :=
  spec_result <- spec_func bytecode ;;
  let impl_result := execute_with_implementation bytecode impl_func in
  let matches := Fuzzing.compare_results spec_result impl_result in
  Ok (spec_result, impl_result, matches).

(** The test loop of [run_fuzzer], over the buffers the generator returned
    call after call. *)
Fixpoint run_tests (impl_func : bytes -> outcome (list Z))
  (bytecodes : list bytes) (stats : FuzzingStatistics)
  : result FuzzingStatistics :=
  match bytecodes with
  | [] => Ok stats
  | bytecode :: rest =>
      '(spec_result, impl_result, matches) <-
        run_single_test bytecode execute_with_spec impl_func ;;
      run_tests impl_func rest
        (record_test stats spec_result impl_result matches)
  end.

(** Does the buffer decode? *)
Definition decodes (code : bytes) : bool :=
  match deserialize_program code with
  | Ok _ => true
  | Err _ => false
  end.

(** The statistics of a fresh session. *)
Definition no_tests : FuzzingStatistics := mkFuzzingStatistics 0 0 0 0.

(* ===================================================================== *)
(** * sloppyvm/fuzzing/enumeration.py, the comprehensive suite            *)
(* ===================================================================== *)

Definition hex_digit_lower (n : nat) : ascii :=
  nth n
    ["0"; "1"; "2"; "3"; "4"; "5"; "6"; "7";
     "8"; "9"; "a"; "b"; "c"; "d"; "e"; "f"]%char "0"%char.

(** [bytecode.hex()]: two lowercase hexadecimal digits per byte. *)
Fixpoint hex (bs : bytes) : string :=
  match bs with
  | [] => EmptyString
  | b :: rest =>
      String (hex_digit_lower (Byte.to_nat b / 16))
        (String (hex_digit_lower (Byte.to_nat b mod 16)) (hex rest))
  end.

(** One deduplicating loop of [generate_comprehensive_suite] over the
    values a source yielded, then [k] with the set [seen] as the loop left
    it.  The set of strings is kept as a list: it is only tested for
    membership and added to. *)
Fixpoint yield_unseen (items : list bytes) (seen : list string)
  (k : list string -> Generator bytes) : Generator bytes :=
  match items with
  | [] => k seen
  | bytecode :: rest =>
      let hex_code := hex bytecode in
      if existsb (String.eqb hex_code) seen then yield_unseen rest seen k
      else gen_yield (Ok bytecode) (yield_unseen rest (hex_code :: seen) k)
  end.

(** The same loop over a generator: an exception ending the source ends
    the suite after the values it yielded. *)
Definition yield_unseen_from (g : Generator bytes) (seen : list string)
  (k : list string -> Generator bytes) : Generator bytes :=
  yield_unseen (fst g) seen
    (fun seen' =>
       match snd g with
       | None => k seen'
       | Some e => ([], Some e)
       end).

Definition generate_comprehensive_suite (max_expr_depth : nat)
  : Generator bytes :=
  yield_unseen_from
    (enumerate_expression_programs max_expr_depth BOUNDARY_CONSTANTS) []
    (fun seen1 =>
       yield_unseen_from enumerate_byte_boundary_tests seen1
         (fun seen2 =>
            yield_unseen_from enumerate_arithmetic_overflow_tests seen2
              (fun seen3 =>
                 yield_unseen_from enumerate_stack_underflow_tests seen3
                   (fun _ => gen_done)))).

(* ===================================================================== *)
(** * sloppyvm/implementations/v2.py                                      *)
(* ===================================================================== *)

Module v2.

(** The body of the [while] loop: the new stack and the new offset. *)
Definition step (bytecode : bytes) (offset : nat) (stack0 : list Z)
  : outcome (list Z * nat) :=
  opcode <~ py_getitem bytecode offset ;;
  if Byte.eqb opcode OP_PUSH4 then
    if (length bytecode <? offset + 5)%nat then
      Raises (Py_InvalidInstruction (truncated_message bytecode offset))
    else
      let value := from_bytes_big (slice bytecode (offset + 1) (offset + 5)) in
      Returns (stack0 ++ [value], (offset + 5)%nat)
  else if Byte.eqb opcode OP_ADD then
    if (length stack0 <? 2)%nat then
      Raises (Py_StackUnderflow "ADD requires 2 stack elements")
    else
      '(a, stack1) <~ py_pop stack0 ;;
      '(b, stack2) <~ py_pop stack1 ;;
      Returns (stack2 ++ [a + b], (offset + 1)%nat)
  else if Byte.eqb opcode OP_MUL then
    if (length stack0 <? 2)%nat then
      Raises (Py_StackUnderflow "MUL requires 2 stack elements")
    else
      '(a, stack1) <~ py_pop stack0 ;;
      '(b, stack2) <~ py_pop stack1 ;;
      Returns (stack2 ++ [a * b], (offset + 1)%nat)
  else if Byte.eqb opcode OP_BYTE then
    if (length stack0 <? 2)%nat then
      Raises (Py_StackUnderflow "BYTE requires 2 stack elements")
    else
      '(x, stack1) <~ py_pop stack0 ;;
      '(i, stack2) <~ py_pop stack1 ;;
      if 7 <=? i then Returns (stack2 ++ [0], (offset + 1)%nat)
      else
        let shift := i * 8 in
        shifted <~ py_rshift x shift ;;
        let result := Z.land shifted 0xFF in
        Returns (stack2 ++ [result], (offset + 1)%nat)
  else Raises (Py_InvalidInstruction (unknown_message opcode offset)).

Equations? loop (bytecode : bytes) (offset : nat) (stack0 : list Z)
  : outcome (list Z) by wf (length bytecode - offset)%nat lt :=
loop bytecode offset stack0
  with inspect (offset <? length bytecode)%nat := {
  | exist _ false _ => Returns stack0
  | exist _ true Hlt with inspect (step bytecode offset stack0) := {
    | exist _ (Raises e) _ => Raises e
    | exist _ (Returns (stack', offset')) Hstep =>
        loop bytecode offset' stack' } }.
Proof.
  apply Nat.ltb_lt in Hlt. revert Hstep. unfold step.
  destruct (py_getitem bytecode offset) as [opcode|];
    cbn [obind]; [|discriminate].
  repeat match goal with
         | |- context [if ?c then _ else _] => destruct c
         | |- context [py_pop ?l] =>
             destruct (py_pop l) as [[? ?]|]; cbn [obind]
         | |- context [py_rshift ?x ?n] =>
             destruct (py_rshift x n); cbn [obind]
         end;
    try discriminate; intros H; injection H as _ <-; lia.
Defined.

Definition execute (bytecode : bytes) : outcome (list Z) :=
  loop bytecode 0 [].

End v2.

(* ===================================================================== *)
(** * Facts about the built-ins                                           *)
(* ===================================================================== *)

Lemma Z_of_byte_range (b : byte) : 0 <= Z_of_byte b < 256.
Proof.
  unfold Z_of_byte. pose proof (Byte.to_N_bounded b). lia.
Qed.

Lemma byte_of_Z_of_byte (b : byte) : byte_of_Z (Z_of_byte b) = b.
Proof.
  unfold byte_of_Z. pose proof (Z_of_byte_range b) as Hb.
  rewrite Z.mod_small by exact Hb.
  unfold Z_of_byte. rewrite N2Z.id, Byte.of_to_N. reflexivity.
Qed.

Lemma Z_of_byte_of_Z (z : Z) : Z_of_byte (byte_of_Z z) = z mod 256.
Proof.
  unfold byte_of_Z, Z_of_byte.
  pose proof (Z.mod_pos_bound z 256 ltac:(lia)) as Hm.
  destruct (Byte.of_N (Z.to_N (z mod 256))) as [b|] eqn:Hb.
  - apply Byte.to_of_N in Hb. rewrite Hb. lia.
  - apply Byte.of_N_None_iff in Hb. lia.
Qed.

Lemma UINT64_MAX_ones : UINT64_MAX = Z.ones 64.
Proof. reflexivity. Qed.

Lemma land_UINT64_MAX (v : Z) : Z.land v UINT64_MAX = v mod 2 ^ 64.
Proof. rewrite UINT64_MAX_ones. apply Z.land_ones. lia. Qed.

Lemma pop_snoc {A} (l : list A) (v : A) : pop (l ++ [v]) = Ok (v, l).
Proof.
  induction l as [|x l IH]; [reflexivity|].
  cbn [app pop]. destruct (l ++ [v]) eqn:E.
  - destruct l; discriminate.
  - rewrite IH. reflexivity.
Qed.

Lemma two_on_top {A} (s : list A) :
  (2 <= length s)%nat -> exists rest a b, s = rest ++ [a; b].
Proof.
  intros Hlen.
  destruct (exists_last (l := s)) as (s1 & b & ->).
  { intros ->. cbn in Hlen. lia. }
  rewrite length_app in Hlen. cbn in Hlen.
  destruct (exists_last (l := s1)) as (rest & a & ->).
  { intros ->. cbn in Hlen. lia. }
  exists rest, a, b. rewrite <- app_assoc. reflexivity.
Qed.

Lemma check_stack_valid (s : list Z) (i : nat) :
  valid_stack s -> check_stack i s = Ok tt.
Proof.
  intros H. revert i. induction H as [|v s Hv _ IH]; intros i; cbn [check_stack].
  - reflexivity.
  - replace ((0 <=? v) && (v <=? UINT64_MAX)) with true by (symmetry; apply andb_true_iff; split; lia).
    apply IH.
Qed.

Lemma copy_valid (state : VMState) :
  valid_stack (stack state) -> copy state = Ok (mkVMState (stack state)).
Proof.
  intros H. unfold copy, new_VMState. rewrite (check_stack_valid _ _ H).
  reflexivity.
Qed.

Lemma execute_PUSH4_valid (state : VMState) (val : Z) :
  valid_stack (stack state) ->
  execute state (PUSH4 val) = Ok (mkVMState (stack state ++ [val])).
Proof.
  intros H. unfold execute. rewrite (copy_valid _ H). reflexivity.
Qed.

Lemma execute_ADD_valid (rest : list Z) (a b : Z) :
  valid_stack (rest ++ [a; b]) ->
  execute (mkVMState (rest ++ [a; b])) ADD
  = Ok (mkVMState (rest ++ [(a + b) mod 2 ^ 64])).
Proof.
  intros H. unfold execute. rewrite (copy_valid (mkVMState _) H). cbn [bind stack].
  replace (length (rest ++ [a; b]) <? 2)%nat with false
    by (symmetry; apply Nat.ltb_ge; rewrite length_app; cbn; lia).
  replace (rest ++ [a; b]) with ((rest ++ [a]) ++ [b])
    by (rewrite <- app_assoc; reflexivity).
  rewrite pop_snoc. cbn [bind]. rewrite pop_snoc. cbn [bind].
  rewrite land_UINT64_MAX, (Z.add_comm b a). reflexivity.
Qed.

Lemma execute_MUL_valid (rest : list Z) (a b : Z) :
  valid_stack (rest ++ [a; b]) ->
  execute (mkVMState (rest ++ [a; b])) MUL
  = Ok (mkVMState (rest ++ [(a * b) mod 2 ^ 64])).
Proof.
  intros H. unfold execute. rewrite (copy_valid (mkVMState _) H). cbn [bind stack].
  replace (length (rest ++ [a; b]) <? 2)%nat with false
    by (symmetry; apply Nat.ltb_ge; rewrite length_app; cbn; lia).
  replace (rest ++ [a; b]) with ((rest ++ [a]) ++ [b])
    by (rewrite <- app_assoc; reflexivity).
  rewrite pop_snoc. cbn [bind]. rewrite pop_snoc. cbn [bind].
  rewrite land_UINT64_MAX, (Z.mul_comm b a). reflexivity.
Qed.

Lemma execute_underflow (state : VMState) (instruction : Instruction) :
  valid_stack (stack state) ->
  (length (stack state) < 2)%nat ->
  execute state instruction =
  match instruction with
  | PUSH4 val => Ok (mkVMState (stack state ++ [val]))
  | ADD => Err (StackUnderflow "ADD requires 2 stack elements")
  | MUL => Err (StackUnderflow "MUL requires 2 stack elements")
  | BYTE => Err (StackUnderflow "BYTE requires 2 stack elements")
  end.
Proof.
  intros H Hlen. unfold execute. rewrite (copy_valid _ H). cbn [bind stack].
  apply Nat.ltb_lt in Hlen. rewrite Hlen. destruct instruction; reflexivity.
Qed.

(** C1. On every machine state of depth at least 2, ADD replaces the top
    element b and the element a below it by (a + b) mod 2^64 and MUL by
    (a * b) mod 2^64, both results lying in [0, 2^64 - 1]; on every state
    of depth below 2 both fail with StackUnderflow.  In particular ADD on
    (2^64 - 1, 2) gives 1 and MUL on (2^64 - 1, 2) gives 2^64 - 2. *)
Theorem execute_ADD_MUL_wraps :
  (forall state : VMState,
      valid_stack (stack state) ->
      ((2 <= length (stack state))%nat ->
       exists rest a b,
         stack state = rest ++ [a; b] /\
         execute state ADD = Ok (mkVMState (rest ++ [(a + b) mod 2 ^ 64])) /\
         execute state MUL = Ok (mkVMState (rest ++ [(a * b) mod 2 ^ 64])) /\
         0 <= (a + b) mod 2 ^ 64 <= 2 ^ 64 - 1 /\
         0 <= (a * b) mod 2 ^ 64 <= 2 ^ 64 - 1) /\
      ((length (stack state) < 2)%nat ->
       execute state ADD = Err (StackUnderflow "ADD requires 2 stack elements") /\
       execute state MUL = Err (StackUnderflow "MUL requires 2 stack elements")))
  /\ execute (mkVMState [2 ^ 64 - 1; 2]) ADD = Ok (mkVMState [1])
  /\ execute (mkVMState [2 ^ 64 - 1; 2]) MUL = Ok (mkVMState [2 ^ 64 - 2]).
Proof.
  split; [|split; reflexivity].
  intros [s] Hv. cbn [stack] in *. split.
  - intros Hlen. destruct (two_on_top s Hlen) as (rest & a & b & ->).
    exists rest, a, b. split; [reflexivity|].
    rewrite (execute_ADD_valid _ _ _ Hv), (execute_MUL_valid _ _ _ Hv).
    pose proof (Z.mod_pos_bound (a + b) (2 ^ 64) ltac:(lia)).
    pose proof (Z.mod_pos_bound (a * b) (2 ^ 64) ltac:(lia)).
    repeat split; lia.
  - intros Hlen.
    rewrite !(execute_underflow (mkVMState s)) by assumption. split; reflexivity.
Qed.

Lemma execute_ADD_MUL_wraps_witness :
  valid_stack [3; 4] /\
  exists rest a b,
    [3; 4] = rest ++ [a; b] /\
    execute (mkVMState [3; 4]) ADD = Ok (mkVMState (rest ++ [(a + b) mod 2 ^ 64])) /\
    execute (mkVMState [3; 4]) MUL = Ok (mkVMState (rest ++ [(a * b) mod 2 ^ 64])) /\
    0 <= (a + b) mod 2 ^ 64 <= 2 ^ 64 - 1 /\
    0 <= (a * b) mod 2 ^ 64 <= 2 ^ 64 - 1.
Proof.
  assert (Hv : valid_stack [3; 4]).
  { repeat constructor; vm_compute; discriminate. }
  split; [exact Hv|].
  apply (proj1 (proj1 execute_ADD_MUL_wraps (mkVMState [3; 4]) Hv)).
  cbn. lia.
Defined.

Lemma le_digits_length (n : nat) (v : Z) : length (le_digits n v) = n.
Proof.
  revert v. induction n as [|n IH]; intros v; cbn [le_digits length].
  - reflexivity.
  - rewrite IH. reflexivity.
Qed.

Lemma byte_of_Z_mod (z : Z) : byte_of_Z (z mod 256) = byte_of_Z z.
Proof. unfold byte_of_Z. rewrite Z.mod_mod by lia. reflexivity. Qed.

Lemma le_digits_nth (n : nat) (v : Z) (k : nat) :
  (k < n)%nat ->
  nth_error (le_digits n v) k = Some (byte_of_Z (v / 256 ^ Z.of_nat k)).
Proof.
  revert v k. induction n as [|n IH]; intros v k Hk; [lia|].
  cbn [le_digits]. destruct k as [|k]; cbn [nth_error].
  - rewrite byte_of_Z_mod. change (256 ^ Z.of_nat 0) with 1.
    rewrite Z.div_1_r. reflexivity.
  - rewrite IH by lia. rewrite Z.div_div by lia.
    rewrite Nat2Z.inj_succ, Z.pow_succ_r by lia. reflexivity.
Qed.

Lemma to_bytes_big_fits (v : Z) (n : nat) :
  0 <= v < 256 ^ Z.of_nat n -> to_bytes_big v n = Ok (rev (le_digits n v)).
Proof.
  intros H. unfold to_bytes_big.
  replace (v <? 0) with false by (symmetry; apply Z.ltb_ge; lia).
  replace (256 ^ Z.of_nat n <=? v) with false by (symmetry; apply Z.leb_gt; lia).
  reflexivity.
Qed.

(** The value of a digit list read least significant digit first. *)
Lemma from_bytes_big_rev (l : bytes) :
  from_bytes_big (rev l)
  = fold_right (fun b acc => acc * 256 + Z_of_byte b) 0 l.
Proof.
  unfold from_bytes_big.
  rewrite <- (rev_involutive l) at 2. rewrite fold_left_rev_right.
  reflexivity.
Qed.

Lemma from_bytes_big_le_digits (n : nat) (v : Z) :
  from_bytes_big (rev (le_digits n v)) = v mod 256 ^ Z.of_nat n.
Proof.
  rewrite from_bytes_big_rev. revert v.
  induction n as [|n IH]; intros v.
  - cbn. rewrite Z.mod_1_r. reflexivity.
  - cbn [le_digits fold_right]. rewrite IH, byte_of_Z_mod, Z_of_byte_of_Z.
    rewrite Nat2Z.inj_succ, Z.pow_succ_r by lia.
    rewrite (Z.rem_mul_r v 256 (256 ^ Z.of_nat n)) by lia. lia.
Qed.

Lemma getitem_nonneg {A} (l : list A) (i : Z) (a : A) :
  0 <= i -> nth_error l (Z.to_nat i) = Some a -> getitem l i = Ok a.
Proof.
  intros Hi Hn. unfold getitem.
  assert (E : (i <? 0) = false) by (apply Z.ltb_ge; lia).
  rewrite E. cbv zeta. rewrite E, Hn. reflexivity.
Qed.

Lemma UINT64_MAX_val : UINT64_MAX = 256 ^ 8 - 1.
Proof. reflexivity. Qed.

Lemma big_endian_byte_read (x i : Z) :
  0 <= x <= UINT64_MAX -> 0 <= i < 8 ->
  exists bs,
    to_bytes_big x 8 = Ok bs /\ length bs = 8%nat /\ from_bytes_big bs = x /\
    getitem bs i = Ok (byte_of_Z (big_endian_byte x i)) /\
    Z_of_byte (byte_of_Z (big_endian_byte x i)) = big_endian_byte x i.
Proof.
  intros Hx Hi. rewrite UINT64_MAX_val in Hx.
  exists (rev (le_digits 8 x)). split; [|split; [|split; [|split]]].
  - apply to_bytes_big_fits. change (Z.of_nat 8) with 8. lia.
  - rewrite length_rev. apply le_digits_length.
  - rewrite from_bytes_big_le_digits. change (Z.of_nat 8) with 8.
    apply Z.mod_small. lia.
  - apply getitem_nonneg; [lia|].
    rewrite nth_error_rev, le_digits_length.
    replace (Z.to_nat i <? 8)%nat with true by (symmetry; apply Nat.ltb_lt; lia).
    rewrite le_digits_nth by lia. unfold big_endian_byte.
    rewrite byte_of_Z_mod.
    replace (Z.of_nat (8 - S (Z.to_nat i))) with (7 - i) by lia.
    reflexivity.
  - rewrite Z_of_byte_of_Z. unfold big_endian_byte. apply Z.mod_mod. lia.
Qed.

Lemma execute_BYTE_valid (rest : list Z) (x i : Z) :
  valid_stack (rest ++ [x; i]) ->
  execute (mkVMState (rest ++ [x; i])) BYTE
  = Ok (mkVMState (rest ++ [if 8 <=? i then 0 else big_endian_byte x i])).
Proof.
  intros H. unfold execute. rewrite (copy_valid (mkVMState _) H).
  cbn [bind stack].
  replace (length (rest ++ [x; i]) <? 2)%nat with false
    by (symmetry; apply Nat.ltb_ge; rewrite length_app; cbn; lia).
  assert (Hxi : 0 <= x <= UINT64_MAX /\ 0 <= i <= UINT64_MAX).
  { unfold valid_stack in H. rewrite Forall_app in H. destruct H as [_ H].
    inversion H as [|? ? Hx H']; subst. inversion H' as [|? ? Hi' _]; subst.
    split; assumption. }
  destruct Hxi as [Hx Hi].
  replace (rest ++ [x; i]) with ((rest ++ [x]) ++ [i])
    by (rewrite <- app_assoc; reflexivity).
  rewrite pop_snoc. cbn [bind]. rewrite pop_snoc. cbn [bind].
  destruct (8 <=? i) eqn:E; [reflexivity|].
  apply Z.leb_gt in E.
  destruct (big_endian_byte_read x i Hx ltac:(lia))
    as (bs & E1 & _ & _ & E2 & E3).
  rewrite E1. cbn [bind]. rewrite E2. cbn [bind]. rewrite E3. reflexivity.
Qed.

(** C2. On every machine state of depth at least 2, BYTE replaces the top
    element i and the element x below it by 0 when i >= 8 and otherwise by
    the byte at position i of the 8-byte big-endian representation of x
    (position 0 the most significant byte, position 7 the least), a value
    in [0, 255]; on every state of depth below 2 it fails with
    StackUnderflow.  On [0x12345678, 7] it gives [0x78] and on
    [0x12345678, 4] it gives [0x12]. *)
Theorem execute_BYTE_extracts :
  (forall state : VMState,
      valid_stack (stack state) ->
      ((2 <= length (stack state))%nat ->
       exists rest x i,
         stack state = rest ++ [x; i] /\
         execute state BYTE
         = Ok (mkVMState (rest ++ [if 8 <=? i then 0 else big_endian_byte x i])) /\
         0 <= big_endian_byte x i <= 255 /\
         (i < 8 ->
          exists bs,
            to_bytes_big x 8 = Ok bs /\ length bs = 8%nat /\
            from_bytes_big bs = x /\
            getitem bs i = Ok (byte_of_Z (big_endian_byte x i)))) /\
      ((length (stack state) < 2)%nat ->
       execute state BYTE = Err (StackUnderflow "BYTE requires 2 stack elements")))
  /\ (forall x, 0 <= x <= UINT64_MAX ->
        big_endian_byte x 0 = x / 2 ^ 56 /\ big_endian_byte x 7 = x mod 256)
  /\ execute (mkVMState [0x12345678; 7]) BYTE = Ok (mkVMState [0x78])
  /\ execute (mkVMState [0x12345678; 4]) BYTE = Ok (mkVMState [0x12]).
Proof.
  split; [|split; [|split; reflexivity]].
  - intros [s] Hv. cbn [stack] in *. split.
    + intros Hlen. destruct (two_on_top s Hlen) as (rest & x & i & ->).
      exists rest, x, i. split; [reflexivity|].
      split; [apply (execute_BYTE_valid _ _ _ Hv)|].
      assert (Hxi : 0 <= x <= UINT64_MAX /\ 0 <= i <= UINT64_MAX).
      { unfold valid_stack in Hv. rewrite Forall_app in Hv.
        destruct Hv as [_ H]. inversion H as [|? ? Hx H']; subst.
        inversion H' as [|? ? Hi' _]; subst. split; assumption. }
      destruct Hxi as [Hx Hi]. split.
      * unfold big_endian_byte.
        pose proof (Z.mod_pos_bound (x / 256 ^ (7 - i)) 256 ltac:(lia)). lia.
      * intros Hi8.
        destruct (big_endian_byte_read x i Hx ltac:(lia))
          as (bs & H1 & H2 & H3 & H4 & _).
        exists bs. repeat split; assumption.
    + intros Hlen.
      rewrite (execute_underflow (mkVMState s)) by assumption. reflexivity.
  - intros x Hx. rewrite UINT64_MAX_val in Hx. unfold big_endian_byte. split.
    + change (256 ^ (7 - 0)) with (2 ^ 56). apply Z.mod_small.
      split; [apply Z.div_pos; lia|].
      apply Z.div_lt_upper_bound; lia.
    + change (256 ^ (7 - 7)) with 1. rewrite Z.div_1_r. reflexivity.
Qed.

Lemma execute_BYTE_extracts_witness :
  valid_stack [0xAABBCCDD; 5] /\
  exists rest x i,
    [0xAABBCCDD; 5] = rest ++ [x; i] /\
    execute (mkVMState [0xAABBCCDD; 5]) BYTE
    = Ok (mkVMState (rest ++ [if 8 <=? i then 0 else big_endian_byte x i])) /\
    0 <= big_endian_byte x i <= 255 /\
    (i < 8 ->
     exists bs,
       to_bytes_big x 8 = Ok bs /\ length bs = 8%nat /\
       from_bytes_big bs = x /\
       getitem bs i = Ok (byte_of_Z (big_endian_byte x i))).
Proof.
  assert (Hv : valid_stack [0xAABBCCDD; 5]).
  { repeat constructor; vm_compute; discriminate. }
  split; [exact Hv|].
  apply (proj1 (proj1 execute_BYTE_extracts (mkVMState [0xAABBCCDD; 5]) Hv)).
  cbn. lia.
Defined.

(* ===================================================================== *)
(** * The codec                                                           *)
(* ===================================================================== *)

Lemma deserialize_loop_step (data : bytes) (offset : nat)
  (instructions : list Instruction) :
  deserialize_loop data offset instructions =
  if (offset <? length data)%nat then
    match deserialize_instruction data offset with
    | Ok (instr, offset') =>
        deserialize_loop data offset' (instructions ++ [instr])
    | Err e => Err e
    end
  else Ok instructions.
Proof.
  funelim (deserialize_loop data offset instructions).
  all: repeat match goal with
         | H : (?a <? ?b)%nat = _ |- context [(?a <? ?b)%nat] => rewrite H
         | H : deserialize_instruction ?d ?o = _
           |- context [deserialize_instruction ?d ?o] => rewrite H
         end; reflexivity.
Qed.

Lemma le_value_bound (l : bytes) :
  0 <= fold_right (fun b acc => acc * 256 + Z_of_byte b) 0 l
  < 256 ^ Z.of_nat (length l).
Proof.
  induction l as [|b l IH]; cbn [fold_right length].
  - cbn. lia.
  - pose proof (Z_of_byte_range b).
    rewrite Nat2Z.inj_succ, Z.pow_succ_r by lia. lia.
Qed.

Lemma le_digits_of_value (l : bytes) :
  le_digits (length l)
    (fold_right (fun b acc => acc * 256 + Z_of_byte b) 0 l) = l.
Proof.
  induction l as [|b l IH]; cbn [fold_right length le_digits].
  - reflexivity.
  - pose proof (Z_of_byte_range b) as Hb.
    rewrite byte_of_Z_mod.
    set (t := fold_right (fun b acc => acc * 256 + Z_of_byte b) 0 l) in *.
    replace (byte_of_Z (t * 256 + Z_of_byte b)) with b.
    + replace ((t * 256 + Z_of_byte b) / 256) with t; [rewrite IH; reflexivity|].
      symmetry. rewrite Z.add_comm, Z.div_add by lia.
      rewrite Z.div_small by lia. reflexivity.
    + rewrite <- byte_of_Z_mod, Z.add_comm, Z.mod_add by lia.
      rewrite Z.mod_small by lia. symmetry. apply byte_of_Z_of_byte.
Qed.

Lemma from_bytes_big_bound (bs : bytes) :
  0 <= from_bytes_big bs < 256 ^ Z.of_nat (length bs).
Proof.
  pose proof (le_value_bound (rev bs)) as H.
  rewrite <- from_bytes_big_rev, rev_involutive, length_rev in H. exact H.
Qed.

Lemma to_bytes_big_from_bytes_big (bs : bytes) :
  to_bytes_big (from_bytes_big bs) (length bs) = Ok bs.
Proof.
  rewrite to_bytes_big_fits by apply from_bytes_big_bound.
  f_equal. pose proof (le_digits_of_value (rev bs)) as H.
  rewrite <- from_bytes_big_rev, rev_involutive, length_rev in H.
  rewrite H. apply rev_involutive.
Qed.

Lemma skipn_nth_error {A} (l : list A) (n : nat) (a : A) :
  nth_error l n = Some a -> skipn n l = a :: skipn (S n) l.
Proof.
  revert l. induction n as [|n IH]; intros [|x l] H; try discriminate.
  - cbn in H. injection H as ->. reflexivity.
  - cbn [nth_error] in H. change (skipn (S n) (x :: l)) with (skipn n l).
    rewrite (IH _ H). reflexivity.
Qed.

Lemma firstn_slice {A} (l : list A) (lo hi : nat) :
  (lo <= hi)%nat -> firstn hi l = firstn lo l ++ slice l lo hi.
Proof.
  unfold slice. revert l hi. induction lo as [|lo IH]; intros l hi H.
  - rewrite Nat.sub_0_r. reflexivity.
  - destruct hi as [|hi]; [lia|]. destruct l as [|x l].
    + rewrite skipn_nil, !firstn_nil. reflexivity.
    + cbn [firstn skipn app]. rewrite (IH l hi) by lia. reflexivity.
Qed.

Lemma slice_middle {A} (pre mid post : list A) (lo hi : nat) :
  lo = length pre -> hi = (lo + length mid)%nat ->
  slice (pre ++ mid ++ post) lo hi = mid.
Proof.
  intros -> ->. unfold slice.
  rewrite skipn_app, Nat.sub_diag, skipn_all, skipn_O.
  replace (length pre + length mid - length pre)%nat with (length mid) by lia.
  cbn [app]. rewrite firstn_app, Nat.sub_diag, firstn_all, firstn_O.
  apply app_nil_r.
Qed.

Lemma getitem_nth_error {A} (l : list A) (n : nat) :
  (n < length l)%nat ->
  exists a, nth_error l n = Some a /\ getitem l (Z.of_nat n) = Ok a.
Proof.
  intros H. destruct (nth_error l n) as [a|] eqn:E.
  - exists a. split; [reflexivity|].
    apply getitem_nonneg; [lia|]. rewrite Nat2Z.id. exact E.
  - apply nth_error_None in E. lia.
Qed.

(** One decoding step, with the indexing and the operand validation
    resolved: inside the buffer neither of them can raise. *)
Lemma deserialize_instruction_inside (data : bytes) (offset : nat) :
  (offset < length data)%nat ->
  exists opcode,
    nth_error data offset = Some opcode /\
    deserialize_instruction data offset =
    if Byte.eqb opcode OP_PUSH4 then
      if (length data <? offset + 5)%nat then
        Err (InvalidInstruction (TruncatedPUSH4 offset (length data - offset)))
      else
        Ok (PUSH4 (from_bytes_big (slice data (offset + 1) (offset + 5))),
            (offset + 5)%nat)
    else if Byte.eqb opcode OP_ADD then Ok (ADD, (offset + 1)%nat)
    else if Byte.eqb opcode OP_MUL then Ok (MUL, (offset + 1)%nat)
    else if Byte.eqb opcode OP_BYTE then Ok (BYTE, (offset + 1)%nat)
    else Err (InvalidInstruction (UnknownOpcode opcode offset)).
Proof.
  intros H. destruct (getitem_nth_error data offset H) as (opcode & Hn & Hg).
  exists opcode. split; [exact Hn|].
  unfold deserialize_instruction.
  replace (length data <=? offset)%nat with false
    by (symmetry; apply Nat.leb_gt; exact H).
  rewrite Hg. cbn [bind].
  destruct (Byte.eqb opcode OP_PUSH4); [|reflexivity].
  destruct (length data <? offset + 5)%nat eqn:E; [reflexivity|].
  apply Nat.ltb_ge in E.
  set (operand := slice data (offset + 1) (offset + 5)).
  assert (Hlen : length operand = 4%nat).
  { unfold operand, slice. rewrite length_firstn, length_skipn. lia. }
  pose proof (from_bytes_big_bound operand) as Hb. rewrite Hlen in Hb.
  unfold new_PUSH4.
  replace ((0 <=? from_bytes_big operand)
           && (from_bytes_big operand <=? 0xFFFFFFFF)) with true.
  - reflexivity.
  - symmetry. apply andb_true_iff.
    change (256 ^ Z.of_nat 4) with 4294967296 in Hb. split; lia.
Qed.

Lemma serialize_program_app (P Q : list Instruction) :
  serialize_program (P ++ Q) =
  (a <- serialize_program P ;; b <- serialize_program Q ;; Ok (a ++ b)).
Proof.
  induction P as [|i P IH]; cbn [app serialize_program].
  - cbn [bind app]. destruct (serialize_program Q); reflexivity.
  - destruct (serialize_instruction i) as [c|]; cbn [bind]; [|reflexivity].
    rewrite IH. destruct (serialize_program P) as [a|]; cbn [bind]; [|reflexivity].
    destruct (serialize_program Q) as [b|]; cbn [bind]; [|reflexivity].
    rewrite app_assoc. reflexivity.
Qed.

Lemma serialize_program_snoc (P : list Instruction) (i : Instruction)
  (a c : bytes) :
  serialize_program P = Ok a -> serialize_instruction i = Ok c ->
  serialize_program (P ++ [i]) = Ok (a ++ c).
Proof.
  intros HP Hi. rewrite serialize_program_app, HP. cbn [bind serialize_program].
  rewrite Hi. cbn [bind]. rewrite app_nil_r. reflexivity.
Qed.

(** A successful decoding step consumed exactly the encoding of the
    instruction it returns. *)
Lemma deserialize_instruction_sound (data : bytes) (offset offset' : nat)
  (instr : Instruction) :
  (offset < length data)%nat ->
  deserialize_instruction data offset = Ok (instr, offset') ->
  (offset < offset' <= length data)%nat /\
  serialize_instruction instr = Ok (slice data offset offset').
Proof.
  intros H Hd.
  destruct (deserialize_instruction_inside data offset H) as (op & Hn & E).
  rewrite E in Hd. clear E.
  assert (Hone : slice data offset (offset + 1) = [op]).
  { unfold slice. rewrite (skipn_nth_error _ _ _ Hn).
    replace (offset + 1 - offset)%nat with 1%nat by lia. reflexivity. }
  destruct (Byte.eqb op OP_PUSH4) eqn:E1.
  - destruct (length data <? offset + 5)%nat eqn:E; [discriminate|].
    apply Nat.ltb_ge in E. injection Hd as <- <-. split; [lia|].
    apply Byte.byte_dec_bl in E1. subst op.
    set (operand := slice data (offset + 1) (offset + 5)).
    assert (Hlen : length operand = 4%nat).
    { unfold operand, slice. rewrite length_firstn, length_skipn. lia. }
    cbn [serialize_instruction]. rewrite <- Hlen at 1.
    rewrite to_bytes_big_from_bytes_big. cbn [bind]. f_equal.
    unfold operand, slice. rewrite (skipn_nth_error _ _ _ Hn).
    replace (offset + 5 - offset)%nat with 5%nat by lia.
    replace (offset + 5 - (offset + 1))%nat with 4%nat by lia.
    replace (offset + 1)%nat with (S offset) by lia. reflexivity.
  - destruct (Byte.eqb op OP_ADD) eqn:E2;
      [|destruct (Byte.eqb op OP_MUL) eqn:E3;
        [|destruct (Byte.eqb op OP_BYTE) eqn:E4; [|discriminate]]].
    all: injection Hd as <- <-; split; [lia|]; rewrite Hone;
      match goal with E : Byte.eqb _ _ = true |- _ =>
        apply Byte.byte_dec_bl in E; subst op end; reflexivity.
Qed.

(** A failing decoding step inside the buffer met an unknown opcode or a
    PUSH4 with fewer than four operand bytes left. *)
Lemma deserialize_instruction_fails (data : bytes) (offset : nat) (e : exn) :
  (offset < length data)%nat ->
  deserialize_instruction data offset = Err e ->
  (exists op,
      nth_error data offset = Some op /\
      op <> OP_PUSH4 /\ op <> OP_ADD /\ op <> OP_MUL /\ op <> OP_BYTE /\
      e = InvalidInstruction (UnknownOpcode op offset))
  \/ (nth_error data offset = Some OP_PUSH4 /\
      (length data - offset < 5)%nat /\
      e = InvalidInstruction (TruncatedPUSH4 offset (length data - offset))).
Proof.
  intros H Hd.
  destruct (deserialize_instruction_inside data offset H) as (op & Hn & E).
  rewrite E in Hd. clear E.
  destruct (Byte.eqb op OP_PUSH4) eqn:E1.
  - destruct (length data <? offset + 5)%nat eqn:E; [|discriminate].
    apply Nat.ltb_lt in E. injection Hd as <-. right.
    apply Byte.byte_dec_bl in E1. subst op. repeat split; [exact Hn|lia].
  - destruct (Byte.eqb op OP_ADD) eqn:E2; [discriminate|].
    destruct (Byte.eqb op OP_MUL) eqn:E3; [discriminate|].
    destruct (Byte.eqb op OP_BYTE) eqn:E4; [discriminate|].
    injection Hd as <-. left. exists op.
    repeat split; try exact Hn; apply Byte.eqb_false; assumption.
Qed.

Lemma deserialize_loop_outcome (data : bytes) (offset : nat)
  (instructions : list Instruction) :
  (offset <= length data)%nat ->
  serialize_program instructions = Ok (firstn offset data) ->
  decode_outcome data (deserialize_loop data offset instructions).
Proof.
  funelim (deserialize_loop data offset instructions); intros Hle Hser.
  - (* the loop ends: the whole buffer was consumed *)
    left. exists instructions. split; [reflexivity|].
    match goal with E : (_ <? _)%nat = false |- _ =>
      pose proof (proj1 (Nat.ltb_ge _ _) E) as Hge end.
    rewrite Hser, firstn_all2 by lia. reflexivity.
  - (* one more instruction decoded *)
    pose proof (proj1 (Nat.ltb_lt _ _) Hlt) as Hin.
    destruct (deserialize_instruction_sound _ _ _ _ Hin Hdec) as [Hoff Hs].
    match goal with IH : _ -> _ -> decode_outcome _ _ |- _ => apply IH end.
    + lia.
    + rewrite (firstn_slice data offset offset') by lia.
      apply serialize_program_snoc; assumption.
  - (* the step raised *)
    pose proof (proj1 (Nat.ltb_lt _ _) Hlt) as Hin.
    right. exists offset, instructions.
    split; [exact Hin|]. split; [exact Hser|].
    match goal with E : deserialize_instruction _ _ = Err _ |- _ =>
      destruct (deserialize_instruction_fails _ _ _ Hin E)
        as [(op & H1 & H2 & H3 & H4 & H5 & ->)|(H1 & H2 & ->)] end.
    + left. exists op. repeat split; assumption.
    + right. repeat split; assumption.
Qed.

(** C3. For every byte buffer, decoding a whole program either returns the
    instruction list whose encoding is exactly the buffer (so the buffer was
    consumed completely, and the empty buffer gives the empty program), or
    fails with InvalidInstruction raised at an instruction boundary, where
    either the opcode byte is none of 0x01..0x04 or opcode 0x01 has fewer
    than 4 operand bytes after it; no shorter instruction list is returned. *)
Theorem deserialize_program_all_or_nothing :
  (forall data : bytes, decode_outcome data (deserialize_program data))
  /\ deserialize_program [] = Ok []
  /\ deserialize_program [xff]
     = Err (InvalidInstruction (UnknownOpcode xff 0))
  /\ deserialize_program [x01; x00; x00]
     = Err (InvalidInstruction (TruncatedPUSH4 0 3)).
Proof.
  split; [|repeat split; reflexivity].
  intros data. unfold deserialize_program.
  apply deserialize_loop_outcome; [lia|reflexivity].
Qed.

Lemma serialize_instruction_nonempty (instr : Instruction) (chunk : bytes) :
  serialize_instruction instr = Ok chunk -> (0 < length chunk)%nat.
Proof.
  destruct instr as [v| | |]; cbn [serialize_instruction]; intros H.
  - destruct (to_bytes_big v 4); [|discriminate].
    cbn [bind] in H. injection H as <-. cbn [app length]. lia.
  - injection H as <-. cbn. lia.
  - injection H as <-. cbn. lia.
  - injection H as <-. cbn. lia.
Qed.

Lemma deserialize_instruction_at (pre chunk post : bytes)
  (instr : Instruction) :
  valid_instruction instr ->
  serialize_instruction instr = Ok chunk ->
  deserialize_instruction (pre ++ chunk ++ post) (length pre)
  = Ok (instr, (length pre + length chunk)%nat).
Proof.
  intros Hv Hs.
  pose proof (serialize_instruction_nonempty _ _ Hs) as Hne.
  assert (Hin : (length pre < length (pre ++ chunk ++ post))%nat)
    by (rewrite !length_app; lia).
  destruct (deserialize_instruction_inside _ _ Hin) as (op & Hn & ->).
  rewrite nth_error_app2, Nat.sub_diag in Hn by lia.
  destruct instr as [v| | |]; cbn [serialize_instruction] in Hs.
  - cbn [valid_instruction] in Hv.
    rewrite to_bytes_big_fits in Hs
      by (change (256 ^ Z.of_nat 4) with 4294967296; lia).
    assert (Hl : length (rev (le_digits 4 v)) = 4%nat)
      by (rewrite length_rev; apply le_digits_length).
    assert (Hval : from_bytes_big (rev (le_digits 4 v)) = v).
    { rewrite from_bytes_big_le_digits. apply Z.mod_small.
      change (256 ^ Z.of_nat 4) with 4294967296. lia. }
    revert Hs Hl Hval. generalize (rev (le_digits 4 v)). intros ops Hs Hl Hval.
    cbn [bind app] in Hs. injection Hs as <-.
    cbn [app nth_error] in Hn. injection Hn as <-.
    change (Byte.eqb OP_PUSH4 OP_PUSH4) with true. cbv iota.
    replace (length (pre ++ (OP_PUSH4 :: ops) ++ post)
             <? length pre + 5)%nat with false
      by (symmetry; apply Nat.ltb_ge; rewrite !length_app; cbn [length]; lia).
    replace (pre ++ (OP_PUSH4 :: ops) ++ post)
      with ((pre ++ [OP_PUSH4]) ++ ops ++ post)
      by (rewrite <- !app_assoc; reflexivity).
    rewrite (slice_middle (pre ++ [OP_PUSH4]) ops post)
      by (rewrite ?length_app; cbn [length]; lia).
    rewrite Hval. cbn [length]. rewrite Hl. reflexivity.
  - injection Hs as <-. cbn in Hn. injection Hn as <-. reflexivity.
  - injection Hs as <-. cbn in Hn. injection Hn as <-. reflexivity.
  - injection Hs as <-. cbn in Hn. injection Hn as <-. reflexivity.
Qed.

Lemma deserialize_loop_roundtrip (P : list Instruction) :
  Forall valid_instruction P ->
  forall (pre code : bytes) (instructions : list Instruction),
    serialize_program P = Ok code ->
    deserialize_loop (pre ++ code) (length pre) instructions
    = Ok (instructions ++ P).
Proof.
  induction 1 as [|instr P Hv _ IH]; intros pre code acc Hs;
    cbn [serialize_program] in Hs; rewrite deserialize_loop_step.
  - injection Hs as <-. rewrite !app_nil_r, Nat.ltb_irrefl. reflexivity.
  - destruct (serialize_instruction instr) as [chunk|] eqn:Hc; [|discriminate].
    cbn [bind] in Hs.
    destruct (serialize_program P) as [tail|] eqn:Ht; [|discriminate].
    cbn [bind] in Hs. injection Hs as <-.
    pose proof (deserialize_instruction_at pre chunk tail instr Hv Hc) as Hd.
    pose proof (serialize_instruction_nonempty _ _ Hc) as Hne.
    replace (length pre <? length (pre ++ chunk ++ tail))%nat with true
      by (symmetry; apply Nat.ltb_lt; rewrite !length_app; lia).
    rewrite Hd. rewrite app_assoc, <- length_app.
    rewrite (IH (pre ++ chunk) tail (acc ++ [instr]) eq_refl).
    rewrite <- app_assoc. reflexivity.
Qed.

Lemma serialize_program_valid (P : list Instruction) :
  Forall valid_instruction P -> exists code, serialize_program P = Ok code.
Proof.
  induction 1 as [|instr P Hv _ [tail IH]]; cbn [serialize_program].
  - exists []. reflexivity.
  - rewrite IH. destruct instr as [v| | |]; cbn [serialize_instruction].
    + cbn [valid_instruction] in Hv. rewrite to_bytes_big_fits
        by (change (256 ^ Z.of_nat 4) with 4294967296; lia).
      eexists. reflexivity.
    + eexists. reflexivity.
    + eexists. reflexivity.
    + eexists. reflexivity.
Qed.

(** C4. For every instruction list P whose PUSH4 operands lie in
    [0, 2^32 - 1], the encoder produces a buffer, and decoding that buffer
    returns exactly P. *)
Theorem deserialize_serialize_roundtrip (P : list Instruction) :
  Forall valid_instruction P ->
  exists code,
    serialize_program P = Ok code /\ deserialize_program code = Ok P.
Proof.
  intros Hv. destruct (serialize_program_valid P Hv) as [code Hs].
  exists code. split; [exact Hs|].
  apply (deserialize_loop_roundtrip P Hv [] code [] Hs).
Qed.

Lemma deserialize_serialize_roundtrip_witness :
  exists code,
    serialize_program [PUSH4 3; PUSH4 0xFFFFFFFF; ADD; PUSH4 5; MUL; BYTE]
    = Ok code /\
    deserialize_program code
    = Ok [PUSH4 3; PUSH4 0xFFFFFFFF; ADD; PUSH4 5; MUL; BYTE].
Proof.
  apply (deserialize_serialize_roundtrip
           [PUSH4 3; PUSH4 0xFFFFFFFF; ADD; PUSH4 5; MUL; BYTE]).
  repeat constructor; cbn; lia.
Defined.

(* ===================================================================== *)
(** * The equivalence predicate of the oracle                             *)
(* ===================================================================== *)

Lemma list_eq_true (l1 l2 : list Z) : list_eq l1 l2 = true <-> l1 = l2.
Proof.
  revert l2. induction l1 as [|x l1 IH]; intros [|y l2]; cbn [list_eq];
    try (split; [discriminate|discriminate]); try (split; reflexivity).
  rewrite andb_true_iff, Z.eqb_eq, IH. split.
  - intros [-> ->]. reflexivity.
  - intros H. injection H as -> ->. split; reflexivity.
Qed.

(** C5. For all outcomes expected and actual, compare_results (in both
    fuzzer modules) answers true exactly when the two are of the same kind
    and, when both are Success, their stacks are equal as lists; any two
    ExceptionThrown match and any two Crash match, whatever their texts. *)
Theorem compare_results_matches :
  (forall expected actual : ExecutionResult,
      (Fuzzing.compare_results expected actual = true
       <-> outcomes_match expected actual) /\
      (Fuzzer.compare_results expected actual = true
       <-> outcomes_match expected actual))
  /\ (forall m1 m2 : string,
         Fuzzing.compare_results (ExceptionThrown m1) (ExceptionThrown m2) = true /\
         Fuzzing.compare_results (Crash m1) (Crash m2) = true /\
         Fuzzer.compare_results (ExceptionThrown m1) (ExceptionThrown m2) = true /\
         Fuzzer.compare_results (Crash m1) (Crash m2) = true)
  /\ (forall s1 s2 : list Z,
         (Fuzzing.compare_results (Success s1) (Success s2) = true <-> s1 = s2) /\
         (Fuzzer.compare_results (Success s1) (Success s2) = true <-> s1 = s2)).
Proof.
  split; [|split].
  - intros [m1|m1|s1] [m2|m2|s2]; cbn;
      try (split; split; intros H; solve [discriminate H | contradiction H | reflexivity | exact I]).
    split; apply list_eq_true.
  - intros m1 m2. repeat split.
  - intros s1 s2. cbn. split; apply list_eq_true.
Qed.

(* ===================================================================== *)
(** * Compiled expressions                                                *)
(* ===================================================================== *)

Lemma execute_from_app (P Q : list Instruction) (state : VMState) :
  execute_from state (P ++ Q)
  = (state' <- execute_from state P ;; execute_from state' Q).
Proof.
  revert state. induction P as [|i P IH]; intros state; cbn [app execute_from].
  - reflexivity.
  - destruct (execute state i) as [st|]; cbn [bind]; [apply IH|reflexivity].
Qed.

Lemma valid_stack_snoc (s : list Z) (v : Z) :
  valid_stack s -> 0 <= v <= UINT64_MAX -> valid_stack (s ++ [v]).
Proof.
  intros Hs Hv. apply Forall_app. split; [exact Hs|].
  constructor; [exact Hv|constructor].
Qed.

Lemma eval_range (e : Expr) : valid_expr e -> 0 <= eval e <= UINT64_MAX.
Proof.
  rewrite UINT64_MAX_val. destruct e as [v|l r|l r|v i]; cbn [eval valid_expr].
  - unfold UINT32_MAX. lia.
  - intros _. pose proof (Z.mod_pos_bound (eval l + eval r) (2 ^ 64)). lia.
  - intros _. pose proof (Z.mod_pos_bound (eval l * eval r) (2 ^ 64)). lia.
  - intros _. destruct (8 <=? eval i); [lia|]. unfold big_endian_byte.
    pose proof (Z.mod_pos_bound (eval v / 256 ^ (7 - eval i)) 256). lia.
Qed.

(** The compiler succeeds on a valid tree, and its output, run on any valid
    stack, leaves that stack with the value of the tree pushed on top. *)
Lemma compile_expr_to_instructions_runs (e : Expr) :
  valid_expr e ->
  exists P,
    compile_expr_to_instructions e = Ok P /\
    Forall valid_instruction P /\
    forall s, valid_stack s ->
      execute_from (mkVMState s) P = Ok (mkVMState (s ++ [eval e])).
Proof.
  induction e as [v|l IHl r IHr|l IHl r IHr|l IHl r IHr]; intros Hv.
  - cbn [valid_expr] in Hv. unfold UINT32_MAX in Hv.
    exists [PUSH4 v]. split; [|split].
    + cbn [compile_expr_to_instructions]. unfold new_PUSH4.
      replace ((0 <=? v) && (v <=? 0xFFFFFFFF)) with true
        by (symmetry; apply andb_true_iff; split; lia).
      reflexivity.
    + constructor; [exact Hv|constructor].
    + intros s Hs. cbn [execute_from].
      rewrite (execute_PUSH4_valid (mkVMState s)) by exact Hs. reflexivity.
  - destruct Hv as [Hl Hr].
    destruct (IHl Hl) as (Pl & El & Vl & Rl).
    destruct (IHr Hr) as (Pr & Er & Vr & Rr).
    exists ((Pl ++ Pr) ++ [ADD]). split; [|split].
    + cbn [compile_expr_to_instructions]. rewrite El, Er. reflexivity.
    + repeat (apply Forall_app; split); try assumption.
      constructor; [exact I|constructor].
    + intros s Hs. pose proof (eval_range l Hl) as Bl.
      pose proof (eval_range r Hr) as Br.
      rewrite !execute_from_app, (Rl s Hs). cbn [bind].
      rewrite (Rr _ (valid_stack_snoc _ _ Hs Bl)). cbn [bind execute_from].
      rewrite <- app_assoc. cbn [app].
      rewrite execute_ADD_valid; [reflexivity|].
      change (s ++ [eval l; eval r]) with (s ++ [eval l] ++ [eval r]).
      rewrite app_assoc. apply valid_stack_snoc; [|exact Br].
      apply valid_stack_snoc; assumption.
  - destruct Hv as [Hl Hr].
    destruct (IHl Hl) as (Pl & El & Vl & Rl).
    destruct (IHr Hr) as (Pr & Er & Vr & Rr).
    exists ((Pl ++ Pr) ++ [MUL]). split; [|split].
    + cbn [compile_expr_to_instructions]. rewrite El, Er. reflexivity.
    + repeat (apply Forall_app; split); try assumption.
      constructor; [exact I|constructor].
    + intros s Hs. pose proof (eval_range l Hl) as Bl.
      pose proof (eval_range r Hr) as Br.
      rewrite !execute_from_app, (Rl s Hs). cbn [bind].
      rewrite (Rr _ (valid_stack_snoc _ _ Hs Bl)). cbn [bind execute_from].
      rewrite <- app_assoc. cbn [app].
      rewrite execute_MUL_valid; [reflexivity|].
      change (s ++ [eval l; eval r]) with (s ++ [eval l] ++ [eval r]).
      rewrite app_assoc. apply valid_stack_snoc; [|exact Br].
      apply valid_stack_snoc; assumption.
  - destruct Hv as [Hl Hr].
    destruct (IHl Hl) as (Pl & El & Vl & Rl).
    destruct (IHr Hr) as (Pr & Er & Vr & Rr).
    exists ((Pl ++ Pr) ++ [BYTE]). split; [|split].
    + cbn [compile_expr_to_instructions]. rewrite El, Er. reflexivity.
    + repeat (apply Forall_app; split); try assumption.
      constructor; [exact I|constructor].
    + intros s Hs. pose proof (eval_range l Hl) as Bl.
      pose proof (eval_range r Hr) as Br.
      rewrite !execute_from_app, (Rl s Hs). cbn [bind].
      rewrite (Rr _ (valid_stack_snoc _ _ Hs Bl)). cbn [bind execute_from].
      rewrite <- app_assoc. cbn [app].
      rewrite execute_BYTE_valid; [reflexivity|].
      change (s ++ [eval l; eval r]) with (s ++ [eval l] ++ [eval r]).
      rewrite app_assoc. apply valid_stack_snoc; [|exact Br].
      apply valid_stack_snoc; assumption.
Qed.

(** C10. For every expression tree e, executing the compiled instruction
    list of e from the empty initial stack succeeds and leaves a stack of
    exactly one element, an unsigned 64-bit value. *)
Theorem compiled_expression_leaves_one_value (e : Expr) :
  valid_expr e ->
  exists P v,
    compile_expr_to_instructions e = Ok P /\
    execute_program P None = Ok (mkVMState [v]) /\
    0 <= v <= UINT64_MAX.
Proof.
  intros Hv. destruct (compile_expr_to_instructions_runs e Hv) as (P & E & _ & R).
  exists P, (eval e). split; [exact E|]. split; [|apply eval_range; exact Hv].
  unfold execute_program. cbn [new_VMState check_stack bind].
  apply (R [] (Forall_nil _)).
Qed.

Lemma compiled_expression_leaves_one_value_witness :
  exists P v,
    compile_expr_to_instructions
      (Mul (Const 2) (Byte (Add (Const 3) (Const 4)) (Const 7))) = Ok P /\
    execute_program P None = Ok (mkVMState [v]) /\
    0 <= v <= UINT64_MAX.
Proof.
  apply (compiled_expression_leaves_one_value
           (Mul (Const 2) (Byte (Add (Const 3) (Const 4)) (Const 7)))).
  cbn. unfold UINT32_MAX. lia.
Defined.

Lemma copy_Ok (state new_state : VMState) :
  copy state = Ok new_state -> stack new_state = stack state.
Proof.
  unfold copy, new_VMState.
  destruct (check_stack 0 (stack state)); cbn [bind]; [|discriminate].
  intros H. injection H as <-. reflexivity.
Qed.

(** An operator that executed found two operands. *)
Lemma execute_operator_Ok (state state' : VMState) (op : Instruction) :
  op = ADD \/ op = MUL \/ op = BYTE ->
  execute state op = Ok state' -> (2 <= length (stack state))%nat.
Proof.
  intros Hop H. unfold execute in H.
  destruct (copy state) as [ns|] eqn:Hc; cbn [bind] in H; [|discriminate].
  rewrite (copy_Ok _ _ Hc) in H.
  destruct (length (stack state) <? 2)%nat eqn:E.
  - destruct Hop as [->|[->| ->]]; discriminate.
  - apply Nat.ltb_ge in E. exact E.
Qed.

Lemma execute_from_split (P1 P2 : list Instruction) (op : Instruction)
  (state final : VMState) :
  execute_from state (P1 ++ op :: P2) = Ok final ->
  exists st st',
    execute_from state P1 = Ok st /\ execute st op = Ok st'.
Proof.
  rewrite execute_from_app.
  destruct (execute_from state P1) as [st|]; cbn [bind execute_from];
    [|discriminate].
  destruct (execute st op) as [st'|] eqn:E; cbn [bind]; [|discriminate].
  intros _. exists st, st'. split; [reflexivity|exact E].
Qed.

(** C6. For every expression tree e, the bytecode of e under the postorder
    scheme decodes successfully, to the compiled instruction list itself;
    executing it from the empty stack succeeds, so StackUnderflow is never
    raised; and whenever the run reaches an ADD, MUL or BYTE of the program
    the stack holds at least two elements, so that the underflow branch of
    that operator is not taken. *)
Theorem compiled_expression_never_underflows (e : Expr) :
  valid_expr e ->
  exists code P final,
    compile_expr e = Ok code /\
    compile_expr_to_instructions e = Ok P /\
    deserialize_program code = Ok P /\
    execute_program P None = Ok final /\
    execute_bytecode code None = Ok final /\
    (forall msg, execute_bytecode code None <> Err (StackUnderflow msg)) /\
    (forall P1 op P2,
        P = P1 ++ op :: P2 ->
        op = ADD \/ op = MUL \/ op = BYTE ->
        exists st,
          execute_program P1 None = Ok st /\ (2 <= length (stack st))%nat).
Proof.
  intros Hv.
  destruct (compile_expr_to_instructions_runs e Hv) as (P & E & VP & R).
  destruct (serialize_program_valid P VP) as [code Hs].
  pose proof (deserialize_loop_roundtrip P VP [] code [] Hs) as Hd.
  cbn [app length] in Hd. fold (deserialize_program code) in Hd.
  assert (Hrun : execute_program P None = Ok (mkVMState [eval e])).
  { unfold execute_program. cbn [new_VMState check_stack bind].
    apply (R [] (Forall_nil _)). }
  assert (Hbc : execute_bytecode code None = Ok (mkVMState [eval e])).
  { unfold execute_bytecode. rewrite Hd. cbn [bind]. exact Hrun. }
  exists code, P, (mkVMState [eval e]).
  split; [unfold compile_expr; rewrite E; exact Hs|].
  split; [exact E|]. split; [exact Hd|]. split; [exact Hrun|].
  split; [exact Hbc|]. split.
  - intros msg. rewrite Hbc. discriminate.
  - intros P1 op P2 -> Hop.
    unfold execute_program in Hrun |- *.
    cbn [new_VMState check_stack bind] in Hrun |- *.
    destruct (execute_from_split _ _ _ _ _ Hrun) as (st & st' & H1 & H2).
    exists st. split; [exact H1|].
    apply (execute_operator_Ok st st' op Hop H2).
Qed.

Lemma compiled_expression_never_underflows_witness :
  exists code P final,
    compile_expr (Byte (Mul (Const 0xFFFFFFFF) (Const 0xFFFFFFFF)) (Const 1))
    = Ok code /\
    compile_expr_to_instructions
      (Byte (Mul (Const 0xFFFFFFFF) (Const 0xFFFFFFFF)) (Const 1)) = Ok P /\
    deserialize_program code = Ok P /\
    execute_program P None = Ok final /\
    execute_bytecode code None = Ok final /\
    (forall msg, execute_bytecode code None <> Err (StackUnderflow msg)) /\
    (forall P1 op P2,
        P = P1 ++ op :: P2 ->
        op = ADD \/ op = MUL \/ op = BYTE ->
        exists st,
          execute_program P1 None = Ok st /\ (2 <= length (stack st))%nat).
Proof.
  apply (compiled_expression_never_underflows
           (Byte (Mul (Const 0xFFFFFFFF) (Const 0xFFFFFFFF)) (Const 1))).
  cbn. unfold UINT32_MAX. lia.
Defined.

(* ===================================================================== *)
(** * Enumeration                                                         *)
(* ===================================================================== *)

Lemma gen_for_constants_valid (constants : list Z) :
  Forall in_uint32 constants ->
  gen_for constants (fun c k => gen_yield (new_Const c) k) gen_done
  = (map Const constants, None).
Proof.
  induction 1 as [|c cs Hc _ IH]; cbn [gen_for map]; [reflexivity|].
  rewrite IH. unfold new_Const. unfold in_uint32 in Hc.
  replace ((c <? 0) || (UINT32_MAX <? c)) with false; [reflexivity|].
  symmetry. apply orb_false_iff. split; [apply Z.ltb_ge|apply Z.ltb_ge]; lia.
Qed.

Lemma gen_for_constants_None (constants : list Z) :
  snd (gen_for constants (fun c k => gen_yield (new_Const c) k) gen_done)
  = None ->
  Forall in_uint32 constants.
Proof.
  induction constants as [|c cs IH]; cbn [gen_for]; intros H; [constructor|].
  unfold new_Const in H.
  destruct ((c <? 0) || (UINT32_MAX <? c)) eqn:E; cbn [gen_yield snd] in H;
    [discriminate|].
  apply orb_false_iff in E. destruct E as [E1 E2].
  apply Z.ltb_ge in E1, E2. constructor; [split; lia|apply IH; exact H].
Qed.

Lemma new_Const_Ok (c : Z) (k : Expr) : new_Const c = Ok k -> k = Const c.
Proof.
  unfold new_Const. destruct ((c <? 0) || (UINT32_MAX <? c)); [discriminate|].
  intros H. injection H as <-. reflexivity.
Qed.

(** Whatever the constants, the leaves yielded come from a prefix of the
    list, in order. *)
Lemma gen_for_constants_prefix (constants : list Z) :
  exists pre suf,
    constants = pre ++ suf /\
    fst (gen_for constants (fun c k => gen_yield (new_Const c) k) gen_done)
    = map Const pre.
Proof.
  induction constants as [|c cs (pre & suf & E & IH)]; cbn [gen_for].
  - exists [], []. split; reflexivity.
  - destruct (new_Const c) as [k|e] eqn:Hk.
    + apply new_Const_Ok in Hk. subst k.
      exists (c :: pre), suf. cbn [gen_yield fst map app].
      rewrite IH, E. split; reflexivity.
    + exists [], (c :: cs). split; reflexivity.
Qed.

Lemma gen_for_operations (lhs : Expr) (sub_exprs : list Expr)
  (k : Generator Expr) :
  gen_for sub_exprs (fun rhs k' =>
    gen_yield (Ok (Add lhs rhs))
      (gen_yield (Ok (Mul lhs rhs))
         (gen_yield (Ok (Byte lhs rhs)) k'))) k
  = (flat_map (fun rhs => operations_on (lhs, rhs)) sub_exprs ++ fst k, snd k).
Proof.
  induction sub_exprs as [|r rs IH]; cbn [gen_for flat_map app].
  - destruct k; reflexivity.
  - rewrite IH. reflexivity.
Qed.

Lemma gen_for_pairs (l1 l2 : list Expr) (k : Generator Expr) :
  gen_for l1 (fun lhs k0 =>
    gen_for l2 (fun rhs k' =>
      gen_yield (Ok (Add lhs rhs))
        (gen_yield (Ok (Mul lhs rhs))
           (gen_yield (Ok (Byte lhs rhs)) k'))) k0) k
  = (flat_map (fun lhs => flat_map (fun rhs => operations_on (lhs, rhs)) l2) l1
       ++ fst k, snd k).
Proof.
  induction l1 as [|l ls IH]; cbn [gen_for flat_map app].
  - destruct k; reflexivity.
  - rewrite gen_for_operations, IH. cbn [fst snd].
    rewrite <- app_assoc. reflexivity.
Qed.

Lemma flat_map_pairs_with (lhs : Expr) (l2 : list Expr) :
  flat_map operations_on (map (fun rhs => (lhs, rhs)) l2)
  = flat_map (fun rhs => operations_on (lhs, rhs)) l2.
Proof.
  induction l2 as [|r rs IH]; cbn [map flat_map]; [reflexivity|].
  rewrite IH. reflexivity.
Qed.

Lemma flat_map_list_prod (l1 l2 : list Expr) :
  flat_map operations_on (list_prod l1 l2)
  = flat_map (fun lhs => flat_map (fun rhs => operations_on (lhs, rhs)) l2) l1.
Proof.
  induction l1 as [|l ls IH]; cbn [list_prod flat_map]; [reflexivity|].
  rewrite flat_map_app, IH, flat_map_pairs_with. reflexivity.
Qed.

(** One level of the enumeration, once the level below ran to its end. *)
Lemma enumerate_expressions_S (depth : nat) (constants : list Z)
  (sub_exprs : list Expr) :
  enumerate_expressions depth constants = (sub_exprs, None) ->
  enumerate_expressions (S depth) constants
  = (flat_map operations_on (list_prod sub_exprs sub_exprs)
       ++ fst (gen_for constants (fun c k => gen_yield (new_Const c) k)
                 gen_done),
     snd (gen_for constants (fun c k => gen_yield (new_Const c) k) gen_done)).
Proof.
  intros H. cbn [enumerate_expressions]. rewrite H. cbn [list_of fst snd].
  rewrite gen_for_pairs, flat_map_list_prod. reflexivity.
Qed.

Lemma enumerate_expressions_completes (depth : nat) (constants : list Z) :
  Forall in_uint32 constants ->
  snd (enumerate_expressions depth constants) = None.
Proof.
  intros Hc. induction depth as [|d IH].
  - cbn [enumerate_expressions]. rewrite gen_for_constants_valid by exact Hc.
    reflexivity.
  - rewrite (enumerate_expressions_S d constants
               (fst (enumerate_expressions d constants))).
    + rewrite gen_for_constants_valid by exact Hc. reflexivity.
    + rewrite <- IH. destruct (enumerate_expressions d constants); reflexivity.
Qed.

(** C7. For every list of constants, depth 0 yields one Const per constant,
    in the given order, and nothing else; and every depth d + 1 yields, for
    every ordered pair (left, right) of the complete depth-d enumeration, an
    Add, a Mul and a Byte of the pair, in that order, followed by one Const
    per constant. *)
Theorem enumerate_expressions_yields (constants : list Z) :
  Forall in_uint32 constants ->
  enumerate_expressions 0 constants = (map Const constants, None) /\
  forall d : nat,
  exists sub_exprs,
    enumerate_expressions d constants = (sub_exprs, None) /\
    enumerate_expressions (S d) constants
    = (flat_map operations_on (list_prod sub_exprs sub_exprs)
         ++ map Const constants, None).
Proof.
  intros Hc. split.
  - cbn [enumerate_expressions]. apply gen_for_constants_valid. exact Hc.
  - intros d. exists (fst (enumerate_expressions d constants)).
    assert (E : enumerate_expressions d constants
                = (fst (enumerate_expressions d constants), None)).
    { rewrite <- (enumerate_expressions_completes d constants Hc).
      destruct (enumerate_expressions d constants); reflexivity. }
    split; [exact E|].
    rewrite (enumerate_expressions_S d constants _ E).
    rewrite gen_for_constants_valid by exact Hc. reflexivity.
Qed.

Lemma enumerate_expressions_yields_witness :
  enumerate_expressions 0 [0; 1; 2] = ([Const 0; Const 1; Const 2], None) /\
  forall d : nat,
  exists sub_exprs,
    enumerate_expressions d [0; 1; 2] = (sub_exprs, None) /\
    enumerate_expressions (S d) [0; 1; 2]
    = (flat_map operations_on (list_prod sub_exprs sub_exprs)
         ++ [Const 0; Const 1; Const 2], None).
Proof.
  apply (enumerate_expressions_yields [0; 1; 2]).
  repeat constructor; vm_compute; discriminate.
Defined.

(** C7, as stated, fails on a list holding a value [Const] rejects: the
    generator yields the leaves before it and then raises ValueError. *)
Lemma enumerate_expressions_rejects_constant :
  enumerate_expressions 0 [0; 4294967296]
  = ([Const 0], Some (ValueError_Const 4294967296)) /\
  enumerate_expressions 0 [0; 4294967296]
  <> (map Const [0; 4294967296], None).
Proof.
  split; [reflexivity|]. vm_compute. discriminate.
Qed.

Lemma NoDup_flat_map {A B} (f : A -> list B) (l : list A) :
  NoDup l ->
  (forall x, In x l -> NoDup (f x)) ->
  (forall x y b, In x l -> In y l -> In b (f x) -> In b (f y) -> x = y) ->
  NoDup (flat_map f l).
Proof.
  induction 1 as [|x l Hx Hl IH]; intros Hf Hdisj; cbn [flat_map].
  - constructor.
  - apply NoDup_app.
    + apply Hf. left. reflexivity.
    + apply IH.
      * intros y Hy. apply Hf. right. exact Hy.
      * intros y z b Hy Hz. apply Hdisj; right; assumption.
    + intros b Hb Hin. apply in_flat_map in Hin. destruct Hin as (y & Hy & Hby).
      apply Hx. rewrite (Hdisj x y b); [exact Hy|left; reflexivity|right; exact Hy|exact Hb|exact Hby].
Qed.

Lemma in_operations_on (b lhs rhs : Expr) :
  In b (operations_on (lhs, rhs)) ->
  b = Add lhs rhs \/ b = Mul lhs rhs \/ b = Byte lhs rhs.
Proof.
  cbn. intros [H|[H|[H|[]]]]; subst b; auto.
Qed.

Lemma NoDup_operations_on (lhs rhs : Expr) : NoDup (operations_on (lhs, rhs)).
Proof.
  cbn. repeat constructor; cbn; intros H;
    repeat (destruct H as [H|H]; try discriminate H); exact H.
Qed.

Lemma NoDup_operations (l1 l2 : list Expr) :
  NoDup l1 -> NoDup l2 ->
  NoDup (flat_map operations_on (list_prod l1 l2)).
Proof.
  intros H1 H2. rewrite flat_map_list_prod.
  apply NoDup_flat_map; [exact H1| |].
  - intros lhs _. apply NoDup_flat_map; [exact H2| |].
    + intros rhs _. apply NoDup_operations_on.
    + intros r r' b _ _ Hb Hb'.
      apply in_operations_on in Hb, Hb'.
      destruct Hb as [->|[->| ->]]; destruct Hb' as [E|[E|E]];
        try discriminate E; injection E as E; exact E.
  - intros x y b _ _ Hb Hb'.
    apply in_flat_map in Hb, Hb'.
    destruct Hb as (r & _ & Hb). destruct Hb' as (r' & _ & Hb').
    apply in_operations_on in Hb, Hb'.
    destruct Hb as [->|[->| ->]]; destruct Hb' as [E|[E|E]];
      try discriminate E; injection E as E _; exact E.
Qed.

Lemma NoDup_map_Const (l : list Z) : NoDup l -> NoDup (map Const l).
Proof.
  induction 1 as [|c l Hc _ IH]; cbn [map]; constructor; [|exact IH].
  intros Hin. apply in_map_iff in Hin. destruct Hin as (c' & E & Hc').
  injection E as ->. exact (Hc Hc').
Qed.

Lemma operations_not_Const (l1 l2 : list Expr) (cs : list Z) (b : Expr) :
  In b (flat_map operations_on (list_prod l1 l2)) -> ~ In b (map Const cs).
Proof.
  intros Hb Hc. apply in_flat_map in Hb. destruct Hb as ([lhs rhs] & _ & Hb).
  apply in_operations_on in Hb. apply in_map_iff in Hc.
  destruct Hc as (c & <- & _).
  destruct Hb as [E|[E|E]]; discriminate E.
Qed.

Lemma NoDup_enumerate_expressions (depth : nat) (constants : list Z) :
  NoDup constants -> NoDup (fst (enumerate_expressions depth constants)).
Proof.
  intros Hc. induction depth as [|d IH].
  - cbn [enumerate_expressions].
    destruct (gen_for_constants_prefix constants) as (pre & suf & E & ->).
    apply NoDup_map_Const. rewrite E in Hc.
    exact (NoDup_app_remove_r _ _ Hc).
  - destruct (enumerate_expressions d constants) as [subs [e|]] eqn:Ed.
    + cbn [enumerate_expressions]. rewrite Ed. cbn. constructor.
    + rewrite (enumerate_expressions_S d constants subs Ed). cbn [fst] in *.
      assert (Hv : Forall in_uint32 constants).
      { pose proof (enumerate_expressions_S d constants subs Ed) as HS.
        apply gen_for_constants_None.
        destruct d as [|d'].
        - cbn [enumerate_expressions] in Ed. rewrite Ed. reflexivity.
        - cbn [enumerate_expressions] in Ed.
          destruct (list_of (enumerate_expressions d' constants)) as [ss|]
            eqn:El; [|discriminate].
          rewrite gen_for_pairs in Ed. injection Ed as _ Ed. exact Ed. }
      rewrite (gen_for_constants_valid constants Hv). cbn [fst].
      apply NoDup_app.
      * apply NoDup_operations; exact IH.
      * apply NoDup_map_Const. exact Hc.
      * intros b. apply operations_not_Const.
Qed.

(** C8 does not hold as stated: with a repeated constant the same
    expression is yielded twice. *)
Lemma enumerate_expressions_repeats :
  enumerate_expressions 0 [0; 0] = ([Const 0; Const 0], None) /\
  ~ NoDup (fst (enumerate_expressions 0 [0; 0])).
Proof.
  split; [reflexivity|]. cbn. intros H. inversion H as [|? ? Hn _]; subst.
  apply Hn. left. reflexivity.
Qed.

(** C8, amended. Two calls of enumerate_expressions with equal arguments
    yield the same sequence, in the same order, and end the same way; and
    for every depth and every list of constants without repeated values, no
    expression is yielded twice within one call. *)
Theorem enumerate_expressions_deterministic_nodup :
  (forall (d1 d2 : nat) (c1 c2 : list Z),
      d1 = d2 -> c1 = c2 ->
      enumerate_expressions d1 c1 = enumerate_expressions d2 c2)
  /\ (forall (depth : nat) (constants : list Z),
         NoDup constants ->
         NoDup (fst (enumerate_expressions depth constants))).
Proof.
  split.
  - intros d1 d2 c1 c2 -> ->. reflexivity.
  - exact NoDup_enumerate_expressions.
Qed.

Lemma enumerate_expressions_deterministic_nodup_witness :
  NoDup (fst (enumerate_expressions 2 [0; 1])).
Proof.
  apply (proj2 enumerate_expressions_deterministic_nodup 2%nat [0; 1]).
  constructor; [cbn; intros [H|[]]; discriminate H|].
  constructor; [intros []|constructor].
Defined.

(* ===================================================================== *)
(** * The underflow suite                                                 *)
(* ===================================================================== *)

Lemma underflows_true (code : bytes) :
  underflows code = true ->
  exists P msg,
    deserialize_program code = Ok P /\
    execute_program P None = Err (StackUnderflow msg) /\
    execute_bytecode code None = Err (StackUnderflow msg).
Proof.
  unfold underflows, execute_bytecode.
  destruct (deserialize_program code) as [P|e]; cbn [bind]; [|discriminate].
  destruct (execute_program P None) as [st|[]] eqn:E; try discriminate.
  intros _. exists P, msg. split; [reflexivity|]. split; [exact E|reflexivity].
Qed.

(** C9. The underflow suite runs to its end and yields the encodings of
    ADD, MUL and BYTE alone followed, for each constant of the minimal set
    in turn, by PUSH4 of it before ADD, before MUL and before BYTE; every
    one of these buffers decodes, and its execution by the reference machine
    from the empty stack fails with StackUnderflow. *)
Theorem underflow_suite_underflows :
  snd enumerate_stack_underflow_tests = None
  /\ map deserialize_program (fst enumerate_stack_underflow_tests)
     = map Ok ([[ADD]; [MUL]; [BYTE]]
               ++ flat_map (fun v => [[PUSH4 v; ADD]; [PUSH4 v; MUL];
                                      [PUSH4 v; BYTE]]) MINIMAL_CONSTANTS)
  /\ Forall (fun code =>
               exists P msg,
                 deserialize_program code = Ok P /\
                 execute_program P None = Err (StackUnderflow msg) /\
                 execute_bytecode code None = Err (StackUnderflow msg))
            (fst enumerate_stack_underflow_tests).
Proof.
  split; [reflexivity|]. split; [vm_compute; reflexivity|].
  apply Forall_forall. intros code Hin. apply underflows_true.
  assert (H : forallb underflows (fst enumerate_stack_underflow_tests) = true)
    by (vm_compute; reflexivity).
  rewrite forallb_forall in H. apply H. exact Hin.
Qed.

(* ===================================================================== *)
(** * More on the codec                                                   *)
(* ===================================================================== *)

Lemma deserialize_instruction_Ok_inside (data : bytes) (offset offset' : nat)
  (instr : Instruction) :
  deserialize_instruction data offset = Ok (instr, offset') ->
  (offset < length data)%nat.
Proof.
  unfold deserialize_instruction.
  destruct (length data <=? offset)%nat eqn:E; [discriminate|].
  intros _. apply Nat.leb_gt in E. exact E.
Qed.

Lemma deserialize_instruction_valid (data : bytes) (offset offset' : nat)
  (instr : Instruction) :
  deserialize_instruction data offset = Ok (instr, offset') ->
  valid_instruction instr /\
  (offset' = offset + encoded_size instr)%nat.
Proof.
  intros Hd.
  pose proof (deserialize_instruction_Ok_inside _ _ _ _ Hd) as Hin.
  destruct (deserialize_instruction_inside data offset Hin) as (op & _ & E).
  rewrite E in Hd. clear E.
  destruct (Byte.eqb op OP_PUSH4).
  - destruct (length data <? offset + 5)%nat eqn:E; [discriminate|].
    apply Nat.ltb_ge in E. injection Hd as <- <-. split; [|reflexivity].
    set (operand := slice data (offset + 1) (offset + 5)).
    assert (Hlen : length operand = 4%nat).
    { unfold operand, slice. rewrite length_firstn, length_skipn. lia. }
    pose proof (from_bytes_big_bound operand) as Hb. rewrite Hlen in Hb.
    change (256 ^ Z.of_nat 4) with 4294967296 in Hb.
    cbn [valid_instruction]. lia.
  - destruct (Byte.eqb op OP_ADD); [injection Hd as <- <-; split; [exact I|reflexivity]|].
    destruct (Byte.eqb op OP_MUL); [injection Hd as <- <-; split; [exact I|reflexivity]|].
    destruct (Byte.eqb op OP_BYTE); [injection Hd as <- <-; split; [exact I|reflexivity]|].
    discriminate.
Qed.



(** X2. Whatever the buffer and the offset, a failing call of
    deserialize_instruction raises InvalidInstruction and nothing else (no
    index or value error escapes); at an offset at or past the end of the
    buffer, so also on the empty buffer, it always fails. *)
Theorem deserialize_instruction_raises_InvalidInstruction :
  (forall (data : bytes) (offset : nat) (e : exn),
      deserialize_instruction data offset = Err e ->
      exists why, e = InvalidInstruction why)
  /\ (forall (data : bytes) (offset : nat),
         (length data <= offset)%nat ->
         deserialize_instruction data offset
         = Err (InvalidInstruction (EmptyOrTruncated offset (length data)))).
Proof.
  split.
  - intros data offset e Hd.
    destruct (Nat.le_gt_cases (length data) offset) as [Hle|Hin].
    + unfold deserialize_instruction in Hd.
      apply Nat.leb_le in Hle. rewrite Hle in Hd. injection Hd as <-.
      eexists. reflexivity.
    + destruct (deserialize_instruction_fails _ _ _ Hin Hd)
        as [(op & _ & _ & _ & _ & _ & ->)|(_ & _ & ->)]; eexists; reflexivity.
  - intros data offset Hle. unfold deserialize_instruction.
    apply Nat.leb_le in Hle. rewrite Hle. reflexivity.
Qed.

Lemma serialize_instruction_Ok (instr : Instruction) (chunk : bytes) :
  serialize_instruction instr = Ok chunk ->
  valid_instruction instr /\ length chunk = encoded_size instr.
Proof.
  destruct instr as [v| | |]; cbn [serialize_instruction]; intros H.
  - unfold to_bytes_big in H.
    destruct (v <? 0) eqn:E1; [discriminate|].
    destruct (256 ^ Z.of_nat 4 <=? v) eqn:E2; [discriminate|].
    cbn [bind] in H. injection H as <-.
    apply Z.ltb_ge in E1. apply Z.leb_gt in E2.
    change (256 ^ Z.of_nat 4) with 4294967296 in E2.
    split; [cbn; lia|].
    cbn [app length encoded_size].
    rewrite ?length_rev, ?le_digits_length. reflexivity.
  - injection H as <-. split; [exact I|reflexivity].
  - injection H as <-. split; [exact I|reflexivity].
  - injection H as <-. split; [exact I|reflexivity].
Qed.

Lemma serialize_instruction_Err (instr : Instruction) (e : exn) :
  serialize_instruction instr = Err e ->
  e = OverflowError /\ ~ valid_instruction instr.
Proof.
  destruct instr as [v| | |]; cbn [serialize_instruction]; intros H;
    try discriminate.
  unfold to_bytes_big in H.
  destruct (v <? 0) eqn:E1.
  - injection H as <-. apply Z.ltb_lt in E1. split; [reflexivity|cbn; lia].
  - destruct (256 ^ Z.of_nat 4 <=? v) eqn:E2; [|discriminate].
    injection H as <-. apply Z.leb_le in E2.
    change (256 ^ Z.of_nat 4) with 4294967296 in E2.
    split; [reflexivity|cbn; lia].
Qed.

Lemma serialize_program_Ok (P : list Instruction) (code : bytes) :
  serialize_program P = Ok code ->
  Forall valid_instruction P /\
  length code = list_sum (map encoded_size P).
Proof.
  revert code. induction P as [|i P IH]; cbn [serialize_program]; intros code H.
  - injection H as <-. split; [constructor|reflexivity].
  - destruct (serialize_instruction i) as [chunk|] eqn:Hc; [|discriminate].
    cbn [bind] in H.
    destruct (serialize_program P) as [tail|]; [|discriminate].
    cbn [bind] in H. injection H as <-.
    destruct (serialize_instruction_Ok _ _ Hc) as [Hv Hl].
    destruct (IH tail eq_refl) as [HP Ht].
    split; [constructor; assumption|].
    rewrite length_app, Hl, Ht. reflexivity.
Qed.

(** X3. serialize_program returns a buffer exactly when every PUSH4
    operand lies in [0, 2^32 - 1]; otherwise the only exception it raises is
    the OverflowError of int.to_bytes. *)
Theorem serialize_program_succeeds_iff_valid (P : list Instruction) :
  ((exists code, serialize_program P = Ok code)
   <-> Forall valid_instruction P)
  /\ (forall e, serialize_program P = Err e -> e = OverflowError).
Proof.
  split; [split|].
  - intros [code H]. exact (proj1 (serialize_program_Ok P code H)).
  - apply serialize_program_valid.
  - induction P as [|i P IH]; cbn [serialize_program]; intros e H;
      [discriminate|].
    destruct (serialize_instruction i) as [chunk|e'] eqn:Hc.
    + cbn [bind] in H. destruct (serialize_program P) as [tail|e''].
      * discriminate.
      * cbn [bind] in H. injection H as <-. apply IH. reflexivity.
    + cbn [bind] in H. injection H as <-.
      exact (proj1 (serialize_instruction_Err _ _ Hc)).
Qed.

(** X4. The encoding of a program is 5 bytes per PUSH4 and 1 byte per
    ADD, MUL or BYTE. *)
Theorem serialize_program_length (P : list Instruction) (code : bytes) :
  serialize_program P = Ok code ->
  length code = list_sum (map encoded_size P).
Proof.
  intros H. exact (proj2 (serialize_program_Ok P code H)).
Qed.

Lemma serialize_program_length_witness :
  length [x01; x00; x00; x00; x07; x02; x04]
  = list_sum (map encoded_size [PUSH4 7; ADD; BYTE]).
Proof.
  apply (serialize_program_length [PUSH4 7; ADD; BYTE]
           [x01; x00; x00; x00; x07; x02; x04]).
  reflexivity.
Defined.

Lemma deserialize_program_of_serialize (P : list Instruction) (code : bytes) :
  serialize_program P = Ok code -> deserialize_program code = Ok P.
Proof.
  intros H. pose proof (proj1 (serialize_program_Ok P code H)) as Hv.
  apply (deserialize_loop_roundtrip P Hv [] code [] H).
Qed.

(** X5. The encoding is unambiguous: two programs with the same encoding
    are the same program. *)
Theorem serialize_program_injective (P Q : list Instruction) (code : bytes) :
  serialize_program P = Ok code -> serialize_program Q = Ok code -> P = Q.
Proof.
  intros HP HQ.
  apply deserialize_program_of_serialize in HP, HQ.
  rewrite HP in HQ. injection HQ as HQ. exact HQ.
Qed.

Lemma serialize_program_injective_witness :
  [PUSH4 1; ADD] = [PUSH4 1; ADD].
Proof.
  apply (serialize_program_injective [PUSH4 1; ADD] [PUSH4 1; ADD]
           [x01; x00; x00; x00; x01; x02]); reflexivity.
Defined.

Lemma deserialize_program_Ok (data : bytes) (P : list Instruction) :
  deserialize_program data = Ok P ->
  serialize_program P = Ok data /\ Forall valid_instruction P.
Proof.
  intros H.
  assert (Hs : serialize_program P = Ok data).
  { destruct (deserialize_loop_outcome data 0 [] (Nat.le_0_l _) eq_refl)
      as [(P' & E & Hs)|(off & P0 & _ & _ & [(op & _ & _ & _ & _ & _ & E)|(_ & _ & E)])];
      fold (deserialize_program data) in E; rewrite H in E;
      [injection E as <-; exact Hs|discriminate|discriminate]. }
  split; [exact Hs|exact (proj1 (serialize_program_Ok P data Hs))].
Qed.

(** X6. Decoding distributes over concatenation of decodable buffers: if
    two buffers decode to P and Q, their concatenation decodes to P ++ Q.
    Every decoded program has in-range PUSH4 operands. *)
Theorem deserialize_program_app (c1 c2 : bytes) (P Q : list Instruction) :
  deserialize_program c1 = Ok P ->
  deserialize_program c2 = Ok Q ->
  deserialize_program (c1 ++ c2) = Ok (P ++ Q) /\
  Forall valid_instruction (P ++ Q).
Proof.
  intros H1 H2.
  destruct (deserialize_program_Ok _ _ H1) as [S1 V1].
  destruct (deserialize_program_Ok _ _ H2) as [S2 V2].
  split; [|apply Forall_app; split; assumption].
  apply deserialize_program_of_serialize.
  rewrite serialize_program_app, S1, S2. reflexivity.
Qed.

Lemma deserialize_program_app_witness :
  deserialize_program ([x01; x00; x00; x00; x07] ++ [x02; x04])
  = Ok ([PUSH4 7] ++ [ADD; BYTE]) /\
  Forall valid_instruction ([PUSH4 7] ++ [ADD; BYTE]).
Proof.
  apply (deserialize_program_app [x01; x00; x00; x00; x07] [x02; x04]);
    reflexivity.
Defined.

(* ===================================================================== *)
(** * More on the reference machine                                       *)
(* ===================================================================== *)

Lemma check_stack_Ok (s : list Z) (i : nat) :
  check_stack i s = Ok tt -> valid_stack s.
Proof.
  revert i. induction s as [|v s IH]; intros i H; [constructor|].
  cbn [check_stack] in H.
  destruct ((0 <=? v) && (v <=? UINT64_MAX)) eqn:E; [|discriminate].
  apply andb_true_iff in E. destruct E as [E1 E2].
  apply Z.leb_le in E1, E2. constructor; [split; assumption|].
  exact (IH _ H).
Qed.

Lemma new_VMState_Ok (s : list Z) (st : VMState) :
  new_VMState s = Ok st -> st = mkVMState s /\ valid_stack s.
Proof.
  unfold new_VMState. destruct (check_stack 0 s) as [[]|] eqn:E; [|discriminate].
  cbn [bind]. intros H. injection H as <-.
  split; [reflexivity|exact (check_stack_Ok _ _ E)].
Qed.

Lemma new_VMState_valid (s : list Z) :
  valid_stack s -> new_VMState s = Ok (mkVMState s).
Proof.
  intros H. unfold new_VMState. rewrite (check_stack_valid _ _ H). reflexivity.
Qed.

Lemma check_stack_rejects (pre post : list Z) (v : Z) (i : nat) :
  valid_stack pre -> ~ (0 <= v <= UINT64_MAX) ->
  check_stack i (pre ++ v :: post) = Err (ValueError_Stack (i + length pre) v).
Proof.
  intros Hpre Hv. revert i.
  induction Hpre as [|x pre Hx _ IH]; intros i; cbn [app check_stack length].
  - replace ((0 <=? v) && (v <=? UINT64_MAX)) with false.
    + rewrite Nat.add_0_r. reflexivity.
    + symmetry. apply andb_false_iff.
      destruct (Z.leb_spec 0 v); [right; apply Z.leb_gt; lia|left; reflexivity].
  - replace ((0 <=? x) && (x <=? UINT64_MAX)) with true
      by (symmetry; apply andb_true_iff; split; apply Z.leb_le; lia).
    rewrite IH. f_equal. f_equal. lia.
Qed.

(** One step on a valid state: a PUSH4 grows the stack by one, an operator
    with two operands shrinks it by one, and the new stack is valid. *)
Lemma execute_step (s : list Z) (instr : Instruction) :
  valid_stack s -> valid_instruction instr ->
  match instr with
  | PUSH4 _ => True
  | _ => (2 <= length s)%nat
  end ->
  exists s',
    execute (mkVMState s) instr = Ok (mkVMState s') /\
    valid_stack s' /\
    length s' = match instr with
                | PUSH4 _ => S (length s)
                | _ => (length s - 1)%nat
                end.
Proof.
  intros Hs Hi Hd. destruct instr as [v| | |].
  - exists (s ++ [v]). rewrite (execute_PUSH4_valid (mkVMState s)) by exact Hs.
    cbn [valid_instruction] in Hi. split; [reflexivity|]. split.
    + apply valid_stack_snoc; [exact Hs|]. rewrite UINT64_MAX_val. lia.
    + rewrite length_app. cbn. lia.
  - destruct (two_on_top s Hd) as (rest & a & b & ->).
    exists (rest ++ [(a + b) mod 2 ^ 64]).
    split; [apply execute_ADD_valid; exact Hs|]. split.
    + apply valid_stack_snoc.
      * unfold valid_stack in Hs. rewrite Forall_app in Hs. exact (proj1 Hs).
      * rewrite UINT64_MAX_val.
        pose proof (Z.mod_pos_bound (a + b) (2 ^ 64)). lia.
    + rewrite !length_app. cbn. lia.
  - destruct (two_on_top s Hd) as (rest & a & b & ->).
    exists (rest ++ [(a * b) mod 2 ^ 64]).
    split; [apply execute_MUL_valid; exact Hs|]. split.
    + apply valid_stack_snoc.
      * unfold valid_stack in Hs. rewrite Forall_app in Hs. exact (proj1 Hs).
      * rewrite UINT64_MAX_val.
        pose proof (Z.mod_pos_bound (a * b) (2 ^ 64)). lia.
    + rewrite !length_app. cbn. lia.
  - destruct (two_on_top s Hd) as (rest & x & i & ->).
    exists (rest ++ [if 8 <=? i then 0 else big_endian_byte x i]).
    split; [apply execute_BYTE_valid; exact Hs|]. split.
    + apply valid_stack_snoc.
      * unfold valid_stack in Hs. rewrite Forall_app in Hs. exact (proj1 Hs).
      * rewrite UINT64_MAX_val. destruct (8 <=? i); [lia|].
        unfold big_endian_byte.
        pose proof (Z.mod_pos_bound (x / 256 ^ (7 - i)) 256). lia.
    + rewrite !length_app. cbn. lia.
Qed.

Lemma execute_from_depth (P : list Instruction) (s : list Z) :
  valid_stack s -> Forall valid_instruction P ->
  match stack_depth_after (length s) P with
  | Some d =>
      exists s',
        execute_from (mkVMState s) P = Ok (mkVMState s') /\
        length s' = d /\ valid_stack s'
  | None =>
      exists msg, execute_from (mkVMState s) P = Err (StackUnderflow msg)
  end.
Proof.
  intros Hs HP. revert s Hs.
  induction HP as [|instr P Hi _ IH]; intros s Hs.
  - exists s. repeat split. exact Hs.
  - cbn [stack_depth_after execute_from].
    destruct instr as [v| | |].
    + destruct (execute_step s (PUSH4 v) Hs Hi I) as (s' & -> & Hv' & Hl).
      cbn [bind]. rewrite <- Hl. apply IH. exact Hv'.
    + destruct (length s <? 2)%nat eqn:E.
      * apply Nat.ltb_lt in E.
        rewrite (execute_underflow (mkVMState s)) by assumption.
        eexists. reflexivity.
      * apply Nat.ltb_ge in E.
        destruct (execute_step s ADD Hs Hi E) as (s' & -> & Hv' & Hl).
        cbn [bind]. rewrite <- Hl. apply IH. exact Hv'.
    + destruct (length s <? 2)%nat eqn:E.
      * apply Nat.ltb_lt in E.
        rewrite (execute_underflow (mkVMState s)) by assumption.
        eexists. reflexivity.
      * apply Nat.ltb_ge in E.
        destruct (execute_step s MUL Hs Hi E) as (s' & -> & Hv' & Hl).
        cbn [bind]. rewrite <- Hl. apply IH. exact Hv'.
    + destruct (length s <? 2)%nat eqn:E.
      * apply Nat.ltb_lt in E.
        rewrite (execute_underflow (mkVMState s)) by assumption.
        eexists. reflexivity.
      * apply Nat.ltb_ge in E.
        destruct (execute_step s BYTE Hs Hi E) as (s' & -> & Hv' & Hl).
        cbn [bind]. rewrite <- Hl. apply IH. exact Hv'.
Qed.

(** X7. Whether a run of execute_program fails depends on the shape of the
    program and the depth of the initial stack only, never on the values:
    from a valid initial stack and with in-range PUSH4 operands, the run
    succeeds exactly when no operator is reached at depth below 2; it then
    ends at the depth the shape predicts with every element in
    [0, 2^64 - 1]; otherwise it raises StackUnderflow, and nothing else. *)
Theorem execute_program_depth (P : list Instruction) (s : list Z) :
  valid_stack s -> Forall valid_instruction P ->
  match stack_depth_after (length s) P with
  | Some d =>
      exists st,
        execute_program P (Some s) = Ok st /\
        length (stack st) = d /\ valid_stack (stack st)
  | None =>
      exists msg, execute_program P (Some s) = Err (StackUnderflow msg)
  end.
Proof.
  intros Hs HP. unfold execute_program.
  rewrite (new_VMState_valid s Hs). cbn [bind].
  pose proof (execute_from_depth P s Hs HP) as H.
  destruct (stack_depth_after (length s) P).
  - destruct H as (s' & E & Hl & Hv). exists (mkVMState s').
    repeat split; assumption.
  - exact H.
Qed.

Lemma execute_program_depth_witness :
  exists st,
    execute_program [PUSH4 3; PUSH4 4; ADD; PUSH4 5] (Some [1]) = Ok st /\
    length (stack st) = 3%nat /\ valid_stack (stack st).
Proof.
  apply (execute_program_depth [PUSH4 3; PUSH4 4; ADD; PUSH4 5] [1]).
  - repeat constructor; vm_compute; discriminate.
  - repeat constructor; cbn; lia.
Defined.

Lemma execute_from_valid (P : list Instruction) (st st' : VMState) :
  valid_stack (stack st) -> Forall valid_instruction P ->
  execute_from st P = Ok st' -> valid_stack (stack st').
Proof.
  destruct st as [s]. cbn [stack]. intros Hs HP H.
  pose proof (execute_from_depth P s Hs HP) as Hd.
  destruct (stack_depth_after (length s) P).
  - destruct Hd as (s' & E & _ & Hv). rewrite E in H. injection H as <-.
    exact Hv.
  - destruct Hd as (msg & E). rewrite E in H. discriminate.
Qed.

Lemma execute_program_app_eq (P Q : list Instruction)
  (initial_stack : option (list Z)) :
  Forall valid_instruction P ->
  execute_program (P ++ Q) initial_stack
  = (st <- execute_program P initial_stack ;;
     execute_program Q (Some (stack st))).
Proof.
  intros HP. unfold execute_program.
  destruct (new_VMState match initial_stack with Some s => s | None => [] end)
    as [st0|e] eqn:E0; cbn [bind]; [|reflexivity].
  destruct (new_VMState_Ok _ _ E0) as [-> Hv0].
  rewrite execute_from_app.
  destruct (execute_from (mkVMState _) P) as [st|e] eqn:E; cbn [bind];
    [|reflexivity].
  pose proof (execute_from_valid P (mkVMState _) st Hv0 HP E) as Hv.
  rewrite (new_VMState_valid _ Hv). cbn [bind]. destruct st. reflexivity.
Qed.

(** X8. Running P ++ Q is running P and then Q from the stack P left, for
    every program P with in-range PUSH4 operands and every initial stack;
    a failure of P is the failure of the whole run. *)
Theorem execute_program_app (P Q : list Instruction)
  (initial_stack : option (list Z)) :
  Forall valid_instruction P ->
  execute_program (P ++ Q) initial_stack
  = (st <- execute_program P initial_stack ;;
     execute_program Q (Some (stack st))).
Proof. apply execute_program_app_eq. Qed.

Lemma execute_program_app_witness :
  execute_program ([PUSH4 3; PUSH4 4] ++ [ADD]) None
  = (st <- execute_program [PUSH4 3; PUSH4 4] None ;;
     execute_program [ADD] (Some (stack st))).
Proof.
  apply (execute_program_app [PUSH4 3; PUSH4 4] [ADD] None).
  repeat constructor; cbn; lia.
Defined.

(** X9. An initial stack holding a value outside [0, 2^64 - 1] makes
    execute_program raise ValueError for the first such element, whatever
    the program is, the empty program included: no instruction runs. *)
Theorem execute_program_rejects_initial_stack (P : list Instruction)
  (pre post : list Z) (v : Z) :
  valid_stack pre -> ~ (0 <= v <= UINT64_MAX) ->
  execute_program P (Some (pre ++ v :: post))
  = Err (ValueError_Stack (length pre) v).
Proof.
  intros Hpre Hv. unfold execute_program, new_VMState.
  rewrite (check_stack_rejects pre post v 0 Hpre Hv). reflexivity.
Qed.

Lemma execute_program_rejects_initial_stack_witness :
  execute_program [] (Some ([5] ++ (-1) :: [7]))
  = Err (ValueError_Stack (length [5]) (-1)).
Proof.
  apply (execute_program_rejects_initial_stack [] [5] [7] (-1)).
  - repeat constructor; vm_compute; discriminate.
  - intros [H _]. lia.
Defined.

(** X10. The first failing instruction ends the run: when a prefix with
    in-range operands leaves fewer than two elements and the next
    instruction is ADD, MUL or BYTE, execute_program raises that operator's
    StackUnderflow, whatever instructions follow it. *)
Theorem execute_program_aborts_at_underflow (P1 P2 : list Instruction)
  (op : Instruction) (initial_stack : option (list Z)) (st : VMState) :
  Forall valid_instruction P1 ->
  op = ADD \/ op = MUL \/ op = BYTE ->
  execute_program P1 initial_stack = Ok st ->
  (length (stack st) < 2)%nat ->
  execute_program (P1 ++ op :: P2) initial_stack
  = Err (StackUnderflow (underflow_message op)).
Proof.
  intros HP Hop Hrun Hlen.
  rewrite (execute_program_app_eq P1 (op :: P2) initial_stack HP), Hrun.
  cbn [bind].
  assert (Hv : valid_stack (stack st)).
  { unfold execute_program in Hrun.
    destruct (new_VMState match initial_stack with Some s => s | None => [] end)
      as [st0|] eqn:E0; cbn [bind] in Hrun; [|discriminate].
    destruct (new_VMState_Ok _ _ E0) as [-> Hv0].
    exact (execute_from_valid P1 (mkVMState _) st Hv0 HP Hrun). }
  unfold execute_program. rewrite (new_VMState_valid _ Hv).
  cbn [bind execute_from].
  rewrite (execute_underflow (mkVMState (stack st))) by assumption.
  destruct Hop as [->|[->| ->]]; reflexivity.
Qed.

Lemma execute_program_aborts_at_underflow_witness :
  execute_program ([PUSH4 7] ++ ADD :: [PUSH4 1; PUSH4 2; MUL]) None
  = Err (StackUnderflow (underflow_message ADD)).
Proof.
  apply (execute_program_aborts_at_underflow
           [PUSH4 7] [PUSH4 1; PUSH4 2; MUL] ADD None (mkVMState [7])).
  - repeat constructor; cbn; lia.
  - left. reflexivity.
  - reflexivity.
  - cbn. lia.
Defined.

(* ===================================================================== *)
(** * More on compiled expressions                                        *)
(* ===================================================================== *)

(** X11. The compiler is correct: for every expression tree and every
    valid stack, the bytecode of the tree decodes and its execution pushes
    exactly one value on top of the untouched stack, the value of the tree,
    where Add and Mul wrap modulo 2^64 and Byte(v, i) is 0 for i >= 8 and
    otherwise the byte at big-endian position i of v. *)
Theorem compile_expr_correct (e : Expr) (s : list Z) :
  valid_expr e -> valid_stack s ->
  exists code,
    compile_expr e = Ok code /\
    execute_bytecode code (Some s) = Ok (mkVMState (s ++ [eval e])).
Proof.
  intros He Hs.
  destruct (compile_expr_to_instructions_runs e He) as (P & E & VP & R).
  destruct (serialize_program_valid P VP) as [code Hc].
  exists code. split; [unfold compile_expr; rewrite E; exact Hc|].
  unfold execute_bytecode.
  rewrite (deserialize_program_of_serialize P code Hc). cbn [bind].
  unfold execute_program. rewrite (new_VMState_valid s Hs). cbn [bind].
  apply R. exact Hs.
Qed.

Lemma compile_expr_correct_witness :
  exists code,
    compile_expr (Add (Const 0xFFFFFFFF) (Mul (Const 2) (Const 3))) = Ok code /\
    execute_bytecode code (Some [9])
    = Ok (mkVMState ([9] ++ [eval (Add (Const 0xFFFFFFFF)
                                       (Mul (Const 2) (Const 3)))])).
Proof.
  apply (compile_expr_correct
           (Add (Const 0xFFFFFFFF) (Mul (Const 2) (Const 3))) [9]).
  - cbn. unfold UINT32_MAX. lia.
  - repeat constructor; vm_compute; discriminate.
Defined.

Lemma compile_expr_to_instructions_size (e : Expr)
  (P : list Instruction) :
  compile_expr_to_instructions e = Ok P ->
  length P = (2 * operators e + 1)%nat /\
  list_sum (map encoded_size P) = (6 * operators e + 5)%nat.
Proof.
  revert P. induction e as [v|l IHl r IHr|l IHl r IHr|l IHl r IHr];
    intros P H; cbn [compile_expr_to_instructions] in H.
  - unfold new_PUSH4 in H.
    destruct ((0 <=? v) && (v <=? 4294967295)); [|discriminate].
    cbn [bind] in H. injection H as <-. split; reflexivity.
  - destruct (compile_expr_to_instructions l) as [Pl|]; [|discriminate].
    cbn [bind] in H.
    destruct (compile_expr_to_instructions r) as [Pr|]; [|discriminate].
    cbn [bind] in H. injection H as <-.
    destruct (IHl Pl eq_refl) as [L1 L2]. destruct (IHr Pr eq_refl) as [R1 R2].
    rewrite !length_app, !map_app, !list_sum_app, L1, L2, R1, R2.
    cbn [operators length map list_sum encoded_size fold_right]. split; lia.
  - destruct (compile_expr_to_instructions l) as [Pl|]; [|discriminate].
    cbn [bind] in H.
    destruct (compile_expr_to_instructions r) as [Pr|]; [|discriminate].
    cbn [bind] in H. injection H as <-.
    destruct (IHl Pl eq_refl) as [L1 L2]. destruct (IHr Pr eq_refl) as [R1 R2].
    rewrite !length_app, !map_app, !list_sum_app, L1, L2, R1, R2.
    cbn [operators length map list_sum encoded_size fold_right]. split; lia.
  - destruct (compile_expr_to_instructions l) as [Pl|]; [|discriminate].
    cbn [bind] in H.
    destruct (compile_expr_to_instructions r) as [Pr|]; [|discriminate].
    cbn [bind] in H. injection H as <-.
    destruct (IHl Pl eq_refl) as [L1 L2]. destruct (IHr Pr eq_refl) as [R1 R2].
    rewrite !length_app, !map_app, !list_sum_app, L1, L2, R1, R2.
    cbn [operators length map list_sum encoded_size fold_right]. split; lia.
Qed.

(** X12. An expression with k operator nodes compiles to 2k + 1
    instructions (k operators after k + 1 PUSH4) and to 6k + 5 bytes. *)
Theorem compile_expr_size (e : Expr) (P : list Instruction) (code : bytes) :
  compile_expr_to_instructions e = Ok P ->
  compile_expr e = Ok code ->
  length P = (2 * operators e + 1)%nat /\
  length code = (6 * operators e + 5)%nat.
Proof.
  intros HP Hc. destruct (compile_expr_to_instructions_size e P HP) as [H1 H2].
  split; [exact H1|].
  unfold compile_expr in Hc. rewrite HP in Hc. cbn [bind] in Hc.
  rewrite (proj2 (serialize_program_Ok P code Hc)). exact H2.
Qed.

Lemma compile_expr_size_witness :
  length [PUSH4 1; PUSH4 2; ADD] = (2 * operators (Add (Const 1) (Const 2)) + 1)%nat /\
  length [x01; x00; x00; x00; x01; x01; x00; x00; x00; x02; x02]
  = (6 * operators (Add (Const 1) (Const 2)) + 5)%nat.
Proof.
  apply (compile_expr_size (Add (Const 1) (Const 2))); reflexivity.
Defined.

(* ===================================================================== *)
(** * More on the enumeration                                             *)
(* ===================================================================== *)

Lemma enumerate_expressions_closed (d : nat) (constants : list Z) :
  Forall in_uint32 constants ->
  enumerate_expressions d constants
  = (fst (enumerate_expressions d constants), None) /\
  enumerate_expressions (S d) constants
  = (flat_map operations_on
       (list_prod (fst (enumerate_expressions d constants))
                  (fst (enumerate_expressions d constants)))
     ++ map Const constants, None).
Proof.
  intros Hc.
  assert (E : enumerate_expressions d constants
              = (fst (enumerate_expressions d constants), None)).
  { rewrite <- (enumerate_expressions_completes d constants Hc).
    destruct (enumerate_expressions d constants); reflexivity. }
  split; [exact E|].
  rewrite (enumerate_expressions_S d constants _ E).
  rewrite gen_for_constants_valid by exact Hc. reflexivity.
Qed.

Lemma length_flat_map_operations (l : list (Expr * Expr)) :
  length (flat_map operations_on l) = (3 * length l)%nat.
Proof.
  induction l as [|p l IH]; [reflexivity|].
  cbn [flat_map operations_on app length]. rewrite IH. lia.
Qed.

(** X13. With n in-range constants the enumeration yields n expressions
    at depth 0 and, at depth d + 1, three per ordered pair of depth-d
    expressions plus the n leaves: 3 * N(d)^2 + n. *)
Theorem enumerate_expressions_count (d : nat) (constants : list Z) :
  Forall in_uint32 constants ->
  length (fst (enumerate_expressions 0 constants)) = length constants /\
  length (fst (enumerate_expressions (S d) constants))
  = (3 * (length (fst (enumerate_expressions d constants))
          * length (fst (enumerate_expressions d constants)))
     + length constants)%nat.
Proof.
  intros Hc. split.
  - cbn [enumerate_expressions]. rewrite gen_for_constants_valid by exact Hc.
    cbn [fst]. apply length_map.
  - rewrite (proj2 (enumerate_expressions_closed d constants Hc)). cbn [fst].
    rewrite length_app, length_flat_map_operations, length_prod, length_map.
    reflexivity.
Qed.

Lemma enumerate_expressions_count_witness :
  length (fst (enumerate_expressions 0 [0; 1])) = length [0; 1] /\
  length (fst (enumerate_expressions 2 [0; 1]))
  = (3 * (length (fst (enumerate_expressions 1 [0%Z; 1%Z]))
          * length (fst (enumerate_expressions 1 [0%Z; 1%Z])))
     + length [0%Z; 1%Z])%nat.
Proof.
  apply (enumerate_expressions_count 1 [0; 1]).
  repeat constructor; vm_compute; discriminate.
Defined.

Lemma in_operations (e : Expr) (l1 l2 : list Expr) :
  In e (flat_map operations_on (list_prod l1 l2)) <->
  exists l r,
    In l l1 /\ In r l2 /\ (e = Add l r \/ e = Mul l r \/ e = Byte l r).
Proof.
  rewrite in_flat_map. split.
  - intros ([l r] & Hp & He). apply in_prod_iff in Hp. destruct Hp as [Hl Hr].
    exists l, r. split; [exact Hl|]. split; [exact Hr|].
    apply in_operations_on. exact He.
  - intros (l & r & Hl & Hr & He). exists (l, r).
    split; [apply in_prod_iff; split; assumption|].
    cbn. destruct He as [->|[->| ->]]; auto.
Qed.

Lemma in_enumerate_expressions (d : nat) (constants : list Z) (e : Expr) :
  Forall in_uint32 constants ->
  In e (fst (enumerate_expressions d constants)) <->
  (height e <= d)%nat /\ leaves_in constants e.
Proof.
  intros Hc. revert e. induction d as [|d IH]; intros e.
  - cbn [enumerate_expressions]. rewrite gen_for_constants_valid by exact Hc.
    cbn [fst]. rewrite in_map_iff. split.
    + intros (c & <- & Hin). split; [cbn; lia|exact Hin].
    + intros [Hh Hl]. destruct e as [c|l r|l r|l r]; cbn [height] in Hh;
        try lia.
      exists c. split; [reflexivity|exact Hl].
  - rewrite (proj2 (enumerate_expressions_closed d constants Hc)). cbn [fst].
    rewrite in_app_iff, in_operations, in_map_iff. split.
    + intros [(l & r & Hl & Hr & He)|(c & <- & Hin)].
      * apply IH in Hl, Hr. destruct Hl as [Hl1 Hl2], Hr as [Hr1 Hr2].
        destruct He as [->|[->| ->]]; cbn [height leaves_in];
          (split; [lia|split; assumption]).
      * split; [cbn; lia|exact Hin].
    + intros [Hh Hl]. destruct e as [c|l r|l r|l r];
        cbn [height leaves_in] in Hh, Hl.
      * right. exists c. split; [reflexivity|exact Hl].
      * left. exists l, r. destruct Hl as [Hl1 Hl2].
        split; [apply IH; split; [lia|exact Hl1]|].
        split; [apply IH; split; [lia|exact Hl2]|]. auto.
      * left. exists l, r. destruct Hl as [Hl1 Hl2].
        split; [apply IH; split; [lia|exact Hl1]|].
        split; [apply IH; split; [lia|exact Hl2]|]. auto.
      * left. exists l, r. destruct Hl as [Hl1 Hl2].
        split; [apply IH; split; [lia|exact Hl1]|].
        split; [apply IH; split; [lia|exact Hl2]|]. auto.
Qed.

(** X14. The enumeration is exhaustive and exact: with in-range constants,
    an expression is yielded at depth d if and only if its height is at
    most d and every leaf is one of the constants.  In particular each
    depth repeats everything the depths below it yield. *)
Theorem enumerate_expressions_exhaustive (d : nat) (constants : list Z) :
  Forall in_uint32 constants ->
  (forall e,
      In e (fst (enumerate_expressions d constants)) <->
      (height e <= d)%nat /\ leaves_in constants e)
  /\ (forall e,
         In e (fst (enumerate_expressions d constants)) ->
         In e (fst (enumerate_expressions (S d) constants))).
Proof.
  intros Hc. split.
  - intros e. apply in_enumerate_expressions. exact Hc.
  - intros e He. apply (in_enumerate_expressions d constants e Hc) in He.
    apply (in_enumerate_expressions (S d) constants e Hc).
    destruct He as [Hh Hl]. split; [lia|exact Hl].
Qed.

Lemma enumerate_expressions_exhaustive_witness :
  (forall e,
      In e (fst (enumerate_expressions 2 [0; 1; 7; 8])) <->
      (height e <= 2)%nat /\ leaves_in [0; 1; 7; 8] e)
  /\ (forall e,
         In e (fst (enumerate_expressions 2 [0; 1; 7; 8])) ->
         In e (fst (enumerate_expressions 3 [0; 1; 7; 8]))).
Proof.
  apply (enumerate_expressions_exhaustive 2 [0; 1; 7; 8]).
  repeat constructor; vm_compute; discriminate.
Defined.

Lemma leaves_in_valid (constants : list Z) (e : Expr) :
  Forall in_uint32 constants -> leaves_in constants e -> valid_expr e.
Proof.
  intros Hc. induction e as [c|l IHl r IHr|l IHl r IHr|l IHl r IHr];
    cbn [leaves_in valid_expr].
  - intros Hin. rewrite Forall_forall in Hc. exact (Hc c Hin).
  - intros [H1 H2]. split; [apply IHl|apply IHr]; assumption.
  - intros [H1 H2]. split; [apply IHl|apply IHr]; assumption.
  - intros [H1 H2]. split; [apply IHl|apply IHr]; assumption.
Qed.

Lemma gen_for_yield_Ok {A B} (f : A -> result B) (l : list A)
  (k : Generator B) :
  Forall (fun x => exists b, f x = Ok b) l ->
  exists bs,
    map Ok bs = map f l /\
    gen_for l (fun x k' => gen_yield (f x) k') k = (bs ++ fst k, snd k).
Proof.
  induction 1 as [|x l [b Hb] _ (bs & Hm & IH)]; cbn [gen_for map].
  - exists []. split; [reflexivity|]. destruct k; reflexivity.
  - exists (b :: bs). rewrite IH, Hb. cbn [map gen_yield fst snd app].
    rewrite Hm. split; reflexivity.
Qed.

Lemma compile_expr_valid (e : Expr) :
  valid_expr e ->
  exists code,
    compile_expr e = Ok code /\
    execute_bytecode code None = Ok (mkVMState [eval e]).
Proof.
  intros He.
  destruct (compile_expr_to_instructions_runs e He) as (P & E & VP & R).
  destruct (serialize_program_valid P VP) as [code Hc].
  exists code. split; [unfold compile_expr; rewrite E; exact Hc|].
  unfold execute_bytecode.
  rewrite (deserialize_program_of_serialize P code Hc). cbn [bind].
  unfold execute_program. cbn [new_VMState check_stack bind].
  apply (R [] (Forall_nil _)).
Qed.

Lemma enumerate_expression_programs_from (constants : list Z)
  (depths : list nat) :
  Forall in_uint32 constants ->
  exists codes,
    gen_for depths (fun depth k =>
      gen_iter (enumerate_expressions depth constants) (fun expr k' =>
        gen_yield (compile_expr expr) k') k) gen_done
    = (codes, None) /\
    map Ok codes
    = map compile_expr
        (flat_map (fun depth => fst (enumerate_expressions depth constants))
           depths).
Proof.
  intros Hc. induction depths as [|d ds (codes & IH & Hm)]; cbn [gen_for].
  - exists []. split; reflexivity.
  - rewrite IH. unfold gen_iter.
    rewrite (enumerate_expressions_completes d constants Hc).
    destruct (gen_for_yield_Ok compile_expr
                (fst (enumerate_expressions d constants)) (codes, None))
      as (bs & Hb & ->).
    + apply Forall_forall. intros e He.
      apply (in_enumerate_expressions d constants e Hc) in He.
      destruct (compile_expr_valid e (leaves_in_valid _ _ Hc (proj2 He)))
        as (code & E & _).
      exists code. exact E.
    + exists (bs ++ codes). cbn [fst snd flat_map]. split; [reflexivity|].
      rewrite !map_app, Hb, Hm. reflexivity.
Qed.

(** X15. With in-range constants, enumerate_expression_programs runs to
    its end and yields, depth by depth from 0 to max_depth and in
    enumeration order, the bytecode of every enumerated expression; each of
    these buffers decodes and runs on the reference machine without error,
    leaving exactly one value. *)
Theorem enumerate_expression_programs_run (max_depth : nat)
  (constants : list Z) :
  Forall in_uint32 constants ->
  exists codes,
    enumerate_expression_programs max_depth constants = (codes, None) /\
    map Ok codes
    = map compile_expr
        (flat_map (fun depth => fst (enumerate_expressions depth constants))
           (seq 0 (max_depth + 1))) /\
    Forall (fun code =>
              exists v, execute_bytecode code None = Ok (mkVMState [v]))
           codes.
Proof.
  intros Hc.
  destruct (enumerate_expression_programs_from constants
              (seq 0 (max_depth + 1)) Hc) as (codes & E & Hm).
  exists codes. split; [exact E|]. split; [exact Hm|].
  apply Forall_forall. intros code Hin.
  assert (Hin' : In (Ok code) (map Ok codes)) by (apply in_map; exact Hin).
  rewrite Hm in Hin'. apply in_map_iff in Hin'.
  destruct Hin' as (e & He & Hine).
  apply in_flat_map in Hine. destruct Hine as (d & _ & Hd).
  apply (in_enumerate_expressions d constants e Hc) in Hd.
  destruct (compile_expr_valid e (leaves_in_valid _ _ Hc (proj2 Hd)))
    as (code' & E' & Hrun).
  rewrite E' in He. injection He as ->. exists (eval e). exact Hrun.
Qed.

Lemma enumerate_expression_programs_run_witness :
  exists codes,
    enumerate_expression_programs 1 MINIMAL_CONSTANTS = (codes, None) /\
    map Ok codes
    = map compile_expr
        (flat_map (fun depth =>
                     fst (enumerate_expressions depth MINIMAL_CONSTANTS))
           (seq 0 (1 + 1))) /\
    Forall (fun code =>
              exists v, execute_bytecode code None = Ok (mkVMState [v]))
           codes.
Proof.
  apply (enumerate_expression_programs_run 1 MINIMAL_CONSTANTS).
  repeat constructor; vm_compute; discriminate.
Defined.

(* ===================================================================== *)
(** * The targeted suites                                                 *)
(* ===================================================================== *)

(** Validity of a literal stack of small values. *)
Ltac valid_stack_tac :=
  unfold valid_stack; cbn [app];
  repeat (apply Forall_cons; [rewrite UINT64_MAX_val; lia|]);
  apply Forall_nil.

Lemma new_PUSH4_valid (v : Z) :
  0 <= v <= 0xFFFFFFFF -> new_PUSH4 v = Ok (PUSH4 v).
Proof.
  intros H. unfold new_PUSH4.
  replace ((0 <=? v) && (v <=? 0xFFFFFFFF)) with true; [reflexivity|].
  symmetry. apply andb_true_iff. split; apply Z.leb_le; lia.
Qed.

(** Two operands pushed on the empty stack, then one operator. *)
Lemma execute_bytecode_two_operands (a b : Z) (op : Instruction)
  (code : bytes) :
  0 <= a <= 0xFFFFFFFF -> 0 <= b <= 0xFFFFFFFF ->
  serialize_program [PUSH4 a; PUSH4 b; op] = Ok code ->
  execute_bytecode code None = execute (mkVMState [a; b]) op.
Proof.
  intros Ha Hb Hc. unfold execute_bytecode.
  rewrite (deserialize_program_of_serialize _ _ Hc). cbn [bind].
  unfold execute_program. cbn [new_VMState check_stack bind execute_from].
  rewrite (execute_PUSH4_valid (mkVMState [])) by constructor.
  cbn [bind stack app].
  rewrite (execute_PUSH4_valid (mkVMState [a])).
  - cbn [bind stack app]. destruct (execute (mkVMState [a; b]) op); reflexivity.
  - valid_stack_tac.
Qed.

Lemma serialize_two_operands (a b : Z) (op : Instruction) :
  0 <= a <= 0xFFFFFFFF -> 0 <= b <= 0xFFFFFFFF ->
  op = ADD \/ op = MUL \/ op = BYTE ->
  exists code, serialize_program [PUSH4 a; PUSH4 b; op] = Ok code.
Proof.
  intros Ha Hb Hop. apply serialize_program_valid.
  constructor; [exact Ha|]. constructor; [exact Hb|].
  constructor; [|constructor].
  destruct Hop as [->|[->| ->]]; exact I.
Qed.

Lemma low_byte_of_masked (value k : Z) :
  0 <= k <= 3 ->
  ((value mod 2 ^ 32) / 256 ^ k) mod 256 = (value / 256 ^ k) mod 256.
Proof.
  intros Hk.
  assert (Hsplit : 2 ^ 32 = 256 ^ k * (256 * 256 ^ (3 - k))).
  { rewrite <- Z.pow_succ_r, <- Z.pow_add_r by lia.
    replace (k + Z.succ (3 - k)) with 4 by lia. reflexivity. }
  assert (Hpos : 0 < 256 ^ k) by (apply Z.pow_pos_nonneg; lia).
  rewrite Hsplit.
  rewrite (Z.rem_mul_r value (256 ^ k) (256 * 256 ^ (3 - k)))
    by (try apply Z.mul_pos_pos; try apply Z.pow_pos_nonneg; lia).
  rewrite (Z.mul_comm (256 ^ k)), Z.div_add by lia.
  rewrite (Z.div_small (value mod 256 ^ k))
    by (apply Z.mod_pos_bound; exact Hpos).
  rewrite Z.add_0_l.
  rewrite (Z.rem_mul_r (value / 256 ^ k) 256 (256 ^ (3 - k)))
    by (try apply Z.pow_pos_nonneg; lia).
  rewrite (Z.mul_comm 256), Z.mod_add by lia.
  apply Z.mod_mod. lia.
Qed.

Lemma byte_boundary_program_result (value index : Z) :
  0 <= index <= 0xFFFFFFFF ->
  exists code,
    (a <- new_PUSH4 (Z.land value 0xFFFFFFFF) ;;
     b <- new_PUSH4 index ;;
     serialize_program [a; b; BYTE]) = Ok code /\
    execute_bytecode code None
    = Ok (mkVMState [if (4 <=? index) && (index <? 8)
                     then (value / 256 ^ (7 - index)) mod 256
                     else 0]).
Proof.
  intros Hi.
  assert (Hm : Z.land value 0xFFFFFFFF = value mod 2 ^ 32).
  { change 0xFFFFFFFF with (Z.ones 32). apply Z.land_ones. lia. }
  pose proof (Z.mod_pos_bound value (2 ^ 32) ltac:(lia)) as Hb.
  rewrite Hm.
  assert (Ha : 0 <= value mod 2 ^ 32 <= 0xFFFFFFFF) by lia.
  destruct (serialize_two_operands _ _ BYTE Ha Hi) as [code Hc]; [auto|].
  exists code. rewrite (new_PUSH4_valid _ Ha), (new_PUSH4_valid _ Hi).
  cbn [bind]. split; [exact Hc|].
  rewrite (execute_bytecode_two_operands _ _ BYTE code Ha Hi Hc).
  pose proof (execute_BYTE_valid [] (value mod 2 ^ 32) index
                ltac:(valid_stack_tac)) as HB.
  cbn [app] in HB. rewrite HB. do 2 f_equal. f_equal.
  destruct (8 <=? index) eqn:E8.
  - apply Z.leb_le in E8.
    replace (index <? 8) with false by (symmetry; apply Z.ltb_ge; lia).
    rewrite andb_false_r. reflexivity.
  - apply Z.leb_gt in E8.
    replace (index <? 8) with true by (symmetry; apply Z.ltb_lt; lia).
    rewrite andb_true_r. unfold big_endian_byte.
    destruct (4 <=? index) eqn:E4.
    + apply Z.leb_le in E4. apply low_byte_of_masked. lia.
    + apply Z.leb_gt in E4. rewrite Z.div_small; [reflexivity|].
      split; [lia|]. apply Z.lt_le_trans with (2 ^ 32); [lia|].
      change (2 ^ 32) with (256 ^ 4). apply Z.pow_le_mono_r; lia.
Qed.








(* ===================================================================== *)
(** * The reference as an oracle                                          *)
(* ===================================================================== *)

Lemma deserialize_program_Err (data : bytes) (e : exn) :
  deserialize_program data = Err e -> exists why, e = InvalidInstruction why.
Proof.
  intros H.
  destruct (deserialize_loop_outcome data 0 [] (Nat.le_0_l _) eq_refl)
    as [(P & E & _)|(off & P0 & _ & _ & [(op & _ & _ & _ & _ & _ & E)|(_ & _ & E)])];
    fold (deserialize_program data) in E; rewrite H in E;
    [discriminate|injection E as ->|injection E as ->]; eexists; reflexivity.
Qed.

Lemma execute_with_spec_cases (bytecode : bytes) :
  match deserialize_program bytecode with
  | Err _ => execute_with_spec bytecode = Ok (ExceptionThrown "invalid bytecode")
  | Ok P =>
      (exists s,
          execute_program P None = Ok (mkVMState s) /\ valid_stack s /\
          execute_with_spec bytecode = Ok (Success s))
      \/ (exists msg,
             execute_program P None = Err (StackUnderflow msg) /\
             execute_with_spec bytecode
             = Ok (ExceptionThrown ("StackUnderflow('" ++ msg ++ "')")%string))
  end.
Proof.
  unfold execute_with_spec.
  destruct (deserialize_program bytecode) as [P|e] eqn:Hd; cbn [bind].
  - destruct (deserialize_program_Ok _ _ Hd) as [_ HP].
    pose proof (execute_from_depth P [] (Forall_nil _) HP) as H.
    unfold execute_program. cbn [new_VMState check_stack bind].
    destruct (stack_depth_after (length (@nil Z)) P).
    + destruct H as (s & E & _ & Hv). left. exists s. rewrite E.
      cbn [bind stack]. repeat split; assumption.
    + destruct H as (msg & E). right. exists msg. rewrite E.
      split; reflexivity.
  - destruct (deserialize_program_Err _ _ Hd) as [why ->]. reflexivity.
Qed.

Lemma execute_with_spec_answer (bytecode : bytes) :
  exists r,
    execute_with_spec bytecode = Ok r /\
    isinstance r cls_Crash = false /\
    (r = ExceptionThrown "invalid bytecode"
     <-> exists e, deserialize_program bytecode = Err e) /\
    (forall s, r = Success s -> valid_stack s).
Proof.
  pose proof (execute_with_spec_cases bytecode) as H.
  destruct (deserialize_program bytecode) as [P|e].
  - destruct H as [(s & _ & Hv & ->)|(msg & _ & ->)].
    + exists (Success s). split; [reflexivity|]. split; [reflexivity|].
      split; [split; [discriminate|intros [e He]; discriminate]|].
      intros s' E. injection E as <-. exact Hv.
    + eexists. split; [reflexivity|]. split; [reflexivity|].
      split; [split; [discriminate|intros [e He]; discriminate]|].
      discriminate.
  - exists (ExceptionThrown "invalid bytecode").
    split; [exact H|]. split; [reflexivity|].
    split; [split; [intros _; exists e; reflexivity|reflexivity]|].
    discriminate.
Qed.

(** X18. execute_with_spec never lets an exception escape and never
    answers Crash: on every buffer it returns Success with a stack of
    values in [0, 2^64 - 1], or ExceptionThrown; and its answer is
    ExceptionThrown("invalid bytecode") exactly when the buffer does not
    decode. *)
Theorem execute_with_spec_total (bytecode : bytes) :
  exists r,
    execute_with_spec bytecode = Ok r /\
    isinstance r cls_Crash = false /\
    (r = ExceptionThrown "invalid bytecode"
     <-> exists e, deserialize_program bytecode = Err e) /\
    (forall s, r = Success s -> valid_stack s).
Proof. exact (execute_with_spec_answer bytecode). Qed.

(* ===================================================================== *)
(** * Candidate v4 against the reference                                  *)
(* ===================================================================== *)

Lemma v4_loop_step (bytecode : bytes) (offset : nat) (stack0 : list Z) :
  v4.loop bytecode offset stack0 =
  if (offset <? length bytecode)%nat then
    match v4.step bytecode offset stack0 with
    | Returns (stack', offset') => v4.loop bytecode offset' stack'
    | Raises e => Raises e
    end
  else Returns stack0.
Proof.
  funelim (v4.loop bytecode offset stack0).
  all: repeat match goal with
         | H : (?a <? ?b)%nat = _ |- context [(?a <? ?b)%nat] => rewrite H
         | H : v4.step ?d ?o ?s = _ |- context [v4.step ?d ?o ?s] => rewrite H
         end; reflexivity.
Qed.

Lemma py_pop_snoc (l : list Z) (v : Z) : py_pop (l ++ [v]) = Returns (v, l).
Proof. unfold py_pop. rewrite pop_snoc. reflexivity. Qed.

Lemma shift_byte (x i : Z) :
  i < 8 ->
  Z.land (Z.shiftr x ((7 - i) * 8)) 0xFF = big_endian_byte x i.
Proof.
  intros Hi. unfold big_endian_byte.
  change 0xFF with (Z.ones 8). rewrite Z.land_ones by lia.
  rewrite Z.shiftr_div_pow2 by lia.
  rewrite (Z.mul_comm (7 - i) 8), Z.pow_mul_r by lia. reflexivity.
Qed.

(** One turn of the loop of v4 against one decoding step followed by one
    execution step of the reference. *)
Lemma v4_step_simulates (data : bytes) (offset : nat) (s : list Z) :
  (offset < length data)%nat -> valid_stack s ->
  match v4.step data offset s with
  | Returns (s', offset') =>
      exists instr,
        deserialize_instruction data offset = Ok (instr, offset') /\
        execute (mkVMState s) instr = Ok (mkVMState s')
  | Raises e =>
      is_SloppyVMException e = true /\
      ((exists e', deserialize_instruction data offset = Err e')
       \/ (exists instr offset' msg,
              deserialize_instruction data offset = Ok (instr, offset') /\
              execute (mkVMState s) instr = Err (StackUnderflow msg)))
  end.
Proof.
  intros Hin Hs.
  destruct (deserialize_instruction_inside data offset Hin) as (op & Hn & ->).
  unfold v4.step, py_getitem.
  rewrite (getitem_nonneg data (Z.of_nat offset) op)
    by (try rewrite Nat2Z.id; try lia; exact Hn).
  cbn [obind].
  destruct (Byte.eqb op OP_PUSH4).
  { destruct (length data <? offset + 5)%nat.
    - split; [reflexivity|]. left. eexists. reflexivity.
    - eexists. split; [reflexivity|].
      rewrite (execute_PUSH4_valid (mkVMState s)) by exact Hs. reflexivity. }
  destruct (Byte.eqb op OP_ADD).
  { destruct (length s <? 2)%nat eqn:E.
    - apply Nat.ltb_lt in E. split; [reflexivity|]. right.
      exists ADD, (offset + 1)%nat. eexists. split; [reflexivity|].
      rewrite (execute_underflow (mkVMState s)) by assumption. reflexivity.
    - apply Nat.ltb_ge in E. destruct (two_on_top s E) as (rest & a & b & ->).
      pose proof (execute_ADD_valid rest a b Hs) as Hx.
      replace (rest ++ [a; b]) with ((rest ++ [a]) ++ [b])
        by (rewrite <- app_assoc; reflexivity).
      rewrite py_pop_snoc. cbn [obind]. rewrite py_pop_snoc. cbn [obind].
      exists ADD. split; [reflexivity|].
      rewrite <- app_assoc. cbn [app]. rewrite Hx.
      rewrite land_UINT64_MAX, (Z.add_comm b a). reflexivity. }
  destruct (Byte.eqb op OP_MUL).
  { destruct (length s <? 2)%nat eqn:E.
    - apply Nat.ltb_lt in E. split; [reflexivity|]. right.
      exists MUL, (offset + 1)%nat. eexists. split; [reflexivity|].
      rewrite (execute_underflow (mkVMState s)) by assumption. reflexivity.
    - apply Nat.ltb_ge in E. destruct (two_on_top s E) as (rest & a & b & ->).
      pose proof (execute_MUL_valid rest a b Hs) as Hx.
      replace (rest ++ [a; b]) with ((rest ++ [a]) ++ [b])
        by (rewrite <- app_assoc; reflexivity).
      rewrite py_pop_snoc. cbn [obind]. rewrite py_pop_snoc. cbn [obind].
      exists MUL. split; [reflexivity|].
      rewrite <- app_assoc. cbn [app]. rewrite Hx.
      rewrite land_UINT64_MAX, (Z.mul_comm b a). reflexivity. }
  destruct (Byte.eqb op OP_BYTE).
  { destruct (length s <? 2)%nat eqn:E.
    - apply Nat.ltb_lt in E. split; [reflexivity|]. right.
      exists BYTE, (offset + 1)%nat. eexists. split; [reflexivity|].
      rewrite (execute_underflow (mkVMState s)) by assumption. reflexivity.
    - apply Nat.ltb_ge in E. destruct (two_on_top s E) as (rest & x & i & ->).
      pose proof (execute_BYTE_valid rest x i Hs) as Hx.
      replace (rest ++ [x; i]) with ((rest ++ [x]) ++ [i])
        by (rewrite <- app_assoc; reflexivity).
      rewrite py_pop_snoc. cbn [obind]. rewrite py_pop_snoc. cbn [obind].
      destruct (8 <=? i) eqn:E8.
      + exists BYTE. split; [reflexivity|].
        rewrite <- app_assoc. cbn [app]. exact Hx.
      + apply Z.leb_gt in E8. unfold py_rshift.
        replace ((7 - i) * 8 <? 0) with false
          by (symmetry; apply Z.ltb_ge; lia).
        cbn [obind]. rewrite shift_byte by exact E8.
        exists BYTE. split; [reflexivity|].
        rewrite <- app_assoc. cbn [app]. exact Hx. }
  split; [reflexivity|]. left. eexists. reflexivity.
Qed.

Lemma deserialize_loop_extends (data : bytes) (offset : nat)
  (acc P : list Instruction) :
  deserialize_loop data offset acc = Ok P -> exists rest, P = acc ++ rest.
Proof.
  funelim (deserialize_loop data offset acc); intros HP.
  - injection HP as <-. exists []. rewrite app_nil_r. reflexivity.
  - match goal with IH : forall P0 : list Instruction, _ |- _ =>
      destruct (IH _ HP) as [rest ->] end.
    exists (instr :: rest). rewrite <- app_assoc. reflexivity.
  - discriminate.
Qed.

Lemma execute_valid_step (s s' : list Z) (instr : Instruction) :
  valid_stack s -> valid_instruction instr ->
  execute (mkVMState s) instr = Ok (mkVMState s') -> valid_stack s'.
Proof.
  intros Hs Hi H.
  apply (execute_from_valid [instr] (mkVMState s) (mkVMState s') Hs).
  - constructor; [exact Hi|constructor].
  - cbn [execute_from]. rewrite H. reflexivity.
Qed.

Lemma v4_loop_simulates (data : bytes) (offset : nat) (s : list Z) :
  forall acc : list Instruction,
    valid_stack s ->
    execute_from (mkVMState []) acc = Ok (mkVMState s) ->
    match v4.loop data offset s with
    | Returns s' =>
        exists P,
          deserialize_loop data offset acc = Ok P /\
          execute_from (mkVMState []) P = Ok (mkVMState s')
    | Raises e =>
        is_SloppyVMException e = true /\
        forall P,
          deserialize_loop data offset acc = Ok P ->
          exists msg, execute_from (mkVMState []) P = Err (StackUnderflow msg)
    end.
Proof.
  funelim (v4.loop data offset s); intros acc Hs Hacc.
  - (* past the end: both are done *)
    exists acc. split; [|exact Hacc].
    rewrite deserialize_loop_step.
    match goal with E : (_ <? _)%nat = false |- _ => rewrite E end.
    reflexivity.
  - (* one more instruction *)
    pose proof (proj1 (Nat.ltb_lt _ _) Hlt) as Hin.
    pose proof (v4_step_simulates bytecode offset stack0 Hin Hs) as Hsim.
    rewrite Hstep in Hsim. destruct Hsim as (instr & Hd & Hx).
    destruct (deserialize_instruction_valid _ _ _ _ Hd) as [Hvi _].
    pose proof (execute_valid_step _ _ _ Hs Hvi Hx) as Hs'.
    assert (Hacc' : execute_from (mkVMState []) (acc ++ [instr])
                    = Ok (mkVMState stack')).
    { rewrite execute_from_app, Hacc. cbn [bind execute_from].
      rewrite Hx. reflexivity. }
    match goal with
    | IH : forall acc0 : list Instruction, _ |- _ =>
        pose proof (IH (acc ++ [instr]) Hs' Hacc') as Hrec
    end.
    rewrite (deserialize_loop_step bytecode offset acc), Hlt, Hd.
    exact Hrec.
  - (* the candidate raises *)
    pose proof (proj1 (Nat.ltb_lt _ _) Hlt) as Hin.
    pose proof (v4_step_simulates bytecode offset stack0 Hin Hs) as Hsim.
    match goal with E : v4.step _ _ _ = Raises _ |- _ => rewrite E in Hsim end.
    destruct Hsim as [Hsl [[e' Hd]|(instr & offset' & msg & Hd & Hx)]].
    + split; [exact Hsl|]. intros P HP.
      rewrite deserialize_loop_step, Hlt, Hd in HP. discriminate.
    + split; [exact Hsl|]. intros P HP.
      rewrite deserialize_loop_step, Hlt, Hd in HP.
      destruct (deserialize_loop_extends _ _ _ _ HP) as [rest ->].
      exists msg. rewrite <- app_assoc, execute_from_app, Hacc.
      cbn [bind app execute_from]. rewrite Hx. reflexivity.
Qed.

Lemma v4_matches_reference (bytecode : bytes) :
  exists r,
    execute_with_spec bytecode = Ok r /\
    outcomes_match r (execute_with_implementation bytecode v4.execute) /\
    isinstance (execute_with_implementation bytecode v4.execute) cls_Crash
    = false.
Proof.
  pose proof (v4_loop_simulates bytecode 0 [] [] (Forall_nil _) eq_refl) as H.
  fold (v4.execute bytecode) in H. fold (deserialize_program bytecode) in H.
  pose proof (execute_with_spec_cases bytecode) as Hspec.
  unfold execute_with_implementation.
  destruct (v4.execute bytecode) as [s'|e].
  - destruct H as (P & Hd & Hrun). rewrite Hd in Hspec.
    assert (Hp : execute_program P None = Ok (mkVMState s')).
    { unfold execute_program. cbn [new_VMState check_stack bind]. exact Hrun. }
    destruct Hspec as [(s & E & _ & ->)|(msg & E & _)];
      rewrite Hp in E; [|discriminate].
    injection E as <-. exists (Success s'). repeat split.
  - destruct H as [Hsl H]. rewrite Hsl.
    destruct (deserialize_program bytecode) as [P|e'].
    + destruct (H P eq_refl) as [msg Hrun].
      assert (Hp : execute_program P None = Err (StackUnderflow msg)).
      { unfold execute_program. cbn [new_VMState check_stack bind].
        exact Hrun. }
      destruct Hspec as [(s & E & _)|(msg' & _ & ->)];
        [rewrite Hp in E; discriminate|].
      eexists. repeat split.
    + eexists. split; [exact Hspec|]. repeat split.
Qed.

(** X19. Candidate v4 is indistinguishable from the reference: on every
    byte buffer, well-formed or not, the outcome of v4 through
    execute_with_implementation matches the outcome of execute_with_spec
    under both compare_results (the same stack on success, an
    ExceptionThrown whenever the reference raises), and v4 never crashes. *)
Theorem v4_agrees_with_reference (bytecode : bytes) :
  exists r,
    execute_with_spec bytecode = Ok r /\
    Fuzzing.compare_results r
      (execute_with_implementation bytecode v4.execute) = true /\
    Fuzzer.compare_results r
      (execute_with_implementation bytecode v4.execute) = true /\
    isinstance (execute_with_implementation bytecode v4.execute) cls_Crash
    = false.
Proof.
  destruct (v4_matches_reference bytecode) as (r & Hr & Hm & Hc).
  exists r. split; [exact Hr|].
  assert (Hcmp : forall a b, outcomes_match a b ->
                 Fuzzing.compare_results a b = true /\
                 Fuzzer.compare_results a b = true).
  { intros [m1|m1|s1] [m2|m2|s2]; cbn; intros Hab; try contradiction;
      try (split; reflexivity).
    subst s2. split; apply list_eq_true; reflexivity. }
  destruct (Hcmp _ _ Hm) as [H1 H2]. repeat split; assumption.
Qed.

(* ===================================================================== *)
(** * Candidates v3 and v1 against the reference                          *)
(* ===================================================================== *)

Lemma v3_boundary_index_7 (b0 b1 b2 b3 : byte) :
  v3.execute [x01; b0; b1; b2; b3; x01; x00; x00; x00; x07; x04]
  = Returns [0].
Proof. vm_compute. reflexivity. Qed.

Lemma serialize_index_7 (m : Z) :
  0 <= m <= 0xFFFFFFFF ->
  exists b0 b1 b2 b3,
    serialize_program [PUSH4 m; PUSH4 7; BYTE]
    = Ok [x01; b0; b1; b2; b3; x01; x00; x00; x00; x07; x04].
Proof.
  intros Hm. cbn [serialize_program serialize_instruction].
  rewrite (to_bytes_big_fits m 4)
    by (change (256 ^ Z.of_nat 4) with 4294967296; lia).
  cbn [bind le_digits rev app].
  do 4 eexists. reflexivity.
Qed.

(** X20. Candidate v3 fails the byte-boundary test at index 7 for every
    test value whose lowest byte is not zero: the reference leaves that
    byte (value mod 256), v3 leaves 0, and both compare_results report a
    mismatch. *)
Theorem v3_mismatch_at_index_7 (value : Z) :
  value mod 256 <> 0 ->
  exists code,
    (a <- new_PUSH4 (Z.land value 0xFFFFFFFF) ;;
     b <- new_PUSH4 7 ;;
     serialize_program [a; b; BYTE]) = Ok code /\
    execute_with_spec code = Ok (Success [value mod 256]) /\
    execute_with_implementation code v3.execute = Success [0] /\
    Fuzzing.compare_results (Success [value mod 256])
      (execute_with_implementation code v3.execute) = false /\
    Fuzzer.compare_results (Success [value mod 256])
      (execute_with_implementation code v3.execute) = false.
Proof.
  intros Hlow.
  destruct (byte_boundary_program_result value 7 ltac:(lia))
    as (code & Hc & Hrun).
  exists code. split; [exact Hc|].
  change ((4 <=? 7) && (7 <? 8)) with true in Hrun. cbv iota in Hrun.
  change (256 ^ (7 - 7)) with 1 in Hrun. rewrite Z.div_1_r in Hrun.
  assert (Hspec : execute_with_spec code = Ok (Success [value mod 256])).
  { unfold execute_with_spec. unfold execute_bytecode in Hrun.
    destruct (deserialize_program code) as [P|]; cbn [bind] in *;
      [|discriminate].
    rewrite Hrun. reflexivity. }
  assert (Hm : Z.land value 0xFFFFFFFF = value mod 2 ^ 32).
  { change 0xFFFFFFFF with (Z.ones 32). apply Z.land_ones. lia. }
  pose proof (Z.mod_pos_bound value (2 ^ 32) ltac:(lia)) as Hb.
  assert (Ha : 0 <= value mod 2 ^ 32 <= 0xFFFFFFFF) by lia.
  rewrite Hm, (new_PUSH4_valid _ Ha), (new_PUSH4_valid 7) in Hc by lia.
  cbn [bind] in Hc.
  destruct (serialize_index_7 _ Ha) as (b0 & b1 & b2 & b3 & Hs).
  rewrite Hs in Hc. injection Hc as <-.
  assert (Himpl : execute_with_implementation
                    [x01; b0; b1; b2; b3; x01; x00; x00; x00; x07; x04]
                    v3.execute = Success [0]).
  { unfold execute_with_implementation. rewrite v3_boundary_index_7.
    reflexivity. }
  split; [exact Hspec|]. split; [exact Himpl|]. rewrite Himpl.
  cbn. replace (value mod 256 =? 0) with false
    by (symmetry; apply Z.eqb_neq; exact Hlow).
  split; reflexivity.
Qed.

Lemma v3_mismatch_at_index_7_witness :
  exists code,
    (a <- new_PUSH4 (Z.land 0x123456789ABCDEF 0xFFFFFFFF) ;;
     b <- new_PUSH4 7 ;;
     serialize_program [a; b; BYTE]) = Ok code /\
    execute_with_spec code = Ok (Success [0x123456789ABCDEF mod 256]) /\
    execute_with_implementation code v3.execute = Success [0] /\
    Fuzzing.compare_results (Success [0x123456789ABCDEF mod 256])
      (execute_with_implementation code v3.execute) = false /\
    Fuzzer.compare_results (Success [0x123456789ABCDEF mod 256])
      (execute_with_implementation code v3.execute) = false.
Proof.
  apply (v3_mismatch_at_index_7 0x123456789ABCDEF).
  vm_compute. discriminate.
Defined.

Lemma v1_loop_step (bytecode : bytes) (offset : nat) (stack0 : list Z) :
  v1.loop bytecode offset stack0 =
  if (offset <? length bytecode)%nat then
    match v1.step bytecode offset stack0 with
    | Returns (stack', offset') => v1.loop bytecode offset' stack'
    | Raises e => Raises e
    end
  else Returns stack0.
Proof.
  funelim (v1.loop bytecode offset stack0).
  all: repeat match goal with
         | H : (?a <? ?b)%nat = _ |- context [(?a <? ?b)%nat] => rewrite H
         | H : v1.step ?d ?o ?s = _ |- context [v1.step ?d ?o ?s] => rewrite H
         end; reflexivity.
Qed.

Lemma pop_Ok {A} (l r : list A) (v : A) :
  pop l = Ok (v, r) -> l = r ++ [v].
Proof.
  revert r. induction l as [|x l IH]; intros r H; [discriminate|].
  cbn [pop] in H. destruct l as [|y l'].
  - injection H as <- <-. reflexivity.
  - destruct (pop (y :: l')) as [[v' r']|]; cbn [bind] in H; [|discriminate].
    injection H as <- <-. rewrite (IH r' eq_refl). reflexivity.
Qed.

Lemma py_pop_Returns (l r : list Z) (v : Z) :
  py_pop l = Returns (v, r) -> l = r ++ [v].
Proof.
  unfold py_pop. destruct (pop l) as [[v' r']|] eqn:E; [|discriminate].
  intros H. injection H as <- <-. exact (pop_Ok _ _ _ E).
Qed.

Lemma py_pop_Raises (l : list Z) (e : py_exn) :
  py_pop l = Raises e -> e = Py_IndexError "pop from empty list".
Proof.
  unfold py_pop. destruct (pop l) as [[v' r']|]; [discriminate|].
  intros H. injection H as <-. reflexivity.
Qed.

Lemma from_bytes_little_nonneg (bs : bytes) : 0 <= from_bytes_little bs.
Proof. exact (proj1 (le_value_bound bs)). Qed.

(** One turn of the loop of v1 keeps the stack non-negative, and what it
    raises is an IndexError or a RuntimeError. *)
Lemma v1_step_outcome (data : bytes) (offset : nat) (s : list Z) :
  (offset < length data)%nat -> Forall (fun v => 0 <= v) s ->
  match v1.step data offset s with
  | Returns (s', _) => Forall (fun v => 0 <= v) s'
  | Raises e => exists msg, e = Py_IndexError msg \/ e = Py_RuntimeError msg
  end.
Proof.
  intros Hin Hs. unfold v1.step, py_getitem.
  destruct (getitem_nth_error data offset Hin) as (op & _ & ->).
  cbn [obind].
  destruct (Byte.eqb op OP_PUSH4).
  { apply Forall_app. split; [exact Hs|].
    constructor; [apply from_bytes_little_nonneg|constructor]. }
  destruct (Byte.eqb op OP_ADD).
  { destruct (py_pop s) as [[a s1]|e] eqn:E1; cbn [obind];
      [|eexists; left; exact (py_pop_Raises _ _ E1)].
    destruct (py_pop s1) as [[b s2]|e] eqn:E2; cbn [obind];
      [|eexists; left; exact (py_pop_Raises _ _ E2)].
    apply py_pop_Returns in E1, E2. subst s s1.
    rewrite !Forall_app in Hs. destruct Hs as [[H2 Hb] Ha].
    inversion Ha; inversion Hb; subst.
    apply Forall_app. split; [exact H2|]. constructor; [lia|constructor]. }
  destruct (Byte.eqb op OP_MUL).
  { destruct (py_pop s) as [[a s1]|e] eqn:E1; cbn [obind];
      [|eexists; left; exact (py_pop_Raises _ _ E1)].
    destruct (py_pop s1) as [[b s2]|e] eqn:E2; cbn [obind];
      [|eexists; left; exact (py_pop_Raises _ _ E2)].
    apply py_pop_Returns in E1, E2. subst s s1.
    rewrite !Forall_app in Hs. destruct Hs as [[H2 Hb] Ha].
    inversion Ha; inversion Hb; subst.
    apply Forall_app. split; [exact H2|]. constructor; [nia|constructor]. }
  destruct (Byte.eqb op OP_BYTE).
  { destruct (py_pop s) as [[x s1]|e] eqn:E1; cbn [obind];
      [|eexists; left; exact (py_pop_Raises _ _ E1)].
    destruct (py_pop s1) as [[i s2]|e] eqn:E2; cbn [obind];
      [|eexists; left; exact (py_pop_Raises _ _ E2)].
    apply py_pop_Returns in E1, E2. subst s s1.
    rewrite !Forall_app in Hs. destruct Hs as [[H2 Hi] Hx].
    inversion Hx; inversion Hi; subst.
    destruct (8 <=? i).
    - apply Forall_app. split; [exact H2|]. constructor; [lia|constructor].
    - unfold py_rshift.
      replace (i * 8 <? 0) with false by (symmetry; apply Z.ltb_ge; lia).
      cbn [obind]. apply Forall_app. split; [exact H2|].
      constructor; [|constructor].
      apply Z.land_nonneg. right. lia. }
  eexists. right. reflexivity.
Qed.

Lemma v1_loop_outcome (data : bytes) (offset : nat) (s : list Z) :
  Forall (fun v => 0 <= v) s ->
  match v1.loop data offset s with
  | Returns s' => Forall (fun v => 0 <= v) s'
  | Raises e => exists msg, e = Py_IndexError msg \/ e = Py_RuntimeError msg
  end.
Proof.
  funelim (v1.loop data offset s); intros Hs.
  - exact Hs.
  - pose proof (proj1 (Nat.ltb_lt _ _) Hlt) as Hin.
    pose proof (v1_step_outcome bytecode offset stack0 Hin Hs) as Hstep'.
    rewrite Hstep in Hstep'.
    match goal with IH : Forall _ _ -> _ |- _ => exact (IH Hstep') end.
  - pose proof (proj1 (Nat.ltb_lt _ _) Hlt) as Hin.
    pose proof (v1_step_outcome bytecode offset stack0 Hin Hs) as Hstep'.
    match goal with E : v1.step _ _ _ = Raises _ |- _ => rewrite E in Hstep' end.
    exact Hstep'.
Qed.

(** X21. Candidate v1 never raises an exception the harness recognizes:
    on every buffer it returns a stack of non-negative integers or raises
    IndexError or RuntimeError, which execute_with_implementation reports
    as Crash.  Hence on every buffer for which the reference answers
    ExceptionThrown (undecodable, or underflowing), both compare_results
    report a mismatch for v1. *)
Theorem v1_never_signals_an_error (bytecode : bytes) :
  ((exists s,
       execute_with_implementation bytecode v1.execute = Success s /\
       Forall (fun v => 0 <= v) s)
   \/ (exists reason,
          execute_with_implementation bytecode v1.execute = Crash reason))
  /\ (forall reason,
         execute_with_spec bytecode = Ok (ExceptionThrown reason) ->
         Fuzzing.compare_results (ExceptionThrown reason)
           (execute_with_implementation bytecode v1.execute) = false /\
         Fuzzer.compare_results (ExceptionThrown reason)
           (execute_with_implementation bytecode v1.execute) = false).
Proof.
  pose proof (v1_loop_outcome bytecode 0 [] (Forall_nil _)) as H.
  fold (v1.execute bytecode) in H.
  assert (Hcases :
    (exists s, execute_with_implementation bytecode v1.execute = Success s /\
               Forall (fun v => 0 <= v) s)
    \/ (exists reason,
          execute_with_implementation bytecode v1.execute = Crash reason)).
  { unfold execute_with_implementation.
    destruct (v1.execute bytecode) as [s|e].
    - left. exists s. split; [reflexivity|exact H].
    - right. destruct H as [msg [-> | ->]]; eexists; reflexivity. }
  split; [exact Hcases|].
  intros reason _.
  destruct Hcases as [(s & -> & _)|(r & ->)]; split; reflexivity.
Qed.

(* ===================================================================== *)
(** * Statistics of a test run                                            *)
(* ===================================================================== *)

Lemma ExceptionThrown_invalid_eqb (r : ExecutionResult) :
  (match r with
   | ExceptionThrown reason => String.eqb reason "invalid bytecode"
   | _ => false
   end) = true <-> r = ExceptionThrown "invalid bytecode".
Proof.
  destruct r as [m|m|s]; try (split; discriminate).
  rewrite String.eqb_eq. split; [intros ->; reflexivity|].
  intros H. injection H as ->. reflexivity.
Qed.

(** One test: what [run_single_test] returns and what [record_test] then
    adds to the counters. *)
Lemma record_single_test (impl_func : bytes -> outcome (list Z))
  (bytecode : bytes) (stats : FuzzingStatistics) :
  exists spec_result,
    run_single_test bytecode execute_with_spec impl_func
    = Ok (spec_result, execute_with_implementation bytecode impl_func,
          Fuzzing.compare_results spec_result
            (execute_with_implementation bytecode impl_func)) /\
    let stats' :=
      record_test stats spec_result
        (execute_with_implementation bytecode impl_func)
        (Fuzzing.compare_results spec_result
           (execute_with_implementation bytecode impl_func)) in
    total_tests stats' = total_tests stats + 1 /\
    invalid_bytecodes stats'
    = invalid_bytecodes stats + (if decodes bytecode then 0 else 1) /\
    crashes stats <= crashes stats' /\
    crashes stats' - crashes stats <= bugs_found stats' - bugs_found stats /\
    bugs_found stats' - bugs_found stats <= 1 /\
    (Fuzzing.compare_results spec_result
       (execute_with_implementation bytecode impl_func) = true ->
     bugs_found stats' = bugs_found stats /\ crashes stats' = crashes stats).
Proof.
  destruct (execute_with_spec_answer bytecode) as (r & Hr & Hc & Hinv & _).
  exists r. unfold run_single_test. rewrite Hr. cbn [bind].
  split; [reflexivity|].
  set (impl := execute_with_implementation bytecode impl_func).
  cbv zeta. unfold record_test.
  cbn [total_tests invalid_bytecodes crashes bugs_found].
  split; [reflexivity|]. split.
  { unfold decodes.
    destruct (deserialize_program bytecode) as [P|e] eqn:Hd.
    - assert (Hne : r <> ExceptionThrown "invalid bytecode").
      { intros E. apply Hinv in E. destruct E as [e' E]. discriminate. }
      destruct r as [m|m|s]; try lia.
      destruct (String.eqb m "invalid bytecode") eqn:E; [|lia].
      apply String.eqb_eq in E. subst m. contradiction.
    - assert (E : r = ExceptionThrown "invalid bytecode")
        by (apply Hinv; exists e; reflexivity).
      subst r. cbn. reflexivity. }
  assert (Hcrash : isinstance impl cls_Crash = true ->
                   Fuzzing.compare_results r impl = false).
  { destruct r as [m|m|s]; destruct impl as [m'|m'|s']; cbn in *;
      try discriminate; reflexivity. }
  destruct (isinstance impl cls_Crash) eqn:Ei;
    destruct (Fuzzing.compare_results r impl) eqn:Em; cbn [negb];
    try (specialize (Hcrash eq_refl); discriminate);
    repeat split; try lia; intros; discriminate.
Qed.

Lemma run_tests_from (impl_func : bytes -> outcome (list Z))
  (bytecodes : list bytes) (stats : FuzzingStatistics) :
  exists final,
    run_tests impl_func bytecodes stats = Ok final /\
    total_tests final = total_tests stats + Z.of_nat (length bytecodes) /\
    invalid_bytecodes final
    = invalid_bytecodes stats
      + Z.of_nat (length (filter (fun b => negb (decodes b)) bytecodes)) /\
    crashes stats <= crashes final /\
    crashes final - crashes stats <= bugs_found final - bugs_found stats /\
    bugs_found final - bugs_found stats <= Z.of_nat (length bytecodes).
Proof.
  revert stats. induction bytecodes as [|b bs IH]; intros stats.
  - exists stats. cbn. repeat split; lia.
  - destruct (record_single_test impl_func b stats)
      as (r & Hrun & Ht & Hi & Hc1 & Hc2 & Hb & _).
    cbn [run_tests]. rewrite Hrun. cbn [bind].
    destruct (IH (record_test stats r
                    (execute_with_implementation b impl_func)
                    (Fuzzing.compare_results r
                       (execute_with_implementation b impl_func))))
      as (final & Hf & Ft & Fi & Fc1 & Fc2 & Fb).
    exists final. split; [exact Hf|].
    cbn [length filter]. rewrite Nat2Z.inj_succ.
    destruct (decodes b); cbn [negb length];
      rewrite ?Nat2Z.inj_succ; repeat split; lia.
Qed.


Lemma run_tests_v4_from (bytecodes : list bytes) (stats : FuzzingStatistics) :
  exists final,
    run_tests v4.execute bytecodes stats = Ok final /\
    bugs_found final = bugs_found stats /\ crashes final = crashes stats.
Proof.
  revert stats. induction bytecodes as [|b bs IH]; intros stats.
  - exists stats. repeat split.
  - destruct (record_single_test v4.execute b stats)
      as (r & Hrun & _ & _ & _ & _ & _ & Hm).
    cbn [run_tests]. rewrite Hrun. cbn [bind].
    destruct (v4_matches_reference b) as (r' & Hr' & Hmatch & _).
    unfold run_single_test in Hrun. rewrite Hr' in Hrun. cbn [bind] in Hrun.
    injection Hrun as <-.
    assert (Hcmp : Fuzzing.compare_results r'
                     (execute_with_implementation b v4.execute) = true).
    { revert Hmatch.
      destruct r' as [m1|m1|s1];
        destruct (execute_with_implementation b v4.execute) as [m2|m2|s2];
        cbn; intros Hab; try contradiction; try reflexivity.
      subst s2. apply list_eq_true. reflexivity. }
    destruct (Hm Hcmp) as [Hb Hc].
    destruct (IH (record_test stats r'
                    (execute_with_implementation b v4.execute)
                    (Fuzzing.compare_results r'
                       (execute_with_implementation b v4.execute))))
      as (final & Hf & Fb & Fc).
    exists final. split; [exact Hf|]. split; congruence.
Qed.

(** X23. A test run against candidate v4 reports nothing, whatever buffers
    the generator produces: bugs_found and crashes are both 0 at the end. *)
Theorem run_tests_v4_finds_no_bug (bytecodes : list bytes) :
  exists final,
    run_tests v4.execute bytecodes no_tests = Ok final /\
    bugs_found final = 0 /\ crashes final = 0 /\
    correct_tests final = Z.of_nat (length bytecodes).
Proof.
  destruct (run_tests_v4_from bytecodes no_tests) as (final & Hf & Hb & Hc).
  destruct (run_tests_from v4.execute bytecodes no_tests)
    as (final' & Hf' & Ft & _).
  rewrite Hf in Hf'. injection Hf' as <-.
  exists final. split; [exact Hf|].
  cbn [no_tests bugs_found crashes total_tests] in *.
  unfold correct_tests. repeat split; lia.
Qed.

(* ===================================================================== *)
(** * The comprehensive suite                                             *)
(* ===================================================================== *)

Lemma hex_digit_lower_inj (n m : nat) :
  (n < 16)%nat -> (m < 16)%nat ->
  hex_digit_lower n = hex_digit_lower m -> n = m.
Proof.
  intros Hn Hm.
  do 16 (destruct n as [|n];
         [do 16 (destruct m as [|m];
                 [intros H; first [reflexivity | discriminate H]|]); lia|]).
  lia.
Qed.

Lemma hex_cons (b : byte) (rest : bytes) :
  hex (b :: rest)
  = String (hex_digit_lower (Byte.to_nat b / 16))
      (String (hex_digit_lower (Byte.to_nat b mod 16)) (hex rest)).
Proof. reflexivity. Qed.

Lemma two_chars_inj (a b a' b' : ascii) (s s' : string) :
  String a (String b s) = String a' (String b' s') ->
  a = a' /\ b = b' /\ s = s'.
Proof. intros H. injection H as -> -> ->. repeat split. Qed.

Lemma hex_inj (c1 c2 : bytes) : hex c1 = hex c2 -> c1 = c2.
Proof.
  revert c2. induction c1 as [|b1 c1 IH]; intros [|b2 c2] H;
    try reflexivity; try discriminate.
  rewrite !hex_cons in H.
  destruct (two_chars_inj _ _ _ _ _ _ H) as (Hhi & Hlo & Hrest).
  pose proof (Byte.to_nat_bounded b1) as B1.
  pose proof (Byte.to_nat_bounded b2) as B2.
  apply hex_digit_lower_inj in Hhi;
    [|apply Nat.Div0.div_lt_upper_bound; lia
     |apply Nat.Div0.div_lt_upper_bound; lia].
  apply hex_digit_lower_inj in Hlo;
    [|apply Nat.mod_upper_bound; lia|apply Nat.mod_upper_bound; lia].
  assert (Hb : Byte.to_nat b1 = Byte.to_nat b2).
  { rewrite (Nat.div_mod_eq (Byte.to_nat b1) 16),
            (Nat.div_mod_eq (Byte.to_nat b2) 16), Hhi, Hlo. reflexivity. }
  assert (E : b1 = b2).
  { pose proof (Byte.of_to_nat b1) as E1. rewrite Hb, Byte.of_to_nat in E1.
    injection E1 as ->. reflexivity. }
  rewrite E, (IH c2 Hrest). reflexivity.
Qed.

Lemma existsb_eqb_In (h : string) (seen : list string) :
  existsb (String.eqb h) seen = true <-> In h seen.
Proof.
  rewrite existsb_exists. split.
  - intros (x & Hx & E). apply String.eqb_eq in E. subst x. exact Hx.
  - intros H. exists h. split; [exact H|apply String.eqb_refl].
Qed.

(** The loop yields, in order, the items not seen before, each once. *)
Lemma yield_unseen_spec (items : list bytes) :
  forall (seen : list string) (prev : list bytes)
         (k : list string -> Generator bytes),
    (forall c, In (hex c) seen <-> In c prev) -> NoDup prev ->
    exists new seen',
      yield_unseen items seen k = (new ++ fst (k seen'), snd (k seen')) /\
      NoDup (prev ++ new) /\
      (forall c, In c (prev ++ new) <-> In c prev \/ In c items) /\
      (forall c, In (hex c) seen' <-> In c (prev ++ new)).
Proof.
  induction items as [|b items IH]; intros seen prev k Hseen Hnd.
  - exists [], seen. cbn [yield_unseen app]. rewrite app_nil_r.
    split; [destruct (k seen); reflexivity|]. split; [exact Hnd|].
    split; [intros c; cbn; tauto|exact Hseen].
  - cbn [yield_unseen]. cbv zeta.
    destruct (existsb (String.eqb (hex b)) seen) eqn:E.
    + apply existsb_eqb_In in E. apply Hseen in E.
      destruct (IH seen prev k Hseen Hnd) as (new & seen' & H1 & H2 & H3 & H4).
      exists new, seen'. split; [exact H1|]. split; [exact H2|].
      split; [|exact H4].
      intros c. rewrite H3. cbn [In]. split; [tauto|].
      intros [H|[<-|H]]; tauto.
    + assert (Hnot : ~ In b prev).
      { intros Hin. apply Hseen in Hin. apply existsb_eqb_In in Hin.
        rewrite Hin in E. discriminate. }
      assert (Hseen' : forall c, In (hex c) (hex b :: seen)
                                 <-> In c (prev ++ [b])).
      { intros c. cbn [In]. rewrite in_app_iff, Hseen. cbn [In]. split.
        - intros [H|H]; [right; left; exact (hex_inj _ _ H)|tauto].
        - intros [H|[<-|[]]]; [tauto|left; reflexivity]. }
      assert (Hnd' : NoDup (prev ++ [b])).
      { apply NoDup_app; [exact Hnd|repeat constructor; intros []|].
        intros a Ha [<-|[]]. exact (Hnot Ha). }
      destruct (IH (hex b :: seen) (prev ++ [b]) k Hseen' Hnd')
        as (new & seen' & H1 & H2 & H3 & H4).
      exists (b :: new), seen'. rewrite H1. cbn [gen_yield fst snd app].
      rewrite <- app_assoc in H2, H3, H4. cbn [app] in H2, H3, H4.
      split; [reflexivity|]. split; [exact H2|]. split; [|exact H4].
      intros c. rewrite H3, in_app_iff. cbn [In]. tauto.
Qed.

Lemma BOUNDARY_CONSTANTS_valid : Forall in_uint32 BOUNDARY_CONSTANTS.
Proof. repeat constructor; vm_compute; discriminate. Qed.

(** Four sources that run to their end, deduplicated one after another
    with one shared set. *)
Lemma yield_unseen_four (g1 g2 g3 g4 : Generator bytes)
  (l1 l2 l3 l4 : list bytes) :
  g1 = (l1, None) -> g2 = (l2, None) -> g3 = (l3, None) -> g4 = (l4, None) ->
  exists codes,
    yield_unseen_from g1 []
      (fun seen1 =>
         yield_unseen_from g2 seen1
           (fun seen2 =>
              yield_unseen_from g3 seen2
                (fun seen3 =>
                   yield_unseen_from g4 seen3 (fun _ => gen_done))))
    = (codes, None) /\
    NoDup codes /\
    forall c, In c codes <-> In c l1 \/ In c l2 \/ In c l3 \/ In c l4.
Proof.
  intros -> -> -> ->. unfold yield_unseen_from. cbn [fst snd].
  destruct (yield_unseen_spec l1 [] []
              (fun seen1 =>
                 yield_unseen l2 seen1
                   (fun seen2 =>
                      yield_unseen l3 seen2
                        (fun seen3 =>
                           yield_unseen l4 seen3 (fun _ => gen_done)))))
    as (n1 & s1 & E1 & D1 & M1 & S1);
    [intros c; cbn; tauto|constructor|].
  rewrite E1. cbn [app] in D1, M1, S1.
  destruct (yield_unseen_spec l2 s1 n1
              (fun seen2 =>
                 yield_unseen l3 seen2
                   (fun seen3 =>
                      yield_unseen l4 seen3 (fun _ => gen_done))) S1 D1)
    as (n2 & s2 & E2 & D2 & M2 & S2).
  rewrite E2.
  destruct (yield_unseen_spec l3 s2 (n1 ++ n2)
              (fun seen3 => yield_unseen l4 seen3 (fun _ => gen_done)) S2 D2)
    as (n3 & s3 & E3 & D3 & M3 & S3).
  rewrite E3.
  destruct (yield_unseen_spec l4 s3 ((n1 ++ n2) ++ n3)
              (fun _ => gen_done) S3 D3)
    as (n4 & s4 & E4 & D4 & M4 & _).
  rewrite E4. cbn [gen_done fst snd]. rewrite !app_nil_r.
  exists (n1 ++ n2 ++ n3 ++ n4).
  split; [reflexivity|]. split.
  - rewrite !app_assoc. exact D4.
  - intros c. rewrite !app_assoc, (M4 c), (M3 c), (M2 c), (M1 c).
    cbn [In]. clear. tauto.
Qed.

(** X24. For every depth bound, generate_comprehensive_suite runs to its
    end and yields no buffer twice, and the buffers it yields are exactly
    those of the four sources: the expression programs over the boundary
    constants, the byte-boundary tests, the arithmetic-overflow tests and
    the stack-underflow tests. *)
Theorem generate_comprehensive_suite_unique (max_expr_depth : nat) :
  exists codes,
    generate_comprehensive_suite max_expr_depth = (codes, None) /\
    NoDup codes /\
    forall c,
      In c codes <->
      In c (fst (enumerate_expression_programs max_expr_depth
                   BOUNDARY_CONSTANTS))
      \/ In c (fst enumerate_byte_boundary_tests)
      \/ In c (fst enumerate_arithmetic_overflow_tests)
      \/ In c (fst enumerate_stack_underflow_tests).
Proof.
  destruct (enumerate_expression_programs_from BOUNDARY_CONSTANTS
              (seq 0 (max_expr_depth + 1)) BOUNDARY_CONSTANTS_valid)
    as (progs & Hp & _).
  fold (enumerate_expression_programs max_expr_depth BOUNDARY_CONSTANTS) in Hp.
  exact (yield_unseen_four
           (enumerate_expression_programs max_expr_depth BOUNDARY_CONSTANTS)
           enumerate_byte_boundary_tests
           enumerate_arithmetic_overflow_tests
           enumerate_stack_underflow_tests
           (fst (enumerate_expression_programs max_expr_depth
                   BOUNDARY_CONSTANTS))
           (fst enumerate_byte_boundary_tests)
           (fst enumerate_arithmetic_overflow_tests)
           (fst enumerate_stack_underflow_tests)
           (eq_trans Hp (f_equal (fun g => (fst g, @None exn)) (eq_sym Hp)))
           eq_refl eq_refl eq_refl).
Qed.

(* ===================================================================== *)
(** * Candidate v2 against the reference                                  *)
(* ===================================================================== *)

Lemma two_on_top_same_length (r : list Z) (crest : list Z) (ca cb : Z) :
  length r = length (crest ++ [ca; cb]) ->
  exists rrest ra rb,
    r = rrest ++ [ra; rb] /\ length rrest = length crest.
Proof.
  intros Hlen. rewrite length_app in Hlen. cbn [length] in Hlen.
  destruct (two_on_top r ltac:(lia)) as (rrest & ra & rb & ->).
  exists rrest, ra, rb. split; [reflexivity|].
  rewrite length_app in Hlen. cbn [length] in Hlen. lia.
Qed.

Lemma map_wrap_two (rrest crest : list Z) (ra rb ca cb : Z) :
  rrest ++ [ra; rb] = map (fun v => v mod 2 ^ 64) (crest ++ [ca; cb]) ->
  rrest = map (fun v => v mod 2 ^ 64) crest
  /\ ra = ca mod 2 ^ 64 /\ rb = cb mod 2 ^ 64.
Proof.
  rewrite map_app. cbn [map].
  replace (rrest ++ [ra; rb]) with ((rrest ++ [ra]) ++ [rb])
    by (rewrite <- app_assoc; reflexivity).
  replace (map (fun v => v mod 2 ^ 64) crest ++ [ca mod 2 ^ 64; cb mod 2 ^ 64])
    with ((map (fun v => v mod 2 ^ 64) crest ++ [ca mod 2 ^ 64])
            ++ [cb mod 2 ^ 64])
    by (rewrite <- app_assoc; reflexivity).
  intros H. apply app_inj_tail in H. destruct H as [H ->].
  apply app_inj_tail in H. destruct H as [-> ->]. repeat split.
Qed.

Lemma nonneg_two (crest : list Z) (ca cb : Z) :
  Forall (fun v => 0 <= v) (crest ++ [ca; cb]) ->
  Forall (fun v => 0 <= v) crest /\ 0 <= ca /\ 0 <= cb.
Proof.
  rewrite Forall_app. intros [H1 H2].
  inversion H2 as [|? ? Ha H3]; subst. inversion H3 as [|? ? Hb _]; subst.
  repeat split; assumption.
Qed.

Lemma nonneg_snoc (crest : list Z) (v : Z) :
  Forall (fun v => 0 <= v) crest -> 0 <= v ->
  Forall (fun v => 0 <= v) (crest ++ [v]).
Proof.
  intros H Hv. apply Forall_app. split; [exact H|].
  constructor; [exact Hv|constructor].
Qed.

(** One turn of the loop of v2 on the stack [c] against one decoding step
    followed by one execution step of the reference on a stack [r] of the
    same depth. *)
Lemma v2_step_simulates (data : bytes) (offset : nat) (r c : list Z) :
  (offset < length data)%nat -> valid_stack r ->
  Forall (fun v => 0 <= v) c -> length r = length c ->
  match v2.step data offset c with
  | Returns (c', offset') =>
      exists instr r',
        deserialize_instruction data offset = Ok (instr, offset') /\
        execute (mkVMState r) instr = Ok (mkVMState r') /\
        Forall (fun v => 0 <= v) c' /\
        length r' = length c' /\
        (instr <> BYTE -> r = map (fun v => v mod 2 ^ 64) c ->
         r' = map (fun v => v mod 2 ^ 64) c')
  | Raises e =>
      is_SloppyVMException e = true /\
      ((exists e', deserialize_instruction data offset = Err e')
       \/ (exists instr offset' msg,
              deserialize_instruction data offset = Ok (instr, offset') /\
              execute (mkVMState r) instr = Err (StackUnderflow msg)))
  end.
Proof.
  intros Hin Hr Hc Hlen.
  destruct (deserialize_instruction_inside data offset Hin) as (op & Hn & Hde).
  pose proof (deserialize_instruction_valid data offset) as Hval.
  rewrite Hde in Hval |- *. clear Hde.
  unfold v2.step, py_getitem.
  rewrite (getitem_nonneg data (Z.of_nat offset) op)
    by (try rewrite Nat2Z.id; try lia; exact Hn).
  cbn [obind].
  destruct (Byte.eqb op OP_PUSH4).
  { destruct (length data <? offset + 5)%nat.
    - split; [reflexivity|]. left. eexists. reflexivity.
    - destruct (Hval _ _ eq_refl) as [Hv _]. cbn [valid_instruction] in Hv.
      eexists. exists (r ++ [from_bytes_big
                               (slice data (offset + 1) (offset + 5))]).
      split; [reflexivity|].
      split; [apply (execute_PUSH4_valid (mkVMState r)); exact Hr|].
      split; [apply nonneg_snoc; [exact Hc|lia]|].
      split; [rewrite !length_app; cbn [length]; lia|].
      intros _ ->. rewrite map_app. cbn [map].
      rewrite (Z.mod_small _ (2 ^ 64)) by lia. reflexivity. }
  destruct (Byte.eqb op OP_ADD).
  { destruct (length c <? 2)%nat eqn:E.
    - apply Nat.ltb_lt in E. split; [reflexivity|]. right.
      exists ADD, (offset + 1)%nat. eexists. split; [reflexivity|].
      rewrite (execute_underflow (mkVMState r)) by (cbn [stack]; lia || assumption).
      reflexivity.
    - apply Nat.ltb_ge in E. destruct (two_on_top c E) as (crest & ca & cb & ->).
      destruct (two_on_top_same_length r crest ca cb Hlen)
        as (rrest & ra & rb & -> & Hl).
      destruct (nonneg_two _ _ _ Hc) as (Hc0 & Ha & Hb).
      replace (crest ++ [ca; cb]) with ((crest ++ [ca]) ++ [cb])
        by (rewrite <- app_assoc; reflexivity).
      rewrite py_pop_snoc. cbn [obind]. rewrite py_pop_snoc. cbn [obind].
      exists ADD, (rrest ++ [(ra + rb) mod 2 ^ 64]).
      split; [reflexivity|].
      split; [apply execute_ADD_valid; exact Hr|].
      split; [apply nonneg_snoc; [exact Hc0|lia]|].
      split; [rewrite !length_app; cbn [length]; lia|].
      intros _ Hw. rewrite <- app_assoc in Hw. cbn [app] in Hw.
      apply map_wrap_two in Hw. destruct Hw as (-> & -> & ->).
      rewrite map_app. cbn [map]. rewrite <- Zplus_mod, (Z.add_comm cb ca).
      reflexivity. }
  destruct (Byte.eqb op OP_MUL).
  { destruct (length c <? 2)%nat eqn:E.
    - apply Nat.ltb_lt in E. split; [reflexivity|]. right.
      exists MUL, (offset + 1)%nat. eexists. split; [reflexivity|].
      rewrite (execute_underflow (mkVMState r)) by (cbn [stack]; lia || assumption).
      reflexivity.
    - apply Nat.ltb_ge in E. destruct (two_on_top c E) as (crest & ca & cb & ->).
      destruct (two_on_top_same_length r crest ca cb Hlen)
        as (rrest & ra & rb & -> & Hl).
      destruct (nonneg_two _ _ _ Hc) as (Hc0 & Ha & Hb).
      replace (crest ++ [ca; cb]) with ((crest ++ [ca]) ++ [cb])
        by (rewrite <- app_assoc; reflexivity).
      rewrite py_pop_snoc. cbn [obind]. rewrite py_pop_snoc. cbn [obind].
      exists MUL, (rrest ++ [(ra * rb) mod 2 ^ 64]).
      split; [reflexivity|].
      split; [apply execute_MUL_valid; exact Hr|].
      split; [apply nonneg_snoc; [exact Hc0|nia]|].
      split; [rewrite !length_app; cbn [length]; lia|].
      intros _ Hw. rewrite <- app_assoc in Hw. cbn [app] in Hw.
      apply map_wrap_two in Hw. destruct Hw as (-> & -> & ->).
      rewrite map_app. cbn [map]. rewrite <- Zmult_mod, (Z.mul_comm cb ca).
      reflexivity. }
  destruct (Byte.eqb op OP_BYTE).
  { destruct (length c <? 2)%nat eqn:E.
    - apply Nat.ltb_lt in E. split; [reflexivity|]. right.
      exists BYTE, (offset + 1)%nat. eexists. split; [reflexivity|].
      rewrite (execute_underflow (mkVMState r)) by (cbn [stack]; lia || assumption).
      reflexivity.
    - apply Nat.ltb_ge in E. destruct (two_on_top c E) as (crest & ca & cb & ->).
      destruct (two_on_top_same_length r crest ca cb Hlen)
        as (rrest & ra & rb & -> & Hl).
      destruct (nonneg_two _ _ _ Hc) as (Hc0 & Ha & Hb).
      replace (crest ++ [ca; cb]) with ((crest ++ [ca]) ++ [cb])
        by (rewrite <- app_assoc; reflexivity).
      rewrite py_pop_snoc. cbn [obind]. rewrite py_pop_snoc. cbn [obind].
      pose proof (execute_BYTE_valid rrest ra rb Hr) as Hx.
      destruct (7 <=? ca).
      + exists BYTE. eexists. split; [reflexivity|]. split; [exact Hx|].
        split; [apply nonneg_snoc; [exact Hc0|lia]|].
        split; [rewrite !length_app; cbn [length]; lia|].
        intros Hne. contradiction Hne. reflexivity.
      + unfold py_rshift.
        replace (ca * 8 <? 0) with false by (symmetry; apply Z.ltb_ge; lia).
        cbn [obind].
        exists BYTE. eexists. split; [reflexivity|]. split; [exact Hx|].
        split.
        { apply nonneg_snoc; [exact Hc0|]. apply Z.land_nonneg. right. lia. }
        split; [rewrite !length_app; cbn [length]; lia|].
        intros Hne. contradiction Hne. reflexivity. }
  split; [reflexivity|]. left. eexists. reflexivity.
Qed.

Lemma v2_loop_simulates (data : bytes) (offset : nat) (c : list Z) :
  forall (r : list Z) (acc : list Instruction),
    valid_stack r -> Forall (fun v => 0 <= v) c -> length r = length c ->
    execute_from (mkVMState []) acc = Ok (mkVMState r) ->
    match v2.loop data offset c with
    | Returns c' =>
        exists P r',
          deserialize_loop data offset acc = Ok P /\
          execute_from (mkVMState []) P = Ok (mkVMState r') /\
          Forall (fun v => 0 <= v) c' /\
          length r' = length c' /\
          (~ In BYTE P -> r = map (fun v => v mod 2 ^ 64) c ->
           r' = map (fun v => v mod 2 ^ 64) c')
    | Raises e =>
        is_SloppyVMException e = true /\
        forall P,
          deserialize_loop data offset acc = Ok P ->
          exists msg, execute_from (mkVMState []) P = Err (StackUnderflow msg)
    end.
Proof.
  funelim (v2.loop data offset c); intros r acc Hr Hc Hlen Hacc.
  - (* past the end: both are done *)
    exists acc, r. split.
    { rewrite deserialize_loop_step.
      match goal with E : (_ <? _)%nat = false |- _ => rewrite E end.
      reflexivity. }
    split; [exact Hacc|]. split; [exact Hc|]. split; [exact Hlen|].
    intros _ Hw. exact Hw.
  - (* one more instruction *)
    pose proof (proj1 (Nat.ltb_lt _ _) Hlt) as Hin.
    pose proof (v2_step_simulates bytecode offset r stack0 Hin Hr Hc Hlen)
      as Hsim.
    rewrite Hstep in Hsim.
    destruct Hsim as (instr & r1 & Hd & Hx & Hc1 & Hl1 & Hw1).
    destruct (deserialize_instruction_valid _ _ _ _ Hd) as [Hvi _].
    pose proof (execute_valid_step _ _ _ Hr Hvi Hx) as Hr1.
    assert (Hacc' : execute_from (mkVMState []) (acc ++ [instr])
                    = Ok (mkVMState r1)).
    { rewrite execute_from_app, Hacc. cbn [bind execute_from].
      rewrite Hx. reflexivity. }
    match goal with
    | IH : forall (r0 : list Z) (acc0 : list Instruction), _ |- _ =>
        pose proof (IH r1 (acc ++ [instr]) Hr1 Hc1 Hl1 Hacc') as Hrec
    end.
    rewrite (deserialize_loop_step bytecode offset acc), Hlt, Hd.
    destruct (v2.loop bytecode offset' stack') as [c'|e]; [|exact Hrec].
    destruct Hrec as (P & r' & HP & Hrun & Hc' & Hl' & Hw').
    exists P, r'. split; [exact HP|]. split; [exact Hrun|].
    split; [exact Hc'|]. split; [exact Hl'|].
    intros Hfree Hw. apply Hw'; [exact Hfree|]. apply Hw1; [|exact Hw].
    intros ->. apply Hfree.
    destruct (deserialize_loop_extends _ _ _ _ HP) as [rest ->].
    rewrite !in_app_iff. left. right. left. reflexivity.
  - (* the candidate raises *)
    pose proof (proj1 (Nat.ltb_lt _ _) Hlt) as Hin.
    pose proof (v2_step_simulates bytecode offset r stack0 Hin Hr Hc Hlen)
      as Hsim.
    match goal with E : v2.step _ _ _ = Raises _ |- _ => rewrite E in Hsim end.
    destruct Hsim as [Hsl [[e' Hd]|(instr & offset' & msg & Hd & Hx)]].
    + split; [exact Hsl|]. intros P HP.
      rewrite deserialize_loop_step, Hlt, Hd in HP. discriminate.
    + split; [exact Hsl|]. intros P HP.
      rewrite deserialize_loop_step, Hlt, Hd in HP.
      destruct (deserialize_loop_extends _ _ _ _ HP) as [rest ->].
      exists msg. rewrite <- app_assoc, execute_from_app, Hacc.
      cbn [bind app execute_from]. rewrite Hx. reflexivity.
Qed.

(** The run of v2 on a whole buffer against the run of the reference. *)
Lemma v2_against_reference (bytecode : bytes) :
  match v2.execute bytecode with
  | Returns c' =>
      exists P r',
        deserialize_program bytecode = Ok P /\
        execute_program P None = Ok (mkVMState r') /\
        Forall (fun v => 0 <= v) c' /\
        length r' = length c' /\
        (~ In BYTE P -> r' = map (fun v => v mod 2 ^ 64) c')
  | Raises e =>
      is_SloppyVMException e = true /\
      forall P,
        deserialize_program bytecode = Ok P ->
        exists msg, execute_program P None = Err (StackUnderflow msg)
  end.
Proof.
  pose proof (v2_loop_simulates bytecode 0 [] [] []
                (Forall_nil _) (Forall_nil _) eq_refl eq_refl) as H.
  fold (v2.execute bytecode) in H. fold (deserialize_program bytecode) in H.
  assert (Hp : forall P, execute_program P None
                         = execute_from (mkVMState []) P).
  { intros P. unfold execute_program.
    cbn [new_VMState check_stack bind]. reflexivity. }
  destruct (v2.execute bytecode) as [c'|e].
  - destruct H as (P & r' & Hd & Hrun & Hc' & Hl' & Hw').
    exists P, r'. rewrite Hp. repeat split; try assumption.
    intros Hfree. apply Hw'; [exact Hfree|reflexivity].
  - destruct H as [Hsl H]. split; [exact Hsl|]. intros P HP.
    rewrite Hp. exact (H P HP).
Qed.

Lemma map_wrap_fixed (s : list Z) :
  Forall (fun v => 0 <= v) s ->
  (map (fun v => v mod 2 ^ 64) s = s
   <-> Forall (fun v => v <= UINT64_MAX) s).
Proof.
  rewrite UINT64_MAX_val.
  induction 1 as [|v s Hv Hs IH]; cbn [map].
  - split; [constructor|reflexivity].
  - split.
    + intros H. injection H as H1 H2. constructor; [|apply IH; exact H2].
      pose proof (Z.mod_pos_bound v (2 ^ 64) ltac:(lia)). lia.
    + intros H. inversion H as [|? ? H1 H2]; subst.
      rewrite (proj2 IH H2), Z.mod_small by lia. reflexivity.
Qed.

(** X25. Candidate v2 reports an error on exactly the buffers on which the
    reference reports one, and never crashes: when the reference answers
    ExceptionThrown (undecodable buffer or stack underflow) so does v2,
    and when the reference answers Success, v2 answers Success with a
    stack of the same depth. *)
Theorem v2_reports_the_errors_of_the_reference (bytecode : bytes) :
  exists r,
    execute_with_spec bytecode = Ok r /\
    isinstance (execute_with_implementation bytecode v2.execute) cls_Crash
    = false /\
    match r with
    | Success s =>
        exists s',
          execute_with_implementation bytecode v2.execute = Success s' /\
          length s' = length s
    | ExceptionThrown _ =>
        exists reason,
          execute_with_implementation bytecode v2.execute
          = ExceptionThrown reason
    | Crash _ => False
    end.
Proof.
  pose proof (v2_against_reference bytecode) as H.
  pose proof (execute_with_spec_cases bytecode) as Hspec.
  unfold execute_with_implementation.
  destruct (v2.execute bytecode) as [c'|e].
  - destruct H as (P & r' & Hd & Hrun & _ & Hl' & _). rewrite Hd in Hspec.
    destruct Hspec as [(s & E & _ & ->)|(msg & E & _)];
      rewrite Hrun in E; [|discriminate].
    injection E as <-. exists (Success r'). split; [reflexivity|].
    split; [reflexivity|]. exists c'. split; [reflexivity|].
    symmetry. exact Hl'.
  - destruct H as [Hsl H]. rewrite Hsl.
    destruct (deserialize_program bytecode) as [P|e'].
    + destruct (H P eq_refl) as [msg Hrun].
      destruct Hspec as [(s & E & _)|(msg' & _ & ->)];
        [rewrite Hrun in E; discriminate|].
      eexists. split; [reflexivity|]. split; [reflexivity|].
      eexists. reflexivity.
    + eexists. split; [exact Hspec|]. split; [reflexivity|].
      eexists. reflexivity.
Qed.

(** X26. On a buffer that decodes to a program without BYTE, the only way
    v2 differs from the reference is the missing reduction modulo 2^64:
    either both report an error, or v2 returns a stack s' of non-negative
    integers and the reference returns s' with every value reduced modulo
    2^64, so that both compare_results accept v2 exactly when no value of
    s' exceeds 2^64 - 1. *)
Theorem v2_differs_by_missing_wrap (bytecode : bytes)
  (P : list Instruction) :
  deserialize_program bytecode = Ok P -> ~ In BYTE P ->
  (exists reason reason',
      execute_with_spec bytecode = Ok (ExceptionThrown reason) /\
      execute_with_implementation bytecode v2.execute
      = ExceptionThrown reason')
  \/ (exists s',
         execute_with_implementation bytecode v2.execute = Success s' /\
         Forall (fun v => 0 <= v) s' /\
         execute_with_spec bytecode
         = Ok (Success (map (fun v => v mod 2 ^ 64) s')) /\
         (Fuzzing.compare_results
            (Success (map (fun v => v mod 2 ^ 64) s')) (Success s') = true
          <-> Forall (fun v => v <= UINT64_MAX) s') /\
         (Fuzzer.compare_results
            (Success (map (fun v => v mod 2 ^ 64) s')) (Success s') = true
          <-> Forall (fun v => v <= UINT64_MAX) s')).
Proof.
  intros Hd Hfree.
  pose proof (v2_against_reference bytecode) as H.
  pose proof (execute_with_spec_cases bytecode) as Hspec.
  rewrite Hd in Hspec.
  unfold execute_with_implementation.
  destruct (v2.execute bytecode) as [c'|e].
  - right. destruct H as (P' & r' & Hd' & Hrun & Hc' & _ & Hw').
    rewrite Hd in Hd'. injection Hd' as <-.
    specialize (Hw' Hfree). subst r'.
    destruct Hspec as [(s & E & _ & Hs)|(msg & E & _)];
      rewrite Hrun in E; [|discriminate].
    injection E as <-.
    exists c'. split; [reflexivity|]. split; [exact Hc'|].
    split; [exact Hs|].
    rewrite <- (map_wrap_fixed c' Hc').
    split; cbn; rewrite ?list_eq_true; reflexivity.
  - left. destruct H as [Hsl H]. rewrite Hsl.
    destruct (H P Hd) as [msg Hrun].
    destruct Hspec as [(s & E & _)|(msg' & _ & Hs)];
      [rewrite Hrun in E; discriminate|].
    do 2 eexists. split; [exact Hs|reflexivity].
Qed.

Lemma v2_differs_by_missing_wrap_witness :
  (exists reason reason',
      execute_with_spec
        [x01; xff; xff; xff; xff; x01; xff; xff; xff; xff;
         x01; xff; xff; xff; xff; x03; x03]
      = Ok (ExceptionThrown reason) /\
      execute_with_implementation
        [x01; xff; xff; xff; xff; x01; xff; xff; xff; xff;
         x01; xff; xff; xff; xff; x03; x03] v2.execute
      = ExceptionThrown reason')
  \/ (exists s',
         execute_with_implementation
           [x01; xff; xff; xff; xff; x01; xff; xff; xff; xff;
            x01; xff; xff; xff; xff; x03; x03] v2.execute = Success s' /\
         Forall (fun v => 0 <= v) s' /\
         execute_with_spec
           [x01; xff; xff; xff; xff; x01; xff; xff; xff; xff;
            x01; xff; xff; xff; xff; x03; x03]
         = Ok (Success (map (fun v => v mod 2 ^ 64) s')) /\
         (Fuzzing.compare_results
            (Success (map (fun v => v mod 2 ^ 64) s')) (Success s') = true
          <-> Forall (fun v => v <= UINT64_MAX) s') /\
         (Fuzzer.compare_results
            (Success (map (fun v => v mod 2 ^ 64) s')) (Success s') = true
          <-> Forall (fun v => v <= UINT64_MAX) s')).
Proof.
  apply (v2_differs_by_missing_wrap
           [x01; xff; xff; xff; xff; x01; xff; xff; xff; xff;
            x01; xff; xff; xff; xff; x03; x03]
           [PUSH4 0xFFFFFFFF; PUSH4 0xFFFFFFFF; PUSH4 0xFFFFFFFF; MUL; MUL]).
  - vm_compute. reflexivity.
  - cbn [In]. intros [H|[H|[H|[H|[H|[]]]]]]; discriminate H.
Defined.

Lemma v2_two_operands_ADD (a0 a1 a2 a3 b0 b1 b2 b3 : byte) :
  v2.execute [x01; a0; a1; a2; a3; x01; b0; b1; b2; b3; x02]
  = Returns [from_bytes_big [b0; b1; b2; b3]
             + from_bytes_big [a0; a1; a2; a3]].
Proof. vm_compute. reflexivity. Qed.

Lemma v2_two_operands_MUL (a0 a1 a2 a3 b0 b1 b2 b3 : byte) :
  v2.execute [x01; a0; a1; a2; a3; x01; b0; b1; b2; b3; x03]
  = Returns [from_bytes_big [b0; b1; b2; b3]
             * from_bytes_big [a0; a1; a2; a3]].
Proof. vm_compute. reflexivity. Qed.

Lemma serialize_two_operands_bytes (a b : Z) (op : Instruction) (o : byte) :
  0 <= a <= 0xFFFFFFFF -> 0 <= b <= 0xFFFFFFFF ->
  serialize_instruction op = Ok [o] ->
  exists a0 a1 a2 a3 b0 b1 b2 b3,
    serialize_program [PUSH4 a; PUSH4 b; op]
    = Ok [x01; a0; a1; a2; a3; x01; b0; b1; b2; b3; o] /\
    from_bytes_big [a0; a1; a2; a3] = a /\
    from_bytes_big [b0; b1; b2; b3] = b.
Proof.
  intros Ha Hb Ho.
  pose proof (from_bytes_big_le_digits 4 a) as Ea.
  pose proof (from_bytes_big_le_digits 4 b) as Eb.
  change (256 ^ Z.of_nat 4) with 4294967296 in Ea, Eb.
  rewrite Z.mod_small in Ea, Eb by lia.
  cbn [serialize_program]. rewrite Ho.
  cbn [serialize_instruction].
  rewrite !(to_bytes_big_fits _ 4)
    by (change (256 ^ Z.of_nat 4) with 4294967296; lia).
  cbn [bind le_digits rev app] in Ea, Eb |- *.
  do 8 eexists. split; [reflexivity|]. split; [exact Ea|exact Eb].
Qed.

(** X27. Candidate v2 passes every test of the shape used by the
    arithmetic-overflow suite, although it never reduces modulo 2^64: for
    all operands v1, v2 in [0, 2^32 - 1], on PUSH4(v1), PUSH4(v2), ADD both
    v2 and the reference answer Success([v1 + v2]), and on PUSH4(v1),
    PUSH4(v2), MUL both answer Success([v1 * v2]).  In particular v2 gives
    the reference's answer on each of the eighteen buffers of
    enumerate_arithmetic_overflow_tests. *)
Theorem v2_passes_arithmetic_overflow_tests :
  (forall v1 v2 : Z,
      0 <= v1 <= 0xFFFFFFFF -> 0 <= v2 <= 0xFFFFFFFF ->
      (exists code,
          serialize_program [PUSH4 v1; PUSH4 v2; ADD] = Ok code /\
          execute_with_spec code = Ok (Success [v1 + v2]) /\
          execute_with_implementation code v2.execute = Success [v1 + v2])
      /\ (exists code,
             serialize_program [PUSH4 v1; PUSH4 v2; MUL] = Ok code /\
             execute_with_spec code = Ok (Success [v1 * v2]) /\
             execute_with_implementation code v2.execute
             = Success [v1 * v2]))
  /\ Forall (fun code =>
               execute_with_spec code
               = Ok (execute_with_implementation code v2.execute))
       (fst enumerate_arithmetic_overflow_tests).
Proof.
  split.
  - intros v1 v2 H1 H2.
    assert (Hv : valid_stack ([] ++ [v1; v2])) by valid_stack_tac.
    assert (Hspec : forall code s,
               execute_bytecode code None = Ok (mkVMState s) ->
               execute_with_spec code = Ok (Success s)).
    { intros code s Hrun. unfold execute_with_spec.
      unfold execute_bytecode in Hrun.
      destruct (deserialize_program code) as [P|]; cbn [bind] in *;
        [|discriminate].
      rewrite Hrun. reflexivity. }
    split.
    + destruct (serialize_two_operands_bytes v1 v2 ADD x02 H1 H2 eq_refl)
        as (a0 & a1 & a2 & a3 & b0 & b1 & b2 & b3 & Hc & Ea & Eb).
      eexists. split; [exact Hc|]. split.
      * apply Hspec.
        rewrite (execute_bytecode_two_operands _ _ ADD _ H1 H2 Hc).
        pose proof (execute_ADD_valid [] v1 v2 Hv) as HA.
        cbn [app] in HA. rewrite HA, Z.mod_small by lia. reflexivity.
      * unfold execute_with_implementation.
        rewrite v2_two_operands_ADD, Ea, Eb, (Z.add_comm v2 v1).
        reflexivity.
    + destruct (serialize_two_operands_bytes v1 v2 MUL x03 H1 H2 eq_refl)
        as (a0 & a1 & a2 & a3 & b0 & b1 & b2 & b3 & Hc & Ea & Eb).
      eexists. split; [exact Hc|]. split.
      * apply Hspec.
        rewrite (execute_bytecode_two_operands _ _ MUL _ H1 H2 Hc).
        pose proof (execute_MUL_valid [] v1 v2 Hv) as HM.
        cbn [app] in HM. rewrite HM, Z.mod_small by nia. reflexivity.
      * unfold execute_with_implementation.
        rewrite v2_two_operands_MUL, Ea, Eb, (Z.mul_comm v2 v1).
        reflexivity.
  - let l := eval vm_compute in (fst enumerate_arithmetic_overflow_tests) in
    replace (fst enumerate_arithmetic_overflow_tests) with l
      by (vm_compute; reflexivity).
    repeat (apply Forall_cons; [vm_compute; reflexivity|]).
    apply Forall_nil.
Qed.

Lemma v2_passes_arithmetic_overflow_tests_witness :
  (exists code,
      serialize_program [PUSH4 0xFFFFFFFF; PUSH4 0x80000000; ADD] = Ok code /\
      execute_with_spec code = Ok (Success [0xFFFFFFFF + 0x80000000]) /\
      execute_with_implementation code v2.execute
      = Success [0xFFFFFFFF + 0x80000000])
  /\ (exists code,
         serialize_program [PUSH4 0xFFFFFFFF; PUSH4 0x80000000; MUL]
         = Ok code /\
         execute_with_spec code = Ok (Success [0xFFFFFFFF * 0x80000000]) /\
         execute_with_implementation code v2.execute
         = Success [0xFFFFFFFF * 0x80000000]).
Proof.
  apply (proj1 v2_passes_arithmetic_overflow_tests 0xFFFFFFFF 0x80000000).
  - lia.
  - lia.
Defined.
